(** * qsnap: the capture-and-compare pipeline

    A shallow embedding of the core of qsnap (package [diff], [report],
    [pool], [browser], [snapshot] and the task loop of [main]) together with
    the properties its specification states about it.

    Conventions.
    - A Go [int] is a [Z]; where the source multiplies or increments, the
      64-bit wrap-around is written out ([Go.int_wrap]).
    - A Go [float64] is a primitive binary64 float of the kernel.
    - A Go [error] is [option error]: [None] is [nil].
    - A function with several results returns a tuple in the order of the
      source.
    - The file system, the browser and the clock are explicit state. *)

From Stdlib Require Import ZArith Bool Lia Floats Uint63 Ascii.
From Stdlib Require Import Permutation.
From stdpp Require Import gmap strings list pretty.

Open Scope Z_scope.

(** ** Go base types *)

Module Go.

(** Two's complement wrap-around of a 64-bit [int]. *)
Definition int_wrap (z : Z) : Z := (z + 2 ^ 63) mod 2 ^ 64 - 2 ^ 63.

Definition int_add (x y : Z) : Z := int_wrap (x + y).
Definition int_mul (x y : Z) : Z := int_wrap (x * y).

(** The conversion [uint(x)] of an [int]. *)
Definition uint (z : Z) : Z := z mod 2 ^ 64.

(** The errors the pipeline distinguishes.  [ErrNotExist] is the
    [*PathError] of a failed [os.Open] on a missing file, the only one
    [os.IsNotExist] recognises. *)
Inductive error : Type :=
| ErrNotExist (path : string)
| ErrCreate (path : string)
| ErrDecode
| ErrEncode
| ErrSizeMismatch
| ErrHash
| ErrSelectorTimeout
| ErrBrowser (msg : string)
| ErrConfig (msg : string).

(** [err.Error()] *)
Definition Error (e : error) : string :=
  match e with
  | ErrNotExist p => "open " +:+ p +:+ ": no such file or directory"
  | ErrCreate p => "open " +:+ p +:+ ": cannot create"
  | ErrDecode => "png: invalid format"
  | ErrEncode => "png: invalid image"
  | ErrSizeMismatch => "size mismatch after resize"
  | ErrHash => "image hash failed"
  | ErrSelectorTimeout => "timeout waiting for any selector"
  | ErrBrowser msg => msg
  | ErrConfig msg => msg
  end.

(** [os.IsNotExist(err)]; it is false on [nil]. *)
Definition os_IsNotExist (err : option error) : bool :=
  match err with
  | Some (ErrNotExist _) => true
  | _ => false
  end.

(** [float64(x)] for an [int] [x]: rounding to nearest, ties to even. *)
Definition float64 (z : Z) : float :=
  if z =? - 2 ^ 63 then (- (of_uint63 (Uint63.of_Z (2 ^ 62)) * 2))%float
  else if z <? 0 then (- of_uint63 (Uint63.of_Z (- z)))%float
  else of_uint63 (Uint63.of_Z z).

(** [math.Max(x, y)], with the special cases of the Go library. *)
Definition math_Max (x y : float) : float :=
  if (x =? infinity)%float || (y =? infinity)%float then infinity
  else if is_nan x || is_nan y then nan
  else if (x =? 0)%float && (x =? y)%float then
    (if get_sign x then y else x)
  else if (y <? x)%float then x else y.

End Go.

Export Go.

(** ** Package image (the part of the Go library the pipeline uses) *)

Module image.

(** The value of [Color.RGBA()]: alpha-premultiplied channels, each a
    [uint32] in [0, 0xffff]. *)
Record Color : Type := mkColor { cR : Z; cG : Z; cB : Z; cA : Z }.

Definition zeroColor : Color := mkColor 0 0 0 0.

(** [color.RGBA{r, g, b, a}] seen through [RGBA()]: [r |= r << 8]. *)
Definition color_RGBA (r g b a : Z) : Color :=
  mkColor (Z.lor r (Z.shiftl r 8)) (Z.lor g (Z.shiftl g 8))
          (Z.lor b (Z.shiftl b 8)) (Z.lor a (Z.shiftl a 8)).

(** [color.RGBAModel.Convert]: what an [*image.RGBA] stores of a colour. *)
Definition RGBAModel (c : Color) : Color :=
  color_RGBA (Z.shiftr (cR c) 8) (Z.shiftr (cG c) 8)
             (Z.shiftr (cB c) 8) (Z.shiftr (cA c) 8).

Record Point : Type := mkPoint { X : Z; Y : Z }.
Record Rectangle : Type := mkRect { Min : Point; Max : Point }.

Definition Dx (r : Rectangle) : Z := X (Max r) - X (Min r).
Definition Dy (r : Rectangle) : Z := Y (Max r) - Y (Min r).

(** [image.Rect]: the corners are put in order. *)
Definition Rect (x0 y0 x1 y1 : Z) : Rectangle :=
  let '(x0, x1) := if x1 <? x0 then (x1, x0) else (x0, x1) in
  let '(y0, y1) := if y1 <? y0 then (y1, y0) else (y0, y1) in
  mkRect (mkPoint x0 y0) (mkPoint x1 y1).

(** [Point.In(r)] *)
Definition inside (x y : Z) (r : Rectangle) : bool :=
  (X (Min r) <=? x) && (x <? X (Max r)) &&
  (Y (Min r) <=? y) && (y <? Y (Max r)).

(** An [image.Image]: its bounds and its [At] method. *)
Record Image : Type := mkImage { Bounds : Rectangle; At : Z -> Z -> Color }.

(** [image.NewRGBA(r)]: every pixel is the zero colour. *)
Definition NewRGBA (r : Rectangle) : Image :=
  mkImage r (fun _ _ => zeroColor).

(** The [Set(x, y, c)] method of an RGBA image: nothing happens outside
    the bounds. *)
Definition RGBA_Set (img : Image) (x y : Z) (c : Color) : Image :=
  if inside x y (Bounds img) then
    mkImage (Bounds img)
      (fun x' y' => if (x' =? x) && (y' =? y) then RGBAModel c
                    else At img x' y')
  else img.

(** [draw.Draw(dst, r, src, sp, draw.Src)]: the pixels of [r] that lie in
    [dst] and whose source point lies in [src] are overwritten. *)
Definition draw_Src (dst : Image) (r : Rectangle) (src : Image) (sp : Point)
  : Image :=
  mkImage (Bounds dst)
    (fun x y =>
       let sx := X sp + (x - X (Min r)) in
       let sy := Y sp + (y - Y (Min r)) in
       if inside x y r && inside x y (Bounds dst)
          && inside sx sy (Bounds src)
       then RGBAModel (At src sx sy)
       else At dst x y).

End image.

Export image.

(** ** The file system *)

Module os.

(** The files by path, and whether [os.Create] succeeds on a path (its
    directory exists and is writable): that is a fact of the environment. *)
Record FileSystem : Type := mkFS {
  files : gmap string (list Byte.byte);
  creatable : string -> bool
}.

(** [os.Open] followed by reading the whole file. *)
Definition Open (fs : FileSystem) (path : string)
  : list Byte.byte * option error :=
  match files fs !! path with
  | Some data => (data, None)
  | None => ([], Some (ErrNotExist path))
  end.

(** [os.Create]: the file exists and is empty afterwards. *)
Definition Create (fs : FileSystem) (path : string)
  : FileSystem * option error :=
  if creatable fs path
  then (mkFS (<[path := []]> (files fs)) (creatable fs), None)
  else (fs, Some (ErrCreate path)).

(** [os.Stat]: the error, for a path that names no file.  The file system
    holds regular files: a path names one of them or nothing. *)
Definition Stat (fs : FileSystem) (path : string) : option error :=
  match files fs !! path with
  | Some _ => None
  | None => Some (ErrNotExist path)
  end.

(** Writing [data] to the file just created at [path]. *)
Definition Write_ (fs : FileSystem) (path : string) (data : list Byte.byte)
  : FileSystem :=
  mkFS (<[path := data]> (files fs)) (creatable fs).

End os.

(** ** Package diff (src/internal/diff/diff.go) *)

Module diff.

Record PixelResult : Type := mkPixelResult {
  Pass : bool;
  RatioDiff : float;
  DiffImagePath : string
}.

Record PHashResult : Type := mkPHashResult {
  PHPass : bool;
  HammingDistance : Z
}.

(** The zero values [PixelResult{}] and [PHashResult{}]. *)
Definition zeroPixelResult : PixelResult := mkPixelResult false 0%float "".
Definition zeroPHashResult : PHashResult := mkPHashResult false 0.

Inductive Interpolation : Type := NearestNeighbor | Lanczos3.

(** The marker colour [color.RGBA{255, 0, 255, 255}]. *)
Definition magenta : Color := color_RGBA 255 0 255 255.

(** The test [ar != br || ag != bg || ab2 != bb2 || aa != ba]. *)
Definition mismatch (ca cb : Color) : bool :=
  negb (cR ca =? cR cb) || negb (cG ca =? cG cb)
  || negb (cB ca =? cB cb) || negb (cA ca =? cA cb).

Section WithLibraries.

(** The libraries the package calls: the PNG codec, [resize.Resize] of
    nfnt/resize, and the perceptual hash of goimagehash. *)
Variable png_Decode : list Byte.byte -> option Image.
Variable png_Encode : Image -> option (list Byte.byte).
Variable Resize : Z -> Z -> Image -> Interpolation -> Image.
Variable ImageHash : Type.
Variable PerceptionHash : Image -> option ImageHash.
Variable Distance : ImageHash -> ImageHash -> option Z.

Definition openPNG (fs : os.FileSystem) (path : string)
  : option Image * option error :=
  let '(f, err) := os.Open fs path in
  match err with
  | Some e => (None, Some e)
  | None =>
      match png_Decode f with
      | None => (None, Some ErrDecode)
      | Some img => (Some img, None)
      end
  end.

Definition savePNG (fs : os.FileSystem) (path : string) (img : Image)
  : os.FileSystem * option error :=
  let '(fs, err) := os.Create fs path in
  match err with
  | Some e => (fs, Some e)
  | None =>
      match png_Encode img with
      | None => (fs, Some ErrEncode)
      | Some data => (os.Write_ fs path data, None)
      end
  end.

(** The body of the two nested loops at one pixel. *)
Definition pixelStep (a b : Image) (y : Z) (acc : Z * Image) (x : Z)
  : Z * Image :=
  let '(diffCount, diffImg) := acc in
  if mismatch (At a x y) (At b x y)
  then (int_add diffCount 1, RGBA_Set diffImg x y magenta)
  else (diffCount, diffImg).

Definition pixelLoop (a b : Image) (w h : Z) (diffImg : Image)
  : Z * Image :=
  fold_left
    (fun acc y => fold_left (pixelStep a b y) (seqZ 0 w) acc)
    (seqZ 0 h) (0, diffImg).

Definition pixelDiff (a b : Image) (threshold : float)
  : PixelResult * option Image * option error :=
  let ab := Bounds a in
  let bb := Bounds b in
  let '(b, bb) :=
    if negb (Dx ab =? Dx bb) || negb (Dy ab =? Dy bb)
    then
      (* scale B to A *)
      let b := Resize (uint (Dx ab)) (uint (Dy ab)) b NearestNeighbor in
      (b, Bounds b)
    else (b, bb) in
  if negb (Dx ab =? Dx bb) || negb (Dy ab =? Dy bb)
  then (zeroPixelResult, None, Some ErrSizeMismatch)
  else
    let w := Dx ab in
    let h := Dy ab in
    let diffImg := NewRGBA (Rect 0 0 w h) in
    let diffImg := draw_Src diffImg (Bounds diffImg) a (Min ab) in
    let '(diffCount, diffImg) := pixelLoop a b w h diffImg in
    let total := int_mul w h in
    let ratio := (float64 diffCount / float64 total)%float in
    (mkPixelResult (ratio <=? threshold)%float ratio "",
     Some diffImg, None).

Definition pHashDistance (a b : Image) (allowed : Z)
  : PHashResult * option error :=
  (* resize to a stable small size *)
  let aSmall := Resize 256 0 a Lanczos3 in
  let bSmall := Resize 256 0 b Lanczos3 in
  match PerceptionHash aSmall with
  | None => (zeroPHashResult, Some ErrHash)
  | Some ha =>
      match PerceptionHash bSmall with
      | None => (zeroPHashResult, Some ErrHash)
      | Some hb =>
          match Distance ha hb with
          | None => (zeroPHashResult, Some ErrHash)
          | Some hd => (mkPHashResult (hd <=? allowed) hd, None)
          end
      end
  end.

Definition CompareFiles (fs : os.FileSystem) (baselinePath : string)
    (buf : list Byte.byte) (diffPath : string)
    (pxThreshold : float) (phThreshold : Z)
  : PixelResult * PHashResult * option error * os.FileSystem :=
  match openPNG fs baselinePath with
  | (_, Some err) => (zeroPixelResult, zeroPHashResult, Some err, fs)
  | (None, None) =>
      (* a nil image comes with an error: not reached *)
      (zeroPixelResult, zeroPHashResult, Some ErrDecode, fs)
  | (Some baseImg, None) =>
      match png_Decode buf with
      | None => (zeroPixelResult, zeroPHashResult, Some ErrDecode, fs)
      | Some img =>
          match pixelDiff baseImg img (math_Max 0 pxThreshold) with
          | (_, _, Some err) =>
              (zeroPixelResult, zeroPHashResult, Some err, fs)
          | (_, None, None) =>
              (* a nil image comes with an error: not reached *)
              (zeroPixelResult, zeroPHashResult, Some ErrSizeMismatch, fs)
          | (px, Some diffImg, None) =>
              match pHashDistance baseImg img phThreshold with
              | (_, Some err) =>
                  (zeroPixelResult, zeroPHashResult, Some err, fs)
              | (ph, None) =>
                  if negb (Pass px) then
                    let '(fs, _) := savePNG fs diffPath diffImg in
                    (mkPixelResult (Pass px) (RatioDiff px) diffPath,
                     ph, None, fs)
                  else (px, ph, None, fs)
              end
          end
      end
  end.

End WithLibraries.

End diff.

(** ** Package browser (src/internal/browser/browser.go) *)

Module browser.

(** A context of chromedp is a handle; a [context.CancelFunc] is the handle
    it cancels, or [None] for a nil function. *)
Definition handle : Type := nat.

Record Instance : Type := mkInstance {
  AllocCancel : option handle;
  Ctx : handle;
  cancel : option handle;
  ID : Z
}.

Definition Instances : Type := list Instance.

(** The browsers of the machine: the contexts that are open (allocated and
    not cancelled), the next fresh handle, and how many launches were
    attempted so far. *)
Record World : Type := mkWorld {
  live : gset handle;
  next : handle;
  launched : nat
}.

Definition newContext (w : World) : handle * World :=
  (next w, mkWorld ({[next w]} ∪ live w) (S (next w)) (launched w)).

(** Calling a cancel function; cancelling twice is harmless. *)
Definition callCancel (h : handle) (w : World) : World :=
  mkWorld (live w ∖ {[h]}) (next w) (launched w).

(** [if f != nil { f() }] *)
Definition cancelIfSet (f : option handle) (w : World) : World :=
  match f with
  | Some h => callCancel h w
  | None => w
  end.

(** The body of the range loops of [LaunchPool] and [CloseAll]. *)
Definition closeInstance (w : World) (it : Instance) : World :=
  cancelIfSet (AllocCancel it) (cancelIfSet (cancel it) w).

Definition CloseAll (is_ : Instances) (w : World) : World :=
  fold_left closeInstance is_ w.

(** [Pick]; [rand.Intn(n)] is [r mod n] for a random [r].  [None] is the
    panic on an empty pool. *)
Definition Pick (is_ : Instances) (r : nat) : option Instance :=
  if (length is_ =? 1)%nat then is_ !! 0%nat
  else is_ !! (r mod length is_)%nat.

(** [PickIdx]: the instance picked as by [Pick], and beside it the [ID] of
    the first instance of the pool. *)
Definition PickIdx (is_ : Instances) (r : nat) : option (Instance * Z) :=
  if (length is_ =? 1)%nat then
    match is_ !! 0%nat with
    | Some it0 => Some (it0, ID it0)
    | None => None
    end
  else
    match is_ !! (r mod length is_)%nat, is_ !! 0%nat with
    | Some it, Some it0 => Some (it, ID it0)
    | _, _ => None
    end.

Section WithChrome.

(** Whether the warm-up [chromedp.Run(ctx)] of the k-th launch of the
    machine succeeds. *)
Variable warmup : nat -> option error.

Definition launchOne (w : World) : option Instance * option error * World :=
  let '(allocCtx, w) := newContext w in
  let '(ctx, w) := newContext w in
  let k := launched w in
  let w := mkWorld (live w) (next w) (S k) in
  (* Warmup: starten *)
  match warmup k with
  | Some err =>
      let w := callCancel ctx w in
      let w := callCancel allocCtx w in
      (None, Some err, w)
  | None => (Some (mkInstance (Some allocCtx) ctx (Some ctx) 0), None, w)
  end.

(** The loop [for i := 0; i < n; i++] with [todo] iterations left. *)
Fixpoint launchLoop (todo : nat) (i : Z) (instances : Instances)
    (w : World) : Instances * option error * World :=
  match todo with
  | O => (instances, None, w)
  | S todo =>
      match launchOne w with
      | (_, Some err, w) =>
          (* alle bereits gestarteten wieder schliessen *)
          ([], Some err, fold_left closeInstance instances w)
      | (None, None, w) =>
          (* a nil instance comes with an error: not reached *)
          ([], Some (ErrBrowser "nil instance"), w)
      | (Some inst, None, w) =>
          let inst :=
            mkInstance (AllocCancel inst) (Ctx inst) (cancel inst) i in
          launchLoop todo (i + 1) (instances ++ [inst]) w
      end
  end.

Definition LaunchPool (n : Z) (w : World)
  : Instances * option error * World :=
  let n := if n <? 1 then 1 else n in
  launchLoop (Z.to_nat n) 0 [] w.

End WithChrome.

(** The handles the cancel functions of an instance close. *)
Definition owned (it : Instance) : gset handle :=
  from_option singleton ∅ (AllocCancel it)
  ∪ from_option singleton ∅ (cancel it).

Definition ownedAll (is_ : Instances) : gset handle :=
  ⋃ (owned <$> is_).

(** An instance is open when its browser context and its allocator are. *)
Definition isOpen (w : World) (it : Instance) : Prop :=
  Ctx it ∈ live w /\ owned it ⊆ live w.

(** Handles are handed out in increasing order. *)
Definition fresh (w : World) : Prop :=
  forall h, h ∈ live w -> (h < next w)%nat.

End browser.

(** ** Package snapshot (src/internal/snapshot/snapshot.go) *)

Module snapshot.

(** Durations and instants are nanoseconds, as in package time. *)
Definition Millisecond : N := 1000000%N.
Definition Second : N := 1000000000%N.

(** What the browser does, which the program cannot know in advance: the
    result of the other actions of chromedp; for a query for a selector
    that starts at a given instant, after how long the element is ready,
    if it ever is; the instant at which the context of the instance, from
    which [Capture] derives the context of its actions, is cancelled, if
    it ever is; and by how much a sleep overshoots. *)
Record Page : Type := mkPage {
  emulateViewport : Z -> Z -> option error;
  navigate : string -> option error;
  readyAfter : string -> N -> option N;
  cancelled : option N;
  overshoot : N -> N;
  fullScreenshot : N -> list Byte.byte * option error
}.

(** A [context.Context]: its deadline, if it has one. *)
Record Context : Type := mkContext { deadline : option N }.

(** What becomes of a call that may block: it returns a value at an
    instant, or it never returns. *)
Inductive outcome (A : Type) : Type :=
| Returns (a : A) (now : N)
| Blocks.
Arguments Returns {A} a now.
Arguments Blocks {A}.

(** [ctx.Err()] of a cancelled context. *)
Definition context_Canceled : error := ErrBrowser "context canceled".

(** [chromedp.Run(ctx, chromedp.WaitReady(sel, chromedp.ByQuery))] from
    the instant [now]: the action waits until the element is ready or the
    context is done, whichever comes first; it has no timeout of its
    own. *)
Definition WaitReady (pg : Page) (sel : string) (now : N)
  : outcome (option error) :=
  match readyAfter pg sel now, cancelled pg with
  | Some d, None => Returns None (now + d)%N
  | Some d, Some c =>
      if (now + d <? c)%N then Returns None (now + d)%N
      else Returns (Some context_Canceled) (N.max now c)
  | None, Some c => Returns (Some context_Canceled) (N.max now c)
  | None, None => Blocks
  end.

(** The inner loop of [waitAny]: one query per selector, in order, until
    one is ready.  Returns whether one was, and the time afterwards. *)
Fixpoint trySelectors (pg : Page) (selectors : list string) (now : N)
  : outcome bool :=
  match selectors with
  | [] => Returns false now
  | sel :: rest =>
      match WaitReady pg sel now with
      | Blocks => Blocks
      | Returns None now => Returns true now
      | Returns (Some _) now => trySelectors pg rest now
      end
  end.

(** [time.Sleep(d)]: at least [d]. *)
Definition Sleep (pg : Page) (d : N) (now : N) : N :=
  (now + d + overshoot pg now)%N.

(** The action [chromedp.Sleep(d)]: it ends early, with the error of the
    context, when the context is done first. *)
Definition chromedp_Sleep (pg : Page) (d : N) (now : N)
  : option error * N :=
  match cancelled pg with
  | Some c =>
      if (c <=? now + d)%N then (Some context_Canceled, N.max now c)
      else (None, Sleep pg d now)
  | None => (None, Sleep pg d now)
  end.

(** The outer loop [for { ... }] of [waitAny], with a bound on the number
    of rounds: [None] when the bound is reached before the loop returns
    or blocks. *)
Fixpoint waitAnyLoop (rounds : nat) (pg : Page) (selectors : list string)
    (deadline : N) (now : N) : option (outcome (option error)) :=
  match rounds with
  | O => None
  | S rounds =>
      match trySelectors pg selectors now with
      | Blocks => Some Blocks
      | Returns true now => Some (Returns None now)
      | Returns false now =>
          if (deadline <? now)%N
          then Some (Returns (Some ErrSelectorTimeout) now)
          else waitAnyLoop rounds pg selectors deadline
                 (Sleep pg (50 * Millisecond) now)
      end
  end.

Definition waitAny (rounds : nat) (pg : Page) (selectors : list string)
    (timeout : N) (now : N) : option (outcome (option error)) :=
  let deadline := (now + timeout)%N in
  waitAnyLoop rounds pg selectors deadline now.

(** [strings.Split(s, sep)] for a separator of one character. *)
Fixpoint strings_Split (sep : ascii) (s : string) : list string :=
  match s with
  | EmptyString => [EmptyString]
  | String c rest =>
      if Ascii.eqb c sep then EmptyString :: strings_Split sep rest
      else
        match strings_Split sep rest with
        | [] => [String c EmptyString]
        | p :: ps => String c p :: ps
        end
  end.

(** White space, among the characters of ASCII. *)
Definition isSpace (c : ascii) : bool :=
  let n := nat_of_ascii c in
  ((9 <=? n) && (n <=? 13))%nat || (n =? 32)%nat.

Fixpoint trimLeft (s : string) : string :=
  match s with
  | EmptyString => EmptyString
  | String c rest => if isSpace c then trimLeft rest else s
  end.

Fixpoint trimRight (s : string) : string :=
  match s with
  | EmptyString => EmptyString
  | String c rest =>
      match trimRight rest with
      | EmptyString => if isSpace c then EmptyString else String c EmptyString
      | rest' => String c rest'
      end
  end.

(** [strings.TrimSpace] *)
Definition strings_TrimSpace (s : string) : string := trimRight (trimLeft s).

Definition ParseSelectors (csv : string) : list string :=
  let parts := strings_Split "," csv in
  let out :=
    fold_left
      (fun out p =>
         let p := strings_TrimSpace p in
         if negb (String.eqb p "") then out ++ [p] else out)
      parts [] in
  if (length out =? 0)%nat then ["body"] else out.

(** [Capture]: the actions of [chromedp.Run] in order, the first error
    ending the run.  The actions run in a context derived from that of
    the instance; [ctx] and [outPath] are not used by the body.  The
    result is [None] only when [rounds] is too small for [waitAny]. *)
Definition Capture (rounds : nat) (pg : Page) (now : N)
    (ctx : Context) (inst : browser.Instance) (url outPath : string)
    (vw vh : Z) (waitSelectors : list string)
  : option (outcome (list Byte.byte * option error)) :=
  match emulateViewport pg vw vh with
  | Some err => Some (Returns ([], Some err) now)
  | None =>
  match navigate pg url with
  | Some err => Some (Returns ([], Some err) now)
  | None =>
  match WaitReady pg "body" now with
  | Blocks => Some Blocks
  | Returns (Some err) now => Some (Returns ([], Some err) now)
  | Returns None now =>
  match waitAny rounds pg waitSelectors (10 * Second) now with
  | None => None
  | Some Blocks => Some Blocks
  | Some (Returns (Some err) now) => Some (Returns ([], Some err) now)
  | Some (Returns None now) =>
  match chromedp_Sleep pg (50 * Millisecond) now with
  | (Some err, now) => Some (Returns ([], Some err) now)
  | (None, now) =>
      match fullScreenshot pg now with
      | (_, Some err) => Some (Returns ([], Some err) now)
      | (buf, None) => Some (Returns (buf, None) now)
      end
  end end end end end.

(** The number of rounds after which a wait of ten seconds whose queries
    all return has returned. *)
Definition enoughRounds : nat := 202.

End snapshot.

(** ** Package pool (src/internal/pool/pool.go) *)

Module pool.

(** A buffered channel of [struct{}]: its capacity and the number of values
    it holds. *)
Record chan : Type := mkChan { cap : Z; held : Z }.

Record Pool : Type := mkPool { wg : Z; sem : chan }.

Definition New (concurrency : Z) : Pool :=
  let concurrency := if concurrency <? 1 then 1 else concurrency in
  mkPool 0 (mkChan concurrency 0).

(** How the function of a task ends: it returns, or it panics.  The
    deferred calls run in both cases. *)
Inductive exit : Type := Returned | Panicked.

(** Where a task submitted with [Go] stands. *)
Inductive phase : Type :=
| Waiting                (* wg.Add(1) done; about to send on sem *)
| Running                (* permit sent; the goroutine runs fn() *)
| Exiting (how : exit)   (* fn() over; deferred <-p.sem comes next *)
| Released               (* permit received back; wg.Done() comes next *)
| Finished.

(** A task with the number of permits it acquired and gave back. *)
Record task : Type := mkTask {
  at_ : phase;
  acquired : nat;
  released : nat
}.

Record State : Type := mkState { pool_ : Pool; tasks : list task }.

Definition init (concurrency : Z) : State := mkState (New concurrency) [].

(** The atomic steps of the callers of [Go] and of the goroutines. *)
Inductive event : Type :=
| EvAdd                      (* Go: p.wg.Add(1) *)
| EvSend (i : nat)           (* Go: p.sem <- struct{}{}, then go func() *)
| EvExit (i : nat) (how : exit) (* goroutine: fn() returns or panics *)
| EvRecv (i : nat)           (* deferred: <-p.sem *)
| EvDone (i : nat).          (* deferred: p.wg.Done() *)

Definition setTask (s : State) (p : Pool) (i : nat) (t : task) : State :=
  mkState p (<[i := t]> (tasks s)).

(** One step; [None] when the step is not enabled: a send on a full
    channel and a receive on an empty one block. *)
Definition step (s : State) (e : event) : option State :=
  let p := pool_ s in
  match e with
  | EvAdd =>
      Some (mkState (mkPool (wg p + 1) (sem p))
                    (tasks s ++ [mkTask Waiting 0 0]))
  | EvSend i =>
      match tasks s !! i with
      | Some (mkTask Waiting a r) =>
          if held (sem p) <? cap (sem p) then
            Some (setTask s
                    (mkPool (wg p) (mkChan (cap (sem p)) (held (sem p) + 1)))
                    i (mkTask Running (S a) r))
          else None
      | _ => None
      end
  | EvExit i how =>
      match tasks s !! i with
      | Some (mkTask Running a r) =>
          Some (setTask s p i (mkTask (Exiting how) a r))
      | _ => None
      end
  | EvRecv i =>
      match tasks s !! i with
      | Some (mkTask (Exiting _) a r) =>
          if 0 <? held (sem p) then
            Some (setTask s
                    (mkPool (wg p) (mkChan (cap (sem p)) (held (sem p) - 1)))
                    i (mkTask Released a (S r)))
          else None
      | _ => None
      end
  | EvDone i =>
      match tasks s !! i with
      | Some (mkTask Released a r) =>
          Some (setTask s (mkPool (wg p - 1) (sem p)) i (mkTask Finished a r))
      | _ => None
      end
  end.

(** A run: a sequence of enabled steps. *)
Fixpoint run (s : State) (es : list event) : option State :=
  match es with
  | [] => Some s
  | e :: es =>
      match step s e with
      | Some s' => run s' es
      | None => None
      end
  end.

(** [Wait]: [p.wg.Wait()] returns once the counter of the wait group is
    zero; [None] while it blocks. *)
Definition Wait (s : State) : option State :=
  if wg (pool_ s) =? 0 then Some s else None.

(** A task holds a permit from its send to its receive. *)
Definition holds (t : task) : bool :=
  match at_ t with
  | Running | Exiting _ => true
  | _ => false
  end.

Definition holders (s : State) : Z :=
  Z.of_nat (length (filter (fun t => holds t = true) (tasks s))).

(** What the counters of a task must be in each phase. *)
Definition accounted (t : task) : Prop :=
  match at_ t with
  | Waiting => acquired t = 0%nat /\ released t = 0%nat
  | Running | Exiting _ => acquired t = 1%nat /\ released t = 0%nat
  | Released | Finished => acquired t = 1%nat /\ released t = 1%nat
  end.

Definition unfinished (t : task) : bool :=
  match at_ t with
  | Finished => false
  | _ => true
  end.

(** The tasks the wait group still waits for. *)
Definition pending (s : State) : Z :=
  Z.of_nat (length (filter (fun t => unfinished t = true) (tasks s))).

(** What holds of the pool at every instant of a run started with the
    limit [c]: the capacity of the channel is the clamped limit, the channel
    holds one value per task holding a permit, the wait group counts the
    unfinished tasks, and every task is accounted for. *)
Record invariant (c : Z) (s : State) : Prop := mkInvariant {
  inv_cap : cap (sem (pool_ s)) = Z.max 1 c;
  inv_held : held (sem (pool_ s)) = holders s;
  inv_bound : holders s <= Z.max 1 c;
  inv_wg : wg (pool_ s) = pending s;
  inv_accounted : Forall accounted (tasks s)
}.

End pool.

(** ** Package report (src/internal/report/report.go) *)

Module report.

Record CaseResult : Type := mkCaseResult {
  Name : string;
  URL : string;
  Status : string;   (* pass | fail | no-baseline | error *)
  Error_ : string;
  Baseline : string;
  OutPath : string;
  PixelDiff : option diff.PixelResult;
  PercepDiff : option diff.PHashResult
}.

(** The zero value, which [make] fills a slice with. *)
Definition zeroCaseResult : CaseResult :=
  mkCaseResult "" "" "" "" "" "" None None.

Record Report : Type := mkReport {
  GeneratedAt : string;
  Total : Z;
  Passed : Z;
  Failed : Z;
  NoBaseline : Z;
  Errored : Z;
  Cases : list CaseResult
}.

(** [CountStatus]; the counter is at most [len(cases)], an [int]. *)
Definition CountStatus (cases : list CaseResult) (status : string) : Z :=
  fold_left
    (fun n c => if String.eqb (Status c) status then n + 1 else n)
    cases 0.

End report.

(** ** Package tools (src/unnamed/part_000, the file of package tools) *)

Module tools.

(** What [dec.Decode(&v)] of a YAML decoder returns: an error for which
    [errors.Is(err, io.EOF)] holds, another error, or no error and the
    value decoded into [v]. *)
Inductive decoded (T : Type) : Type :=
| EOF
| Failed (e : error)
| Value (v : T).

Arguments EOF {T}.
Arguments Failed {T} e.
Arguments Value {T} v.

Definition FileExists (fs : os.FileSystem) (path : string) : bool :=
  match os.Stat fs path with
  | None => true
  | Some _ => false
  end.

Section WithDecoder.

(** A [*yaml.Decoder], and its [Decode] into a value of type [any]. *)
Variable Decoder : Type.
Variable Decode_any : Decoder -> decoded unit * Decoder.

Definition EnsureEOF (dec : Decoder) : option error :=
  match (Decode_any dec).1 with
  | EOF => None
  | Failed err => Some err
  | Value _ => Some (ErrConfig "expected EOF, but found extra data")
  end.

End WithDecoder.

Section WithHost.

(** [os.UserHomeDir()], and [Join], [Abs] and [Clean] of package
    filepath. *)
Variable UserHomeDir : string * option error.
Variable filepath_Join : list string -> string.
Variable filepath_Abs : string -> string * option error.
Variable filepath_Clean : string -> string.

(** [path[2:]] *)
Definition from2 (path : string) : string :=
  String.substring 2 (String.length path - 2) path.

Definition ExpandPath (path : string) : string * option error :=
  let expanded : string * option error :=
    if String.prefix "~" path then
      let '(home, err) := UserHomeDir in
      match err with
      | Some e => ("", Some e)
      | None =>
          if String.eqb path "~" then (home, None)
          else if String.prefix "~/" path
          then (filepath_Join [home; from2 path], None)
          else ("", Some (ErrConfig
                            ("cannot expand user in path: " +:+ path)))
      end
    else (path, None) in
  match expanded with
  | (_, Some e) => ("", Some e)
  | (path, None) =>
      let '(abs, err) := filepath_Abs path in
      match err with
      | Some e => ("", Some e)
      | None => (filepath_Clean abs, None)
      end
  end.

End WithHost.

End tools.

(** ** Package filepath of the Go library: WalkDir *)

Module filepath.

(** A directory tree as [WalkDir] finds it: a file by its name; a
    directory by its name, the error of [os.ReadDir] on it if there is
    one, and the entries [os.ReadDir] returns, in its order. *)
Inductive Tree : Type :=
| File (name : string)
| Dir (name : string) (readErr : option error) (entries : list Tree).

(** An [fs.DirEntry]: [Name()] and [IsDir()]. *)
Record DirEntry : Type := mkDirEntry { Name : string; IsDir : bool }.

Definition entryOf (t : Tree) : DirEntry :=
  match t with
  | File name => mkDirEntry name false
  | Dir name _ _ => mkDirEntry name true
  end.

(** What the function handed to [WalkDir] returns. *)
Inductive result : Type :=
| Nil
| SkipDir
| SkipAll
| Err (e : error).

Section WithCallback.

Variable filepath_Join : list string -> string.

(** The state the callback closes over, and the callback
    [fn(path, d, err)]: [d] is [None] for a nil entry. *)
Variable S : Type.
Variable fn : string -> option DirEntry -> option error -> S -> S * result.

(** [walkDir(path, d, fn)] *)
Fixpoint walkDir (path : string) (t : Tree) (st : S) : S * result :=
  let d := entryOf t in
  let '(st, err) := fn path (Some d) None st in
  match t, err with
  | File _, _ => (st, err)
  | Dir _ _ _, SkipDir => (st, Nil)      (* successfully skipped directory *)
  | Dir _ _ _, (SkipAll | Err _) => (st, err)
  | Dir _ readErr entries, Nil =>
      (* second call, to report the ReadDir error *)
      let '(st, err) :=
        match readErr with
        | Some e => fn path (Some d) (Some e) st
        | None => (st, Nil)
        end in
      match err with
      | SkipDir => (st, Nil)
      | SkipAll | Err _ => (st, err)
      | Nil =>
          (fix loop (dirs : list Tree) (st : S) : S * result :=
             match dirs with
             | [] => (st, Nil)
             | d1 :: dirs =>
                 let path1 := filepath_Join [path; Name (entryOf d1)] in
                 let '(st, err) := walkDir path1 d1 st in
                 match err with
                 | Nil => loop dirs st
                 | SkipDir => (st, Nil)   (* break *)
                 | SkipAll | Err _ => (st, err)
                 end
             end) entries st
      end
  end.

(** [WalkDir(root, fn)]: the tree at [root], or the error of [os.Lstat];
    the error it returns. *)
Definition WalkDir (root : string) (t : Tree + error) (st : S)
  : S * option error :=
  let '(st, err) :=
    match t with
    | inr e => fn root None (Some e) st
    | inl t => walkDir root t st
    end in
  match err with
  | Nil | SkipDir | SkipAll => (st, None)
  | Err e => (st, Some e)
  end.

End WithCallback.

End filepath.

(** ** Package config (src/internal/config/config.go), the part the task
    loop reads *)

Module config.

Record Size : Type := mkSize { SizeName : string; SWidth : Z; SHeight : Z }.

Record DiffPixelColor : Type := mkDPC { R : Z; G : Z; B : Z }.

Record OsnapBaseConfig : Type := mkBase {
  BaseThreshold : Z;
  BaseRetry : Z;
  SnapshotDirectory : string;
  TestPattern : string;
  DefaultSizes : list Size;
  DiffPixelColor_ : DiffPixelColor
}.

Record OsnapConfig : Type := mkCase {
  Name : string;
  URL : string;
  Threshold : option Z;
  Retry : Z;
  Width : Z;
  Height : Z
}.

(** The checks of [NewOsnapBaseConfig] on the decoded file, in order. *)
Definition checkBase (c : OsnapBaseConfig) : option error :=
  if (length (DefaultSizes c) =? 0)%nat
  then Some (ErrConfig "at least one default size must be specified")
  else if existsb (fun s => (SWidth s <=? 0) || (SHeight s <=? 0))
                  (DefaultSizes c)
  then Some (ErrConfig "invalid default size")
  else if (BaseThreshold c <? 0) || (100 <? BaseThreshold c)
  then Some (ErrConfig "threshold must be between 0 and 100")
  else if BaseRetry c <? 0
  then Some (ErrConfig "retry must be non-negative")
  else if String.eqb (TestPattern c) ""
  then Some (ErrConfig "testPattern must be specified")
  else if String.eqb (SnapshotDirectory c) ""
  then Some (ErrConfig "snapshotDirectory must be specified")
  else
    let d := DiffPixelColor_ c in
    if (R d <? 0) || (255 <? R d) || (G d <? 0) || (255 <? G d)
       || (B d <? 0) || (255 <? B d)
    then Some (ErrConfig "diffPixelColor values must be between 0 and 255")
    else None.

(** *** The loader *)

Record Sizes : Type := mkSizes {
  Strings : list string;
  Structs : list Size;
  One : option Size
}.

Definition zeroSizes : Sizes := mkSizes [] [] None.

(** What the function [unmarshal] handed to [UnmarshalYAML] does on each
    of the three targets the method tries: the value it decodes, or [None]
    when it returns an error. *)
Record Unmarshal : Type := mkUnmarshal {
  intoStrings : option (list string);
  intoStructs : option (list Size);
  intoSize : option Size
}.

Definition UnmarshalYAML (s : Sizes) (unmarshal : Unmarshal)
  : Sizes * option error :=
  (* 1) []string *)
  match intoStrings unmarshal with
  | Some asStrings => (mkSizes asStrings (Structs s) (One s), None)
  | None =>
  (* 2) []Size *)
  match intoStructs unmarshal with
  | Some asStructs => (mkSizes (Strings s) asStructs (One s), None)
  | None =>
  (* 3) a single Size *)
  match intoSize unmarshal with
  | Some one =>
      if negb (SWidth one =? 0) || negb (SHeight one =? 0)
      then (mkSizes (Strings s) (Structs s) (Some one), None)
      else (s, Some (ErrConfig "unsupported format for sizes: expected []string, Size, or []Size"))
  | None =>
      (s, Some (ErrConfig "unsupported format for sizes: expected []string, Size, or []Size"))
  end end end.

Definition AsStrings (s : Sizes) : list string := Strings s.

Definition AsSizes (s : Sizes) : list Size :=
  match One s with
  | Some one => [one]
  | None => Structs s
  end.

Record Action : Type := mkAction {
  At_ : option (list string);
  Action_ : string;
  Timeout : option Z;
  Selector : option string
}.

(** An [OsnapConfig] as the loader has it: the fields the task loop reads,
    and beside them the two only the loader reads. *)
Record Loaded : Type := mkLoaded {
  Case : OsnapConfig;
  Sizes_ : Sizes;
  Actions : list Action
}.

(** An [OsnapBaseConfig] as the loader has it: the fields the checks and
    the task loop read, and beside them the others. *)
Record LoadedBase : Type := mkLoadedBase {
  Base : OsnapBaseConfig;
  BaseURL : string;
  FullScreen : bool;
  IgnorePatterns : list string
}.

Definition zeroLoadedBase : LoadedBase :=
  mkLoadedBase (mkBase 0 0 "" "" [] (mkDPC 0 0 0)) "" false [].

(** [newC := *c; newC.Width = w; newC.Height = h] *)
Definition withSize (c : Loaded) (w h : Z) : Loaded :=
  mkLoaded
    (mkCase (Name (Case c)) (URL (Case c)) (Threshold (Case c))
       (Retry (Case c)) w h)
    (Sizes_ c) (Actions c).

(** The loop over [cfg.DefaultSizes] for the size name [s], up to its
    [break]. *)
Fixpoint appendNamed (c : Loaded) (s : string) (defaults : list Size)
    (res : list Loaded) : list Loaded :=
  match defaults with
  | [] => res
  | ds :: defaults =>
      if String.eqb s (SizeName ds)
      then res ++ [withSize c (SWidth ds) (SHeight ds)]
      else appendNamed c s defaults res
  end.

(** The body of the loop [for _, c := range configs]; [None] is the panic
    of a nil [c]. *)
Definition expandCase (cfg : OsnapBaseConfig) (res : list Loaded)
    (c : option Loaded) : option (list Loaded) :=
  match c with
  | None => None
  | Some c =>
      let ss := AsStrings (Sizes_ c) in
      if (0 <? length ss)%nat then
        Some (fold_left
                (fun res s => appendNamed c s (DefaultSizes cfg) res)
                ss res)
      else
        let sz := AsSizes (Sizes_ c) in
        if (0 <? length sz)%nat then
          Some (fold_left
                  (fun res s => res ++ [withSize c (SWidth s) (SHeight s)])
                  sz res)
        else
          match One (Sizes_ c) with
          | Some s => Some (res ++ [withSize c (SWidth s) (SHeight s)])
          | None =>
              Some (fold_left
                      (fun res s =>
                         res ++ [withSize c (SWidth s) (SHeight s)])
                      (DefaultSizes cfg) res)
          end
  end.

Fixpoint expandLoop (cfg : OsnapBaseConfig) (configs : list (option Loaded))
    (res : list Loaded) : option (list Loaded) :=
  match configs with
  | [] => Some res
  | c :: configs =>
      match expandCase cfg res c with
      | None => None
      | Some res => expandLoop cfg configs res
      end
  end.

(** The new line that [errors.Join] puts between the texts it joins. *)
Definition newline : string := String (ascii_of_nat 10) EmptyString.

(** [errors.Join(a, b)]: nil when both are; otherwise an error whose text
    is the texts of the errors, one per line. *)
Definition errors_Join (a b : option error) : option error :=
  match a, b with
  | None, None => None
  | Some e, None | None, Some e => Some (ErrConfig (Error e))
  | Some e1, Some e2 =>
      Some (ErrConfig (Error e1 +:+ newline +:+ Error e2))
  end.

(** [strings.HasSuffix] *)
Definition strings_HasSuffix (s suffix : string) : bool :=
  (String.length suffix <=? String.length s)%nat
  && String.eqb
       (String.substring (String.length s - String.length suffix)
          (String.length suffix) s)
       suffix.

Section WithHost.

Variable UserHomeDir : string * option error.
Variable filepath_Join : list string -> string.
Variable filepath_Abs : string -> string * option error.
Variable filepath_Clean : string -> string.

(** [strconv.Quote], which the verb [%q] of package fmt applies. *)
Variable strconv_Quote : string -> string.

(** A [*yaml.Decoder] with [KnownFields(true)] on the bytes of a file, and
    its [Decode] into each of the types the package decodes into. *)
Variable Decoder : Type.
Variable NewDecoder : list Byte.byte -> Decoder.
Variable Decode_base : Decoder -> tools.decoded LoadedBase * Decoder.
Variable Decode_configs :
  Decoder -> tools.decoded (list (option Loaded)) * Decoder.
Variable Decode_any : Decoder -> tools.decoded unit * Decoder.

Local Abbreviation ExpandPath :=
  (tools.ExpandPath UserHomeDir filepath_Join filepath_Abs filepath_Clean).
Local Abbreviation EnsureEOF := (tools.EnsureEOF Decoder Decode_any).

Definition withSnapshotDirectory (c : LoadedBase) (dir : string)
  : LoadedBase :=
  mkLoadedBase
    (mkBase (BaseThreshold (Base c)) (BaseRetry (Base c)) dir
       (TestPattern (Base c)) (DefaultSizes (Base c))
       (DiffPixelColor_ (Base c)))
    (BaseURL c) (FullScreen c) (IgnorePatterns c).

Definition NewOsnapBaseConfig (fs : os.FileSystem) (baseConfigPath : string)
  : option LoadedBase * option error :=
  let config := zeroLoadedBase in
  match ExpandPath baseConfigPath with
  | (_, Some err) => (None, Some err)
  | (path, None) =>
  if negb (tools.FileExists fs path)
  then (None, Some (ErrConfig ("base config file does not exist: "
                                 +:+ path)))
  else
  match os.Open fs path with
  | (_, Some err) => (None, Some err)
  | (f, None) =>
  let dec := NewDecoder f in
  match Decode_base dec with
  | (tools.EOF, _) => (Some config, None)
  | (tools.Failed err, _) => (None, Some err)
  | (tools.Value config, dec) =>
  match EnsureEOF dec with
  | Some err => (None, Some err)
  | None =>
  match ExpandPath (SnapshotDirectory (Base config)) with
  | (_, Some err) => (None, Some err)
  | (dir, None) =>
  let config := withSnapshotDirectory config dir in
  match checkBase (Base config) with
  | Some err => (None, Some err)
  | None => (Some config, None)
  end end end end end end.

(** [None] is a panic. *)
Definition NewOsnapConfig (cfg : LoadedBase) (fs : os.FileSystem)
    (configPath : string) : option (list Loaded * option error) :=
  if negb (tools.FileExists fs configPath)
  then Some ([], Some (ErrConfig ("config file does not exist: "
                                    +:+ configPath)))
  else
  match os.Open fs configPath with
  | (_, Some err) => Some ([], Some err)
  | (f, None) =>
  let dec := NewDecoder f in
  match Decode_configs dec with
  | (tools.EOF, _) => Some ([], None)
  | (tools.Failed err, _) => Some ([], Some err)
  | (tools.Value configs, dec) =>
  match EnsureEOF dec with
  | Some err => Some ([], Some err)
  | None =>
  match expandLoop (Base cfg) configs [] with
  | None => None
  | Some res => Some (res, None)
  end end end end.

(** What the function handed to [filepath.WalkDir] closes over: [results],
    [aggErr], and whether [NewOsnapConfig] panicked. *)
Record walkState : Type := mkWalk {
  results : list Loaded;
  aggErr : option error;
  panicked : bool
}.

(** The function handed to [filepath.WalkDir]. *)
Definition visit (cfg : LoadedBase) (fs : os.FileSystem)
    (path : string) (d : option filepath.DirEntry) (wErr : option error)
    (st : walkState) : walkState * filepath.result :=
  match wErr with
  | Some e =>
      (mkWalk (results st)
         (errors_Join (aggErr st)
            (Some (ErrConfig ("error accessing path " +:+ strconv_Quote path
                                +:+ ": " +:+ Error e))))
         (panicked st),
       filepath.Nil)
  | None =>
  match d with
  | None => (mkWalk (results st) (aggErr st) true, filepath.Nil)
  | Some d =>
  if filepath.IsDir d then
    let name := filepath.Name d in
    if existsb (String.eqb name) (IgnorePatterns cfg)
    then (st, filepath.SkipDir)
    else if String.prefix "." name && negb (String.eqb name ".")
            && negb (String.eqb name "..")
    then (st, filepath.SkipDir)
    else (st, filepath.Nil)
  else if negb (strings_HasSuffix (filepath.Name d) ".osnap.yaml")
  then (st, filepath.Nil)
  else
    match NewOsnapConfig cfg fs path with
    | None => (mkWalk (results st) (aggErr st) true, filepath.Nil)
    | Some (_, Some err) =>
        (mkWalk (results st)
           (errors_Join (aggErr st)
              (Some (ErrConfig ("error parsing config "
                                  +:+ strconv_Quote path
                                  +:+ ": " +:+ Error err))))
           (panicked st),
         filepath.Nil)
    | Some (configs, None) =>
        (mkWalk (results st ++ configs) (aggErr st) (panicked st),
         filepath.Nil)
    end
  end end.

(** [FindAndParseConfigs] on the tree found at the expanded root; [None]
    is a panic. *)
Definition FindAndParseConfigs (cfg : LoadedBase) (fs : os.FileSystem)
    (tree : string -> filepath.Tree + error) (root : string)
  : option (list Loaded * option error) :=
  match ExpandPath root with
  | (_, Some err) => Some ([], Some err)
  | (path, None) =>
      let '(st, err) :=
        filepath.WalkDir filepath_Join walkState (visit cfg fs) path
          (tree path) (mkWalk [] None false) in
      if panicked st then None
      else Some (results st, errors_Join (aggErr st) err)
  end.

End WithHost.

End config.

(** ** Package storybook (src/unnamed/part_002) *)

Module storybook.

(** The errors of the package: those of [errors.New] and [fmt.Errorf]. *)
Inductive failure : Type :=
| BuildCommandEmpty
| BuildCommandFailed (cause : error)
| BuildDirNotFound (buildDir : string).

(** [strings.Fields], among the characters of ASCII: the maximal runs of
    characters that are not white space, in order. *)
Fixpoint strings_Fields (s : string) : list string :=
  match s with
  | EmptyString => []
  | String c rest =>
      if snapshot.isSpace c then strings_Fields rest
      else
        match rest with
        | EmptyString => [String c EmptyString]
        | String c' _ =>
            if snapshot.isSpace c' then
              String c EmptyString :: strings_Fields rest
            else
              match strings_Fields rest with
              | f :: fs => String c f :: fs
              | [] => [String c EmptyString]
              end
        end
  end.

Definition splitCmd (s : string) : string * list string :=
  let parts := strings_Fields s in
  match parts with
  | [] => ("", [])
  | bin :: args => (bin, args)
  end.

(** The answer to a request, as far as the package reads it. *)
Record Response : Type := mkResponse { StatusCode : Z }.

Section WithHost.

(** The host: its directories, its commands, its clock and the server
    that is polled.  [isDir w path] is [os.Stat(path)] without an error and
    with [IsDir()]; [cmd_Run bin args dir] is [Run] on the command
    [exec.CommandContext(ctx, bin, args...)] with [Dir] set to [dir];
    [time_Now] reads the clock, in nanoseconds; [client_Get] is [Get] of
    the client with its timeout of two seconds. *)
Variable World : Type.
Variable isDir : World -> string -> bool.
Variable cmd_Run :
  string -> list string -> string -> World -> World * option error.
Variable time_Now : World -> Z.
Variable time_Sleep : Z -> World -> World.
Variable client_Get : string -> World -> (Response + error) * World.

Definition BuildIfNeeded (buildCmd buildDir workDir : string) (force : bool)
    (w : World) : World * option failure :=
  if negb force && isDir w buildDir then (w, None)
  else
    let '(bin, args) := splitCmd buildCmd in
    if String.eqb bin "" then (w, Some BuildCommandEmpty)
    else
      (* [cmd.Dir] is the empty string unless [workDir] is given *)
      let '(w, err) := cmd_Run bin args workDir w in
      match err with
      | Some err => (w, Some (BuildCommandFailed err))
      | None =>
          if negb (isDir w buildDir) then (w, Some (BuildDirNotFound buildDir))
          else (w, None)
      end.

Definition Millisecond : Z := 1000000.

(** The URL [WaitHTTP] asks for. *)
Definition healthURL (port : Z) (path : string) : string :=
  let path := if negb (String.prefix "/" path) then "/" +:+ path else path in
  "http://127.0.0.1:" +:+ pretty port +:+ path.

(** The loop of [WaitHTTP]; each unit of [fuel] is one test of its
    condition. *)
Fixpoint waitLoop (fuel : nat) (url : string) (deadline : Z) (w : World)
  : option (bool * World) :=
  match fuel with
  | O => None
  | S fuel =>
      if time_Now w <? deadline then
        let '(resp, w) := client_Get url w in
        match resp with
        | inl resp =>
            if (200 <=? StatusCode resp) && (StatusCode resp <? 500)
            then Some (true, w)
            else waitLoop fuel url deadline (time_Sleep (250 * Millisecond) w)
        | inr _ =>
            waitLoop fuel url deadline (time_Sleep (250 * Millisecond) w)
        end
      else Some (false, w)
  end.

(** [None]: the loop is not over when the fuel is. *)
Definition WaitHTTP (fuel : nat) (port : Z) (path : string) (timeout : Z)
    (w : World) : option (bool * World) :=
  let deadline := time_Now w + timeout in
  waitLoop fuel (healthURL port path) deadline w.

End WithHost.

End storybook.

(** ** Package ui (src/unnamed/part_005): the model of the progress view *)

Module ui.

(** [EventType] is an [int]; these are its two constants. *)
Definition EvtStart : Z := 0.
Definition EvtDone : Z := 1.

Record Event : Type := mkEvent {
  Type_ : Z;
  Name : string;
  URL : string;
  Instance : Z;
  Status : string;
  Error_ : string
}.

Record activeItem : Type := mkActive {
  name : string;
  instance : Z;
  start : Z;
  url : string
}.

(** The fields [name] and [instance] of a [logItem] are [logName] and
    [logInstance] here. *)
Record logItem : Type := mkLog {
  logName : string;
  logInstance : Z;
  status : string;
  err : string;
  dur : Z
}.

Record Counts : Type := mkCounts {
  running : Z;
  passed : Z;
  failed : Z;
  nobase : Z;
  errored : Z;
  completed : Z
}.

(** The styles of a [Model] only matter to [View]; they are left out. *)
Record Model : Type := mkModel {
  total : Z;
  active : gmap string activeItem;
  logs : list logItem;
  maxLog : Z;
  counts : Counts
}.

Definition New (total maxLog : Z) : Model :=
  mkModel total ∅ [] maxLog (mkCounts 0 0 0 0 0 0).

(** The messages [Update] tells apart; [otherMsg] is any other message of
    the runtime. *)
Inductive Msg : Type :=
| tickMsg (t : Z)
| eventMsg (e : Event)
| otherMsg.

(** [tea.Tick(d, ...)] *)
Inductive Cmd : Type := Tick (d : Z).

Definition Second : Z := 1000000000.

(** [m.logs[len(m.logs)-m.maxLog:]] when [len(m.logs) > m.maxLog]; the
    slice expression panics ([None]) when its lower bound is beyond the
    length. *)
Definition lastLogs (maxLog : Z) (logs : list logItem)
  : option (list logItem) :=
  let len := Z.of_nat (length logs) in
  if len >? maxLog then
    if len - maxLog >? len then None
    else Some (drop (Z.to_nat (len - maxLog)) logs)
  else Some logs.

Definition count (c : Counts) (status : string) : Counts :=
  let c := mkCounts (running c) (passed c) (failed c) (nobase c) (errored c)
             (Go.int_add (completed c) 1) in
  if String.eqb status "pass" then
    mkCounts (running c) (Go.int_add (passed c) 1) (failed c) (nobase c)
      (errored c) (completed c)
  else if String.eqb status "fail" then
    mkCounts (running c) (passed c) (Go.int_add (failed c) 1) (nobase c)
      (errored c) (completed c)
  else if String.eqb status "no-baseline" then
    mkCounts (running c) (passed c) (failed c) (Go.int_add (nobase c) 1)
      (errored c) (completed c)
  else if String.eqb status "error" then
    mkCounts (running c) (passed c) (failed c) (nobase c)
      (Go.int_add (errored c) 1) (completed c)
  else c.

Definition withRunning (c : Counts) (n : Z) : Counts :=
  mkCounts n (passed c) (failed c) (nobase c) (errored c) (completed c).

(** [Update]; [now] is what the clock reads during the call.  The result
    is the model the method returns, which the runtime goes on with.
    [None]: the method panics. *)
Definition Update (msg : Msg) (now : Z) (m : Model)
  : option (Model * option Cmd) :=
  match msg with
  | tickMsg _ => Some (m, Some (Tick (Second / 6)))
  | eventMsg msg =>
      if Type_ msg =? EvtStart then
        match active m !! Name msg with
        | None =>
            let active :=
              <[Name msg := mkActive (Name msg) (Instance msg) now (URL msg)]>
                (active m) in
            Some (mkModel (total m) active (logs m) (maxLog m)
                    (withRunning (counts m) (Z.of_nat (size active))),
                  None)
        | Some _ => Some (m, None)
        end
      else if Type_ msg =? EvtDone then
        match active m !! Name msg with
        | Some it =>
            let active := delete (Name msg) (active m) in
            let li := mkLog (Name msg) (instance it) (Status msg)
                        (Error_ msg) (now - start it) in
            match lastLogs (maxLog m) (logs m ++ [li]) with
            | None => None
            | Some logs =>
                Some (mkModel (total m) active logs (maxLog m)
                        (count (withRunning (counts m)
                                  (Z.of_nat (size active)))
                           (Status msg)),
                      None)
            end
        | None => Some (m, None)
        end
      else Some (m, None)
  | otherMsg => Some (m, None)
  end.

(** The model after the messages of a list, each with the reading of the
    clock at its [Update]. *)
Fixpoint updates (msgs : list (Msg * Z)) (m : Model) : option Model :=
  match msgs with
  | [] => Some m
  | (msg, now) :: msgs =>
      match Update msg now m with
      | None => None
      | Some (m, _) => updates msgs m
      end
  end.

End ui.

(** ** The task loop of main (src/unnamed/part_000, the first file) *)

Module main.

Record Flags : Type := mkFlags {
  concurrency : Z;
  timeoutSec : Z;
  sbPort : Z;
  limit : Z
}.

(** What the tasks share: the result slice, the file system and the
    standard output. *)
Record RunState : Type := mkRun {
  results : list report.CaseResult;
  fs : os.FileSystem;
  stdout : list string
}.

(** [results[i] = r]; [None] is the panic of an index out of range. *)
Definition store (i : nat) (r : report.CaseResult) (st : RunState)
  : option RunState :=
  if (i <? length (results st))%nat
  then Some (mkRun (<[i := r]> (results st)) (fs st) (stdout st))
  else None.

Definition println (line : string) (st : RunState) : RunState :=
  mkRun (results st) (fs st) (stdout st ++ [line]).

Section WithEnvironment.

Variable png_Decode : list Byte.byte -> option Image.
Variable png_Encode : Image -> option (list Byte.byte).
Variable Resize : Z -> Z -> Image -> diff.Interpolation -> Image.
Variable ImageHash : Type.
Variable PerceptionHash : Image -> option ImageHash.
Variable Distance : ImageHash -> ImageHash -> option Z.

(** [filepath.Join] of the Go library. *)
Variable filepath_Join : list string -> string.

(** What [snapshot.Capture] returns for a call: it depends on the page
    served at the URL. *)
Variable Capture :
  snapshot.Context -> browser.Instance -> string -> string -> Z -> Z ->
  list string -> list Byte.byte * option error.

(** The random number drawn by the [Pick] of task [i]. *)
Variable rnd : nat -> nat.

Variable flags : Flags.
Variable baseDir : string.
Variable cfg : config.OsnapBaseConfig.
Variable brs : browser.Instances.

Definition waitSelList : list string :=
  snapshot.ParseSelectors "#storybook-root, #root".

Definition filename (s : config.OsnapConfig) : string :=
  config.Name s +:+ "_" +:+ pretty (config.Width s) +:+ "x"
    +:+ pretty (config.Height s) +:+ ".png".

Definition diffPathOf (s : config.OsnapConfig) : string :=
  filepath_Join
    [baseDir; ".."; "__image-snapshots__"; "__diff__"; filename s].

Definition baselinePathOf (s : config.OsnapConfig) : string :=
  filepath_Join
    [baseDir; ".."; "__image-snapshots__"; "__base_images__"; filename s].

Definition urlOf (s : config.OsnapConfig) : string :=
  "http://127.0.0.1:" +:+ pretty (sbPort flags) +:+ config.URL s.

(** The function handed to [wp.Go] for case [s] at index [i]; [None] is
    a panic. *)
Definition task (i : nat) (s : config.OsnapConfig) (st : RunState)
  : option RunState :=
  match browser.Pick brs (rnd i) with
  | None => None
  | Some b =>
  let ctx := snapshot.mkContext
               (Some (Z.to_N (timeoutSec flags) * snapshot.Second)%N) in
  let diffPath := diffPathOf s in
  let baselinePath := baselinePathOf s in
  let url := urlOf s in
  let '(buf, err) :=
    Capture ctx b url diffPath (config.Width s) (config.Height s)
            waitSelList in
  match err with
  | Some e =>
      store i
        (report.mkCaseResult (config.Name s) (config.URL s) "error"
           (Error e) baselinePath diffPath None None) st
  | None =>
  let threshold :=
    match config.Threshold s with
    | Some t => t
    | None => config.BaseThreshold cfg
    end in
  let '(df, ph, err, fs') :=
    diff.CompareFiles png_Decode png_Encode Resize ImageHash
      PerceptionHash Distance (fs st) baselinePath buf diffPath
      (float64 threshold) 10 in
  let st := mkRun (results st) fs' (stdout st) in
  match err with
  | Some e =>
      store i
        (report.mkCaseResult (config.Name s) (config.URL s) "error"
           (Error e) baselinePath diffPath None None) st
  | None =>
  let status :=
    if os_IsNotExist err then "no-baseline"
    else if negb (diff.Pass df) then "fail"
    else "pass" in
  match
    store i
      (report.mkCaseResult (config.Name s) (config.URL s) status ""
         baselinePath diffPath (Some df) (Some ph)) st
  with
  | None => None
  | Some st =>
      Some (println ("[" +:+ pretty (Z.of_nat i + 1) +:+ "] "
                       +:+ config.Name s +:+ " - " +:+ status) st)
  end end end end.

(** The tasks take effect one after the other, in the order [order] of
    the indices of the submitted cases: the order in which they complete. *)
Fixpoint runTasks (cases : list config.OsnapConfig) (order : list nat)
    (st : RunState) : option RunState :=
  match order with
  | [] => Some st
  | i :: order =>
      match cases !! i with
      | None => None
      | Some s =>
          match task i s st with
          | None => None
          | Some st => runTasks cases order st
          end
      end
  end.

(** [configsToProcess] *)
Definition configsToProcess (configs : list config.OsnapConfig)
  : list config.OsnapConfig :=
  if (0 <? limit flags) && (limit flags <? Z.of_nat (length configs))
  then take (Z.to_nat (limit flags)) configs
  else configs.

(** From [results := make(...)] to the report, for the completion order
    [order]; [now] is the formatted time. *)
Definition run (configs : list config.OsnapConfig) (order : list nat)
    (fs0 : os.FileSystem) (now : string)
  : option (report.Report * RunState) :=
  let st :=
    mkRun (replicate (length configs) report.zeroCaseResult) fs0 [] in
  let todo := configsToProcess configs in
  let st :=
    if (0 <? limit flags) && (limit flags <? Z.of_nat (length configs))
    then println ("limiting to first " +:+ pretty (limit flags)
                    +:+ " stories") st
    else st in
  let st := println ("Processing " +:+ pretty (Z.of_nat (length todo))
                       +:+ " stories") st in
  match runTasks todo order st with
  | None => None
  | Some st =>
      let res := results st in
      Some (report.mkReport now
              (Z.of_nat (length res))
              (report.CountStatus res "pass")
              (report.CountStatus res "fail")
              (report.CountStatus res "no-baseline")
              (report.CountStatus res "error")
              res,
            st)
  end.

(** A completion order of the submitted cases: each index once. *)
Definition schedule (configs : list config.OsnapConfig)
    (order : list nat) : Prop :=
  Permutation order (seq 0 (length (configsToProcess configs))).

End WithEnvironment.

End main.

(** ** The vocabulary of the specification *)

Module diffspec.

(** The pixel positions of an image of [w] by [h] pixels, row by row. *)
Definition positions (w h : Z) : list (Z * Z) :=
  flat_map (fun y => map (fun x => (x, y)) (seqZ 0 w)) (seqZ 0 h).

(** Whether two images differ at a position, in any channel. *)
Definition differs (a b : Image) (p : Z * Z) : bool :=
  diff.mismatch (At a p.1 p.2) (At b p.1 p.2).

(** The number of pixels in which two images of [w] by [h] pixels differ. *)
Definition countMismatch (a b : Image) (w h : Z) : Z :=
  Z.of_nat (length (List.filter (differs a b) (positions w h))).

(** The candidate as the pixel comparison sees it: rescaled to the size of
    the baseline when the sizes differ. *)
Definition rescaled
    (Resize : Z -> Z -> Image -> diff.Interpolation -> Image)
    (a b : Image) : Image :=
  if negb (Dx (Bounds a) =? Dx (Bounds b))
     || negb (Dy (Bounds a) =? Dy (Bounds b))
  then Resize (uint (Dx (Bounds a))) (uint (Dy (Bounds a))) b
         diff.NearestNeighbor
  else b.

(** The diff image the specification describes: a copy of the baseline, as
    an RGBA image of the same size at the origin, with each mismatched
    pixel in the marker colour. *)
Definition markedCopy (a b : Image) (x y : Z) : Color :=
  let w := Dx (Bounds a) in
  let h := Dy (Bounds a) in
  if inside x y (Rect 0 0 w h) then
    if differs a b (x, y) then diff.magenta
    else RGBAModel (At a (X (Min (Bounds a)) + x) (Y (Min (Bounds a)) + y))
  else zeroColor.

(** The loop body of [pixelDiff] at a position. *)
Definition stepAt (a b : Image) (acc : Z * Image) (p : Z * Z) : Z * Image :=
  diff.pixelStep a b p.2 acc p.1.

(** The ratio of the specification, in the arithmetic of the program:
    the number [k] of differing pixels over [w * h], both converted to
    [float64] and divided there. *)
Definition ratioOf
    (Resize : Z -> Z -> Image -> diff.Interpolation -> Image)
    (a b : Image) : float :=
  let w := Dx (Bounds a) in
  let h := Dy (Bounds a) in
  (float64 (countMismatch a (rescaled Resize a b) w h)
   / float64 (w * h))%float.

End diffspec.


(** ** Binary64 in terms of integers *)

Module float64spec.

(** Whether rounding [z] to a multiple of [2^n] goes up: to nearest, ties
    to even. *)
Definition roundedUp (z n : Z) : bool :=
  let r := z mod 2 ^ n in
  (2 ^ n <? 2 * r) || ((2 * r =? 2 ^ n) && Z.odd (z / 2 ^ n)).

(** The mantissa of 53 bits and the exponent of the float nearest to a
    positive integer. *)
Definition normalForm (z : Z) : Z * Z :=
  let d := Zdigits2 z in
  if d <=? 53 then (z * 2 ^ (53 - d), d - 53)
  else
    let n := d - 53 in
    let m := z / 2 ^ n + Z.b2z (roundedUp z n) in
    if m =? 2 ^ 53 then (2 ^ 52, n + 1) else (m, n).

(** The order of positive floats with mantissas of 53 bits: by exponent,
    then by mantissa. *)
Definition lexle (x y : Z * Z) : Prop :=
  x.2 < y.2 \/ (x.2 = y.2 /\ x.1 <= y.1).

(** One, as a float. *)
Definition one_nf : Z * Z := (2 ^ 52, - 52).

(** The end of [binary_round_aux]: the rounded mantissa is brought back to
    53 bits. *)
Definition round_tail (s : bool) (m e : Z) : spec_float :=
  let '(mrs, e') := shr_fexp prec emax m e loc_Exact in
  match shr_m mrs with
  | Z0 => S754_zero s
  | Zpos m =>
      if e' <=? emax - prec then S754_finite s m e' else S754_infinity s
  | Zneg _ => S754_nan
  end.

End float64spec.

Module mainspec.

(** The four terminal statuses of a case. *)
Definition terminal : list string := ["pass"; "fail"; "no-baseline"; "error"].

(** The sum of the four counters of a report. *)
Definition counted (r : report.Report) : Z :=
report.Passed r + report.Failed r + report.NoBaseline r + report.Errored r.

Section WithEnvironment.

Variable png_Decode : list Byte.byte -> option Image.
Variable png_Encode : Image -> option (list Byte.byte).
Variable Resize : Z -> Z -> Image -> diff.Interpolation -> Image.
Variable ImageHash : Type.
Variable PerceptionHash : Image -> option ImageHash.
Variable Distance : ImageHash -> ImageHash -> option Z.
Variable filepath_Join : list string -> string.
Variable Capture :
  snapshot.Context -> browser.Instance -> string -> string -> Z -> Z ->
  list string -> list Byte.byte * option error.
Variable flags : main.Flags.
Variable baseDir : string.
Variable cfg : config.OsnapBaseConfig.

(** The threshold in force for a case. *)
Definition effectiveThreshold (s : config.OsnapConfig) : Z :=
match config.Threshold s with
| Some t => t
| None => config.BaseThreshold cfg
end.

(** What the task of a case does when it runs on instance [b] with the file
    system [fs]: the capture, and the comparison when the capture succeeded. *)
Definition captured (s : config.OsnapConfig) (b : browser.Instance)
  : list Byte.byte * option error :=
Capture
  (snapshot.mkContext
     (Some (Z.to_N (main.timeoutSec flags) * snapshot.Second)%N))
  b (main.urlOf flags s)
  (main.diffPathOf filepath_Join baseDir s)
  (config.Width s) (config.Height s) main.waitSelList.

Definition compared (s : config.OsnapConfig) (buf : list Byte.byte)
    (fs : os.FileSystem)
  : diff.PixelResult * diff.PHashResult * option error * os.FileSystem :=
diff.CompareFiles png_Decode png_Encode Resize ImageHash PerceptionHash
  Distance fs (main.baselinePathOf filepath_Join baseDir s) buf
  (main.diffPathOf filepath_Join baseDir s)
  (float64 (effectiveThreshold s)) 10.

Definition errorResult (s : config.OsnapConfig) (e : error)
  : report.CaseResult :=
report.mkCaseResult (config.Name s) (config.URL s) "error" (Error e)
  (main.baselinePathOf filepath_Join baseDir s)
  (main.diffPathOf filepath_Join baseDir s) None None.

(** The result the task of a case stores, and the file system it leaves. *)
Definition outcome (s : config.OsnapConfig) (b : browser.Instance)
    (fs : os.FileSystem) : report.CaseResult * os.FileSystem :=
match captured s b with
| (_, Some e) => (errorResult s e, fs)
| (buf, None) =>
    match compared s buf fs with
    | (_, _, Some e, fs') => (errorResult s e, fs')
    | (df, ph, None, fs') =>
        (report.mkCaseResult (config.Name s) (config.URL s)
           (if diff.Pass df then "pass" else "fail") ""
           (main.baselinePathOf filepath_Join baseDir s)
           (main.diffPathOf filepath_Join baseDir s) (Some df) (Some ph),
         fs')
    end
end.

(** What a slot of the result slice holds once the task of its index ran:
    the outcome of the case at that index, for the instance the task picked
    and the file system it found. *)
Definition filled (cases : list config.OsnapConfig) (i : nat)
    (r : report.CaseResult) : Prop :=
exists s b fs0, cases !! i = Some s /\ r = (outcome s b fs0).1.

End WithEnvironment.

End mainspec.

(** ** More vocabulary, for the properties read off the code *)

Module browserspec.
Import browser.

(** The [k]-th instance a call of [LaunchPool] launches from the state [w],
    numbered from [i]: it owns the two handles the launch allocates, the
    allocator and the browser context. *)
Definition launchedAt (w : World) (i : Z) (k : nat) : Instance :=
  mkInstance (Some (next w + 2 * k)%nat) (next w + 2 * k + 1)%nat
    (Some (next w + 2 * k + 1)%nat) (i + Z.of_nat k).

End browserspec.

Module runspec.

(** The instance the task of index [i] runs on: the one [Pick] returns for
    the random number the task draws. *)
Definition instanceOf (rnd : nat -> nat) (brs : browser.Instances)
    (i : nat) : browser.Instance :=
  default (browser.mkInstance None 0%nat None 0) (browser.Pick brs (rnd i)).

(** A well-formed entry of the report.  A case that passed or failed
    carries both comparison results and no error text, its pixel result
    agrees with its status, and the path of the diff image is reported
    exactly when it failed; a case that errored carries the text of an
    error and no comparison result; the zero value is what [make] put
    there. *)
Definition consistent (c : report.CaseResult) : Prop :=
  (report.Status c = "pass" /\ report.Error_ c = ""
   /\ exists df ph,
        report.PixelDiff c = Some df /\ report.PercepDiff c = Some ph
        /\ diff.Pass df = true /\ diff.DiffImagePath df = "")
  \/ (report.Status c = "fail" /\ report.Error_ c = ""
      /\ exists df ph,
           report.PixelDiff c = Some df /\ report.PercepDiff c = Some ph
           /\ diff.Pass df = false
           /\ diff.DiffImagePath df = report.OutPath c)
  \/ (report.Status c = "error"
      /\ report.PixelDiff c = None /\ report.PercepDiff c = None
      /\ exists e, report.Error_ c = Error e)
  \/ c = report.zeroCaseResult.

End runspec.

Module stringspec.

(** The characters of a string. *)
Definition chars (s : string) : list ascii := String.list_ascii_of_string s.

(** A string of ASCII characters: every byte is below 128.  On such
    strings the white space of [unicode.IsSpace] is that of
    [snapshot.isSpace]. *)
Definition asciiOnly (s : string) : bool :=
  forallb (fun c => (nat_of_ascii c <? 128)%nat) (chars s).

(** A string without white space at either end. *)
Definition trimmed (s : string) : Prop := snapshot.strings_TrimSpace s = s.

(** A string of white space only, the empty string included. *)
Definition blank (s : string) : bool := forallb snapshot.isSpace (chars s).

End stringspec.

Module configspec.
Import config.

(** The default size a size name selects: the first one of that name. *)
Definition named (cfg : OsnapBaseConfig) (s : string) : option Size :=
  List.find (fun ds => String.eqb s (SizeName ds)) (DefaultSizes cfg).

(** The sizes a case is tested in: the default sizes its size names
    select; else its own size or sizes; else every default size. *)
Definition sizesOf (cfg : OsnapBaseConfig) (c : Loaded) : list Size :=
  match Strings (Sizes_ c) with
  | _ :: _ => omap (named cfg) (Strings (Sizes_ c))
  | [] =>
      match One (Sizes_ c) with
      | Some one => [one]
      | None =>
          match Structs (Sizes_ c) with
          | _ :: _ => Structs (Sizes_ c)
          | [] => DefaultSizes cfg
          end
      end
  end.

(** The cases a case of a config file expands to: one copy per size. *)
Definition expansionOf (cfg : OsnapBaseConfig) (c : Loaded) : list Loaded :=
  map (fun s => withSize c (SWidth s) (SHeight s)) (sizesOf cfg c).

(** What the checks of the base configuration ask for. *)
Definition valid (c : OsnapBaseConfig) : Prop :=
  DefaultSizes c <> []
  /\ Forall (fun s => 0 < SWidth s /\ 0 < SHeight s) (DefaultSizes c)
  /\ 0 <= BaseThreshold c <= 100
  /\ 0 <= BaseRetry c
  /\ TestPattern c <> ""
  /\ SnapshotDirectory c <> ""
  /\ 0 <= R (DiffPixelColor_ c) <= 255
  /\ 0 <= G (DiffPixelColor_ c) <= 255
  /\ 0 <= B (DiffPixelColor_ c) <= 255.

(** A directory the walk does not enter: one named in [IgnorePatterns], or
    a hidden one. *)
Definition skipped (cfg : LoadedBase) (name : string) : bool :=
  existsb (String.eqb name) (IgnorePatterns cfg)
  || (String.prefix "." name && negb (String.eqb name ".")
      && negb (String.eqb name "..")).

(** What the walk comes across that counts: a config file, by its path, or
    a directory it entered and could not read in full, by its path and the
    error. *)
Inductive event : Type :=
| ConfigFile (path : string)
| Unreadable (path : string) (e : error).

(** The events of the walk of a tree, in its order: a directory that is
    skipped gives none, nor does a file that is not named [*.osnap.yaml]. *)
Fixpoint events (cfg : LoadedBase) (filepath_Join : list string -> string)
    (path : string) (t : filepath.Tree) : list event :=
  match t with
  | filepath.File name =>
      if strings_HasSuffix name ".osnap.yaml" then [ConfigFile path] else []
  | filepath.Dir name readErr entries =>
      if skipped cfg name then []
      else
        match readErr with
        | Some e => [Unreadable path e]
        | None => []
        end
        ++ (fix below (dirs : list filepath.Tree) : list event :=
              match dirs with
              | [] => []
              | d1 :: dirs =>
                  events cfg filepath_Join
                    (filepath_Join
                       [path; filepath.Name (filepath.entryOf d1)]) d1
                  ++ below dirs
              end) entries
  end.

(** The config files among the events. *)
Definition configFiles (evs : list event) : list string :=
  omap (fun ev => match ev with
                  | ConfigFile p => Some p
                  | Unreadable _ _ => None
                  end) evs.

End configspec.

Module uispec.

(** The counters of a model agree with what it holds: [running] is the
    number of active cases, the log holds the completed cases up to
    [maxLog] of them, and the four counters of the known statuses are
    counts that together do not exceed [completed]. *)
Definition wellCounted (m : ui.Model) : Prop :=
  let c := ui.counts m in
  ui.running c = Z.of_nat (size (ui.active m))
  /\ Z.of_nat (length (ui.logs m)) = Z.min (ui.completed c) (ui.maxLog m)
  /\ 0 <= ui.passed c /\ 0 <= ui.failed c
  /\ 0 <= ui.nobase c /\ 0 <= ui.errored c
  /\ ui.passed c + ui.failed c + ui.nobase c + ui.errored c
     <= ui.completed c.

(** Whether a message is the start event of a case. *)
Definition isStart (msg : ui.Msg * Z) : bool :=
  match msg.1 with
  | ui.eventMsg e => ui.Type_ e =? ui.EvtStart
  | _ => false
  end.

End uispec.

(** ** A small environment to run the model on

    A toy image codec, resampler and hash stand for the libraries where a
    statement is evaluated on concrete data. *)

Module fixture.

Definition gray (g : Z) : Color := color_RGBA g g g 255.

Definition byteZ (b : Byte.byte) : Z := Z.of_N (Byte.to_N b).

Definition zByte (z : Z) : Byte.byte :=
  default Byte.x00 (Byte.of_N (Z.to_N (z mod 256))).

(** The format: width, height, then one gray level per pixel, row by row. *)
Definition png_Decode (data : list Byte.byte) : option Image :=
  match data with
  | bw :: bh :: px =>
      let w := byteZ bw in
      let h := byteZ bh in
      if (0 <? w) && (0 <? h) && (Z.of_nat (length px) =? w * h) then
        Some (mkImage (Rect 0 0 w h)
                (fun x y =>
                   if inside x y (Rect 0 0 w h)
                   then gray (byteZ (nth (Z.to_nat (y * w + x)) px Byte.x00))
                   else zeroColor))
      else None
  | _ => None
  end.

Definition png_Encode (img : Image) : option (list Byte.byte) :=
  let r := Bounds img in
  let w := Dx r in
  let h := Dy r in
  if (0 <? w) && (w <? 256) && (0 <? h) && (h <? 256) then
    Some (zByte w :: zByte h ::
          flat_map
            (fun y =>
               map (fun x =>
                      zByte (Z.shiftr
                               (cR (At img (X (Min r) + x) (Y (Min r) + y)))
                               8))
                   (seqZ 0 w))
            (seqZ 0 h))
  else None.

(** Nearest neighbour; a zero dimension leaves the image as it is. *)
Definition Resize (w h : Z) (img : Image) (_ : diff.Interpolation) : Image :=
  let r := Bounds img in
  if (w =? 0) || (h =? 0) || (Dx r <=? 0) || (Dy r <=? 0) then img
  else
    mkImage (Rect 0 0 w h)
      (fun x y =>
         if inside x y (Rect 0 0 w h)
         then At img (X (Min r) + x * Dx r / w) (Y (Min r) + y * Dy r / h)
         else zeroColor).

Definition ImageHash : Type := Z.

Definition PerceptionHash (img : Image) : option ImageHash :=
  Some (Z.shiftr (cR (At img (X (Min (Bounds img))) (Y (Min (Bounds img)))))
                 15).

Definition Distance (a b : ImageHash) : option Z := Some (Z.abs (a - b)).

Definition filepath_Join (parts : list string) : string :=
  String.concat "/" parts.

Definition bytes (l : list Z) : list Byte.byte := map zByte l.

(** Two images of two pixels by one: black and white, and black twice. *)
Definition blackWhite : list Byte.byte := bytes [2; 1; 0; 255].
Definition blackBlack : list Byte.byte := bytes [2; 1; 0; 0].

(** The image a file decodes to. *)
Definition imageOf (data : list Byte.byte) : Image :=
  default (NewRGBA (Rect 0 0 0 0)) (png_Decode data).

Definition CompareFiles :=
  diff.CompareFiles png_Decode png_Encode Resize ImageHash PerceptionHash
    Distance.

Definition instance0 : browser.Instance :=
  browser.mkInstance (Some 0%nat) 1%nat (Some 1%nat) 0.

Definition base : config.OsnapBaseConfig :=
  config.mkBase 0 0 "snaps" "**/*.osnap.yaml" [config.mkSize "s" 2 1]
    (config.mkDPC 255 0 255).

Definition story (name : string) : config.OsnapConfig :=
  config.mkCase name ("/" +:+ name) None 0 2 1.

(** A case with its own threshold. *)
Definition storyWithThreshold (name : string) (t : Z) : config.OsnapConfig :=
  config.mkCase name ("/" +:+ name) (Some t) 0 2 1.

(** A page on which every selector is ready after five milliseconds and
    whose screenshot is the black and white image; the context of the
    instance stays open. *)
Definition readyPage : snapshot.Page :=
  snapshot.mkPage
    (fun _ _ => None)
    (fun _ => None)
    (fun _ _ => Some (5 * snapshot.Millisecond)%N)
    None
    (fun _ => 0%N)
    (fun _ => (blackWhite, None)).

(** Every URL serves that page, on which a capture returns. *)
Definition Capture (ctx : snapshot.Context) (inst : browser.Instance)
    (url outPath : string) (vw vh : Z) (waitSelectors : list string)
  : list Byte.byte * option error :=
  match snapshot.Capture snapshot.enoughRounds readyPage 0 ctx inst url
          outPath vw vh waitSelectors with
  | Some (snapshot.Returns r _) => r
  | _ => ([], Some ErrSelectorTimeout)
  end.

Definition task (flags : main.Flags) :=
  main.task png_Decode png_Encode Resize ImageHash PerceptionHash Distance
    filepath_Join Capture (fun _ => 0%nat) flags "proj" base [instance0].

Definition run (flags : main.Flags) :=
  main.run png_Decode png_Encode Resize ImageHash PerceptionHash Distance
    filepath_Join Capture (fun _ => 0%nat) flags "proj" base [instance0].

Definition baselinePathOf :=
  main.baselinePathOf filepath_Join "proj".
Definition diffPathOf := main.diffPathOf filepath_Join "proj".

Definition noLimit : main.Flags := main.mkFlags 10 30 3000 0.
Definition limitOne : main.Flags := main.mkFlags 10 30 3000 1.

(** A file system with the given files, where every file can be created,
    and one where none can. *)
Definition disk (l : list (string * list Byte.byte)) : os.FileSystem :=
  os.mkFS (list_to_map l) (fun _ => true).
Definition readOnlyDisk (l : list (string * list Byte.byte))
  : os.FileSystem :=
  os.mkFS (list_to_map l) (fun _ => false).

(** A page whose document is ready at once and on which no other selector
    ever is. *)
Definition blankPage : snapshot.Page :=
  snapshot.mkPage
    (fun _ _ => None)
    (fun _ => None)
    (fun sel _ => if String.eqb sel "body" then Some 0%N else None)
    None
    (fun _ => 0%N)
    (fun _ => (blackWhite, None)).

(** A page of an older Storybook: the document and [#root] are ready at
    once, and there is no [#storybook-root]. *)
Definition rootPage : snapshot.Page :=
  snapshot.mkPage
    (fun _ _ => None)
    (fun _ => None)
    (fun sel _ =>
       if String.eqb sel "#storybook-root" then None else Some 0%N)
    None
    (fun _ => 0%N)
    (fun _ => (blackWhite, None)).

(** A slow page: the document is ready at once, the selectors after an
    hour. *)
Definition slowPage : snapshot.Page :=
  snapshot.mkPage
    (fun _ _ => None)
    (fun _ => None)
    (fun sel _ =>
       if String.eqb sel "body" then Some 0%N
       else Some (3600 * snapshot.Second)%N)
    None
    (fun _ => 0%N)
    (fun _ => (blackWhite, None)).

(** A machine on which the third browser fails to start, and the state
    before any launch. *)
Definition thirdFails (k : nat) : option error :=
  if (k =? 2)%nat then Some (ErrBrowser "chrome failed to start") else None.

Definition noBrowser : browser.World := browser.mkWorld ∅ 0%nat 0%nat.

(** A host for the loader: the home directory, paths that are absolute
    and clean as they are, and a decoder for which each byte of a file is
    one document: a list of one case named by the byte, or, for the byte
    zero, a document that does not decode. *)
Definition UserHomeDir : string * option error := ("/home/u", None).
Definition filepath_Abs (path : string) : string * option error :=
  (path, None).
Definition filepath_Clean (path : string) : string := path.
Definition strconv_Quote (s : string) : string := "'" +:+ s +:+ "'".

Definition Decoder : Type := list Byte.byte.
Definition NewDecoder (f : list Byte.byte) : Decoder := f.

Definition loaded (name : string) (sizes : config.Sizes) : config.Loaded :=
  config.mkLoaded (config.mkCase name ("/" +:+ name) None 0 0 0) sizes [].

Definition Decode_configs (dec : Decoder)
  : tools.decoded (list (option config.Loaded)) * Decoder :=
  match dec with
  | [] => (tools.EOF, [])
  | b :: rest =>
      if byteZ b =? 0 then (tools.Failed (ErrConfig "yaml: bad document"), rest)
      else (tools.Value [Some (loaded (pretty (byteZ b)) config.zeroSizes)],
            rest)
  end.

Definition Decode_base (dec : Decoder)
  : tools.decoded config.LoadedBase * Decoder :=
  match dec with
  | [] => (tools.EOF, [])
  | b :: rest =>
      if byteZ b =? 0 then (tools.Failed (ErrConfig "yaml: bad document"), rest)
      else (tools.Value (config.mkLoadedBase base "" false ["node_modules"]),
            rest)
  end.

Definition Decode_any (dec : Decoder) : tools.decoded unit * Decoder :=
  match dec with
  | [] => (tools.EOF, [])
  | b :: rest =>
      if byteZ b =? 0 then (tools.Failed (ErrConfig "yaml: bad document"), rest)
      else (tools.Value tt, rest)
  end.

Definition loadedBase : config.LoadedBase :=
  config.mkLoadedBase base "" false ["node_modules"].

Definition NewOsnapConfig :=
  config.NewOsnapConfig Decoder NewDecoder Decode_configs Decode_any.

Definition FindAndParseConfigs :=
  config.FindAndParseConfigs UserHomeDir filepath_Join filepath_Abs
    filepath_Clean strconv_Quote Decoder NewDecoder Decode_configs
    Decode_any.

(** A project: a config file of one case, one that does not decode, a
    file that is no config file, and config files below a hidden directory
    and below an ignored one. *)
Definition project : filepath.Tree :=
  filepath.Dir "proj" None
    [filepath.Dir ".git" None [filepath.File "x.osnap.yaml"];
     filepath.File "a.osnap.yaml";
     filepath.File "b.osnap.yaml";
     filepath.Dir "node_modules" None [filepath.File "y.osnap.yaml"];
     filepath.File "notes.txt"].

Definition projectDisk : os.FileSystem :=
  disk [("proj/a.osnap.yaml", bytes [7]);
        ("proj/b.osnap.yaml", bytes [0]);
        ("proj/.git/x.osnap.yaml", bytes [8]);
        ("proj/node_modules/y.osnap.yaml", bytes [9])].

(** A host for package storybook: its clock, whether the build directory
    is there, and the number of requests the server has seen.  The build
    command is [npm], which creates the directory; the server answers from
    its third request on. *)
Record Host : Type := mkHost {
  clock : Z;
  built : bool;
  requests : nat
}.

Definition isDir (h : Host) (path : string) : bool :=
  built h && String.eqb path "storybook-static".

Definition cmd_Run (bin : string) (args : list string) (dir : string)
    (h : Host) : Host * option error :=
  if String.eqb bin "npm" then (mkHost (clock h) true (requests h), None)
  else (h, Some (ErrNotExist bin)).

Definition time_Now (h : Host) : Z := clock h.

Definition time_Sleep (d : Z) (h : Host) : Host :=
  mkHost (clock h + d) (built h) (requests h).

Definition client_Get (url : string) (h : Host)
  : (storybook.Response + error) * Host :=
  (if (2 <=? requests h)%nat then inl (storybook.mkResponse 200)
   else inl (storybook.mkResponse 503),
   mkHost (clock h + 1000000) (built h) (S (requests h))).

Definition host0 : Host := mkHost 0 false 0.

(** Events of the progress view. *)
Definition started (name : string) (inst : Z) : ui.Msg :=
  ui.eventMsg (ui.mkEvent ui.EvtStart name ("/" +:+ name) inst "" "").
Definition done (name : string) (inst : Z) (status : string) : ui.Msg :=
  ui.eventMsg (ui.mkEvent ui.EvtDone name ("/" +:+ name) inst status "").

End fixture.
(** * Properties *)

(** ** Facts about binary64 *)

Module float_facts.
Import float64spec.


Lemma Prim2SF_zero : Prim2SF 0%float = S754_zero false.
Proof. reflexivity. Qed.

Lemma Prim2SF_infinity : Prim2SF infinity = S754_infinity false.
Proof. reflexivity. Qed.

Lemma is_nan_spec (x : float) :
  is_nan x = match Prim2SF x with S754_nan => true | _ => false end.
Proof.
  unfold is_nan. rewrite FloatAxioms.eqb_spec. unfold SFeqb, SFcompare.
  destruct (Prim2SF x) as [[]|[]| |[] m e]; try done.
  all: by rewrite Z.compare_refl, Pos.compare_cont_refl.
Qed.

(** The clamp [math.Max(0, t)] is not negative, unless [t] is not a
    number. *)
Lemma math_Max_nonneg (t : float) :
  is_nan t = false -> (0 <=? math_Max 0 t)%float = true.
Proof.
  intros Hnan. unfold math_Max.
  destruct ((0 =? infinity)%float || (t =? infinity)%float); [done|].
  rewrite Hnan. change (is_nan 0) with false. cbn [orb].
  change (0 =? 0)%float with true. cbn [andb].
  change (get_sign 0) with false.
  destruct (0 =? t)%float; [done|].
  destruct (t <? 0)%float eqn:Hlt; [done|].
  rewrite is_nan_spec in Hnan.
  rewrite FloatAxioms.ltb_spec in Hlt. rewrite FloatAxioms.leb_spec.
  rewrite Prim2SF_zero in *.
  unfold SFltb, SFleb, SFcompare in *.
  by destruct (Prim2SF t) as [s|[]| |[] m e].
Qed.

(** *** Digits *)

Lemma digits2_size (p : positive) : digits2_pos p = Pos.size p.
Proof. induction p as [p IH|p IH|]; cbn; by rewrite ?IH. Qed.

(** A positive number of [d] binary digits lies between [2^(d-1)] and
    [2^d]. *)
Lemma digits_bounds (p : positive) :
  2 ^ (Z.pos (digits2_pos p) - 1) <= Z.pos p < 2 ^ Z.pos (digits2_pos p).
Proof.
  rewrite digits2_size.
  pose proof (Pos.size_gt p) as Hgt. pose proof (Pos.size_le p) as Hle.
  apply Pos2Z.pos_lt_pos in Hgt. apply Pos2Z.pos_le_pos in Hle.
  rewrite Pos2Z.inj_pow in Hgt, Hle.
  change (Z.pos p~0) with (2 * Z.pos p) in Hle.
  assert (Hpow : 2 ^ Z.pos (Pos.size p) = 2 * 2 ^ (Z.pos (Pos.size p) - 1)).
  { rewrite <- Z.pow_succ_r by lia. f_equal. lia. }
  lia.
Qed.

Lemma digits_unique (p : positive) (d : Z) :
  2 ^ (d - 1) <= Z.pos p < 2 ^ d -> Z.pos (digits2_pos p) = d.
Proof.
  intros [Hlo Hhi]. pose proof (digits_bounds p) as [Hlo' Hhi'].
  assert (Hd : 0 < d).
  { destruct (Z.lt_trichotomy d 0) as [Hneg|[->|Hpos]]; [|cbn in Hhi; lia|done].
    rewrite Z.pow_neg_r in Hhi by lia. lia. }
  assert (H1 : d - 1 < Z.pos (digits2_pos p)).
  { apply (Z.pow_lt_mono_r_iff 2); lia. }
  assert (H2 : Z.pos (digits2_pos p) - 1 < d).
  { apply (Z.pow_lt_mono_r_iff 2); lia. }
  lia.
Qed.

(** *** Shifting right with a round bit and a sticky bit *)

Lemma iter_pos_nat {A : Type} (f : A -> A) (p : positive) (x : A) :
  SpecFloat.iter_pos f p x = Nat.iter (Pos.to_nat p) f x.
Proof.
  revert x. induction p as [p IH|p IH|]; intros x; cbn [SpecFloat.iter_pos].
  - rewrite !IH, Pos2Nat.inj_xI.
    replace (S (2 * Pos.to_nat p)) with (Pos.to_nat p + (Pos.to_nat p + 1))%nat
      by lia.
    rewrite !Nat.iter_add. by cbn.
  - rewrite !IH, Pos2Nat.inj_xO.
    replace (2 * Pos.to_nat p)%nat with (Pos.to_nat p + Pos.to_nat p)%nat
      by lia.
    by rewrite Nat.iter_add.
  - done.
Qed.

Lemma shr_1_spec (m : Z) (r s : bool) :
  0 <= m ->
  shr_1 (Build_shr_record m r s)
  = Build_shr_record (m / 2) (Z.odd m) (r || s).
Proof.
  intros Hm. unfold shr_1.
  destruct m as [|[p|p|]|p]; try lia; cbn [Z.odd].
  - done.
  - f_equal. rewrite Pos2Z.inj_xI, (Z.mul_comm 2), Z.div_add_l by lia.
    change (1 / 2) with 0. lia.
  - f_equal. by rewrite Pos2Z.inj_xO, (Z.mul_comm 2), Z.div_mul by lia.
  - done.
Qed.

(** After [n] shifts of [z]: the quotient by [2^n], the bit below it, and
    whether any lower bit is set. *)
Lemma shr_iter (n : nat) (z : Z) :
  0 <= z ->
  Nat.iter (S n) shr_1 (Build_shr_record z false false)
  = Build_shr_record (z / 2 ^ Z.of_nat (S n)) (Z.testbit z (Z.of_nat n))
      (negb (z mod 2 ^ Z.of_nat n =? 0)).
Proof.
  intros Hz. induction n as [|n IH].
  - cbn [Nat.iter]. rewrite shr_1_spec by done.
    change (2 ^ Z.of_nat 1) with 2. change (2 ^ Z.of_nat 0) with 1.
    rewrite Z.mod_1_r. cbn [Z.of_nat]. by rewrite Z.bit0_odd.
  - change (Nat.iter (S (S n)) shr_1 ?x) with (shr_1 (Nat.iter (S n) shr_1 x)).
    rewrite IH, shr_1_spec by (apply Z.div_pos; lia).
    f_equal.
    + rewrite Z.div_div by lia. f_equal.
      rewrite (Nat2Z.inj_succ (S n)), Z.pow_succ_r by lia. lia.
    + rewrite Z.testbit_odd, Z.shiftr_div_pow2 by lia. done.
    + assert (Hsplit : z mod 2 ^ Z.of_nat (S n)
                       = z mod 2 ^ Z.of_nat n
                         + 2 ^ Z.of_nat n * Z.b2z (Z.testbit z (Z.of_nat n))).
      { replace (2 ^ Z.of_nat (S n)) with (2 ^ Z.of_nat n * 2).
        2:{ rewrite Nat2Z.inj_succ, Z.pow_succ_r by lia. lia. }
        rewrite Z.rem_mul_r by lia. f_equal. f_equal.
        rewrite Z.testbit_spec' by lia. done. }
      rewrite Hsplit.
      pose proof (Z.mod_pos_bound z (2 ^ Z.of_nat n)) as Hb.
      assert (0 < 2 ^ Z.of_nat n) by lia.
      destruct (Z.testbit z (Z.of_nat n)); cbn [Z.b2z orb].
      * symmetry. apply negb_true_iff, Z.eqb_neq. lia.
      * by rewrite Z.mul_0_r, Z.add_0_r.
Qed.

(** *** Rounding a mantissa *)

Lemma Zdigits2_unique (m d : Z) :
  0 < m -> 2 ^ (d - 1) <= m < 2 ^ d -> Zdigits2 m = d.
Proof.
  intros Hm Hd. destruct m as [|p|p]; try lia.
  cbn [Zdigits2]. by apply digits_unique.
Qed.

Lemma Zdigits2_bounds (m : Z) :
  0 < m -> 2 ^ (Zdigits2 m - 1) <= m < 2 ^ Zdigits2 m.
Proof.
  intros Hm. destruct m as [|p|p]; try lia. apply digits_bounds.
Qed.

Lemma Zdigits2_pos (m : Z) : 0 < m -> 0 < Zdigits2 m.
Proof. intros Hm. destruct m as [|p|p]; try lia. cbn. lia. Qed.

Lemma fexp_normal (e : Z) : - 1021 <= e -> fexp prec emax e = e - 53.
Proof. intros He. unfold fexp, emin, prec, emax. lia. Qed.

Lemma binary_round_aux_tail (s : bool) (mx ex : Z) (lx : location) :
  binary_round_aux prec emax s mx ex lx
  = round_tail s
      (round_nearest_even (shr_m (shr_fexp prec emax mx ex lx).1)
         (loc_of_shr_record (shr_fexp prec emax mx ex lx).1))
      (shr_fexp prec emax mx ex lx).2.
Proof.
  unfold binary_round_aux, round_tail.
  by destruct (shr_fexp prec emax mx ex lx).
Qed.

(** A rounded mantissa between [2^52] and [2^53] is kept, except [2^53]
    itself, which becomes [2^52] with the next exponent. *)
Lemma round_tail_spec (s : bool) (m e : Z) :
  2 ^ 52 <= m <= 2 ^ 53 -> - 1074 <= e <= 970 ->
  round_tail s m e
  = if m =? 2 ^ 53 then S754_finite s (Z.to_pos (2 ^ 52)) (e + 1)
    else S754_finite s (Z.to_pos m) e.
Proof.
  intros Hm He. unfold round_tail, shr_fexp.
  destruct (Z.eqb_spec m (2 ^ 53)) as [->|Hne].
  - change (Zdigits2 (2 ^ 53)) with 54.
    rewrite fexp_normal by lia.
    replace (54 + e - 53 - e) with 1 by lia.
    cbn [shr shr_record_of_loc SpecFloat.iter_pos].
    rewrite shr_1_spec by lia. cbn [shr_m].
    change (2 ^ 53 / 2) with (2 ^ 52).
    change (2 ^ 52) with (Z.pos (Z.to_pos (2 ^ 52))) at 1.
    cbn iota. unfold emax, prec.
    destruct (Z.leb_spec (e + 1) (1024 - 53)); [done|lia].
  - rewrite (Zdigits2_unique m 53) by lia.
    rewrite fexp_normal by lia.
    replace (53 + e - 53 - e) with 0 by lia.
    cbn [shr shr_record_of_loc shr_m].
    destruct m as [|p|p]; try lia. cbn iota. unfold emax, prec.
    destruct (Z.leb_spec e (1024 - 53)); [|lia].
    by rewrite Pos2Z.id.
Qed.

Lemma round_nearest_even_cases (m : Z) (l : location) :
  round_nearest_even m l = m \/ round_nearest_even m l = m + 1.
Proof.
  unfold round_nearest_even.
  destruct l as [|[]]; auto. destruct (Z.even m); auto.
Qed.

Lemma shr_record_of_loc_m (m : Z) (l : location) :
  shr_m (shr_record_of_loc m l) = m.
Proof. by destruct l as [|[]]. Qed.

Lemma loc_of_shr_record_of_loc (m : Z) (l : location) :
  loc_of_shr_record (shr_record_of_loc m l) = l.
Proof. by destruct l as [|[]]. Qed.

Lemma mod_pow2_split (z : Z) (k : nat) :
  z mod 2 ^ Z.of_nat (S k)
  = z mod 2 ^ Z.of_nat k + 2 ^ Z.of_nat k * Z.b2z (Z.testbit z (Z.of_nat k)).
Proof.
  replace (2 ^ Z.of_nat (S k)) with (2 ^ Z.of_nat k * 2).
  2:{ rewrite Nat2Z.inj_succ, Z.pow_succ_r by lia. lia. }
  rewrite Z.rem_mul_r by lia. f_equal. f_equal.
  by rewrite Z.testbit_spec' by lia.
Qed.

(** Rounding to nearest even with the round bit and the sticky bit is
    rounding by the remainder. *)
Lemma round_record_spec (m : Z) (k : nat) :
  0 <= m ->
  round_nearest_even (m / 2 ^ Z.of_nat (S k))
    (loc_of_shr_record
       (Build_shr_record (m / 2 ^ Z.of_nat (S k)) (Z.testbit m (Z.of_nat k))
          (negb (m mod 2 ^ Z.of_nat k =? 0))))
  = m / 2 ^ Z.of_nat (S k) + Z.b2z (roundedUp m (Z.of_nat (S k))).
Proof.
  intros Hm. unfold roundedUp. cbn zeta.
  set (q := m / 2 ^ Z.of_nat (S k)).
  rewrite mod_pow2_split.
  assert (Hpow : 2 ^ Z.of_nat (S k) = 2 * 2 ^ Z.of_nat k).
  { rewrite Nat2Z.inj_succ, Z.pow_succ_r by lia. lia. }
  rewrite Hpow.
  pose proof (Z.mod_pos_bound m (2 ^ Z.of_nat k)) as Hb.
  assert (Hp : 0 < 2 ^ Z.of_nat k) by lia. specialize (Hb Hp).
  set (lo := m mod 2 ^ Z.of_nat k) in *.
  change (IntDef.Z.even) with Z.even.
  destruct (Z.testbit m (Z.of_nat k)); cbn [Z.b2z].
  - destruct (Z.eqb_spec lo 0) as [H0|H0]; cbn [negb loc_of_shr_record].
    + rewrite H0. cbn [round_nearest_even].
      destruct (Z.ltb_spec (2 * 2 ^ Z.of_nat k)
                  (2 * (0 + 2 ^ Z.of_nat k * 1))); [lia|].
      destruct (Z.eqb_spec (2 * (0 + 2 ^ Z.of_nat k * 1))
                  (2 * 2 ^ Z.of_nat k)); [|lia].
      cbn [orb andb]. rewrite <- Z.negb_even.
      destruct (Z.even q); cbn; lia.
    + cbn [round_nearest_even].
      destruct (Z.ltb_spec (2 * 2 ^ Z.of_nat k)
                  (2 * (lo + 2 ^ Z.of_nat k * 1))); [|lia].
      cbn. lia.
  - assert (Hno : (2 * 2 ^ Z.of_nat k <? 2 * (lo + 2 ^ Z.of_nat k * 0))
                  || (2 * (lo + 2 ^ Z.of_nat k * 0) =? 2 * 2 ^ Z.of_nat k)
                     && Z.odd q = false).
    { destruct (Z.ltb_spec (2 * 2 ^ Z.of_nat k)
                  (2 * (lo + 2 ^ Z.of_nat k * 0))); [lia|].
      destruct (Z.eqb_spec (2 * (lo + 2 ^ Z.of_nat k * 0))
                  (2 * 2 ^ Z.of_nat k)); [lia|]. done. }
    rewrite Hno. cbn [Z.b2z]. rewrite Z.add_0_r.
    by destruct (negb (lo =? 0)).
Qed.

(** A mantissa of 53 bits with nothing to round is kept. *)
Lemma round_aux_53 (s : bool) (m e : Z) :
  2 ^ 52 <= m < 2 ^ 53 -> - 1074 <= e <= 970 ->
  binary_round_aux prec emax s m e loc_Exact
  = S754_finite s (Z.to_pos m) e.
Proof.
  intros Hm He. rewrite binary_round_aux_tail. unfold shr_fexp.
  rewrite (Zdigits2_unique m 53) by lia.
  rewrite fexp_normal by lia.
  replace (53 + e - 53 - e) with 0 by lia.
  cbn [shr shr_record_of_loc shr_m fst snd loc_of_shr_record
       round_nearest_even].
  rewrite round_tail_spec by lia.
  destruct (Z.eqb_spec m (2 ^ 53)); [lia|done].
Qed.

(** A longer mantissa with nothing yet rounded: the bits beyond 53 are
    rounded away. *)
Lemma round_aux_exact (m e : Z) :
  let n := Zdigits2 m - 53 in
  let m1 := m / 2 ^ n + Z.b2z (roundedUp m n) in
  0 < m -> 0 < n -> - 1074 <= e -> e + n <= 970 ->
  2 ^ 52 <= m1 <= 2 ^ 53
  /\ binary_round_aux prec emax false m e loc_Exact
     = if m1 =? 2 ^ 53
       then S754_finite false (Z.to_pos (2 ^ 52)) (e + n + 1)
       else S754_finite false (Z.to_pos m1) (e + n).
Proof.
  intros n m1 Hm Hn He Hen.
  pose proof (Zdigits2_bounds m Hm) as Hd.
  assert (Hq : 2 ^ 52 <= m / 2 ^ n < 2 ^ 53).
  { replace (Zdigits2 m) with (53 + n) in Hd by (unfold n; lia).
    replace (53 + n - 1) with (52 + n) in Hd by lia.
    rewrite !Z.pow_add_r in Hd by lia.
    assert (0 < 2 ^ n) by lia.
    split.
    - apply Z.div_le_lower_bound; lia.
    - apply Z.div_lt_upper_bound; lia. }
  assert (Hm1 : 2 ^ 52 <= m1 <= 2 ^ 53).
  { unfold m1. destruct (roundedUp m n); cbn [Z.b2z]; lia. }
  split; [done|].
  rewrite binary_round_aux_tail. unfold shr_fexp.
  rewrite fexp_normal by lia.
  replace (Zdigits2 m + e - 53 - e) with n by (unfold n; lia).
  destruct n as [|pn|pn] eqn:Hpn; try lia.
  cbn [shr shr_record_of_loc fst snd].
  rewrite iter_pos_nat.
  destruct (Pos.to_nat pn) as [|k] eqn:Hk; [lia|].
  rewrite shr_iter by lia. cbn [shr_m].
  assert (Hkn : Z.of_nat (S k) = Z.pos pn) by lia.
  rewrite round_record_spec by lia. rewrite Hkn.
  fold m1. by rewrite round_tail_spec by lia.
Qed.

Lemma Pos_iter_xO (p k : positive) :
  Z.pos (Pos.iter xO p k) = Z.pos p * 2 ^ Z.pos k.
Proof.
  rewrite (Pos.iter_swap_gen _ _ Z.pos xO (Z.mul 2)) by done.
  change (Pos.iter (Z.mul 2) (Z.pos p) k) with (Z.shiftl (Z.pos p) (Z.pos k)).
  by rewrite Z.shiftl_mul_pow2 by lia.
Qed.

(** The float of a positive integer below [2^63]. *)
Lemma normalize_spec (z : Z) :
  0 < z < 2 ^ 63 ->
  binary_normalize prec emax z 0 false
  = S754_finite false (Z.to_pos (normalForm z).1) (normalForm z).2.
Proof.
  intros Hz. destruct z as [|p|p]; try lia.
  pose proof (digits_bounds p) as Hd.
  assert (Hd63 : Z.pos (digits2_pos p) <= 63).
  { destruct (Z.le_gt_cases (Z.pos (digits2_pos p)) 63) as [|Hgt]; [done|].
    assert (2 ^ 63 <= 2 ^ (Z.pos (digits2_pos p) - 1)).
    { apply Z.pow_le_mono_r; lia. }
    lia. }
  unfold binary_normalize, binary_round, normalForm.
  cbn [Zdigits2]. set (d := Z.pos (digits2_pos p)) in *.
  rewrite fexp_normal by lia.
  unfold shl_align.
  destruct (Z.leb_spec d 53) as [Hle|Hgt].
  - assert (Hshift :
      (match d + 0 - 53 - 0 with
       | Z.neg k => (Pos.iter xO p k, d + 0 - 53)
       | _ => (p, 0)
       end).2 = d - 53
      /\ Z.pos (match d + 0 - 53 - 0 with
                | Z.neg k => (Pos.iter xO p k, d + 0 - 53)
                | _ => (p, 0)
                end).1 = Z.pos p * 2 ^ (53 - d)).
    { destruct (d + 0 - 53 - 0) as [|k|k] eqn:Hk; cbn [fst snd]; try lia.
      - replace (53 - d) with 0 by lia. lia.
      - rewrite Pos_iter_xO. split; [lia|]. do 2 f_equal. lia. }
    destruct (match d + 0 - 53 - 0 with
              | Z.neg k => (Pos.iter xO p k, d + 0 - 53)
              | _ => (p, 0)
              end) as [mz ez].
    cbn [fst snd] in Hshift. destruct Hshift as [-> Hmz].
    cbn [fst snd].
    assert (Hrange : 2 ^ 52 <= Z.pos mz < 2 ^ 53).
    { rewrite Hmz.
      replace (2 ^ 52) with (2 ^ (d - 1) * 2 ^ (53 - d)).
      2:{ rewrite <- Z.pow_add_r by lia. f_equal. lia. }
      replace (2 ^ 53) with (2 ^ d * 2 ^ (53 - d)).
      2:{ rewrite <- Z.pow_add_r by lia. f_equal. lia. }
      assert (0 < 2 ^ (53 - d)) by (apply Z.pow_pos_nonneg; lia).
      nia. }
    rewrite round_aux_53 by lia. by rewrite Hmz.
  - replace (d + 0 - 53 - 0) with (d - 53) by lia.
    destruct (d - 53) as [|k|k] eqn:Hk; try lia.
    pose proof (round_aux_exact (Z.pos p) 0) as Haux.
    cbn [Zdigits2] in Haux. fold d in Haux. rewrite Hk in Haux.
    destruct Haux as [_ Haux]; try lia.
    rewrite Haux.
    by destruct (_ =? _).
Qed.

(** *** The float of an integer grows with the integer *)

Lemma Zdigits2_mono (k t : Z) : 0 < k <= t -> Zdigits2 k <= Zdigits2 t.
Proof.
  intros Hkt.
  pose proof (Zdigits2_bounds k) as Hk. pose proof (Zdigits2_bounds t) as Ht.
  pose proof (Zdigits2_pos t) as Hpos.
  assert (Hlt : Zdigits2 k - 1 < Zdigits2 t).
  { apply (Z.pow_lt_mono_r_iff 2); lia. }
  lia.
Qed.

Lemma rounded_range (z : Z) :
  let n := Zdigits2 z - 53 in
  0 < z -> 0 < n ->
  2 ^ 52 <= z / 2 ^ n + Z.b2z (roundedUp z n) <= 2 ^ 53.
Proof.
  intros n Hz Hn. pose proof (Zdigits2_bounds z Hz) as Hd.
  replace (Zdigits2 z) with (53 + n) in Hd by (unfold n; lia).
  replace (53 + n - 1) with (52 + n) in Hd by lia.
  rewrite !Z.pow_add_r in Hd by lia.
  assert (0 < 2 ^ n) by lia.
  assert (2 ^ 52 <= z / 2 ^ n) by (apply Z.div_le_lower_bound; lia).
  assert (z / 2 ^ n < 2 ^ 53) by (apply Z.div_lt_upper_bound; lia).
  destruct (roundedUp z n); cbn [Z.b2z]; lia.
Qed.

(** Rounding to nearest even is monotone. *)
Lemma rounded_mono (k t n : Z) :
  0 <= k <= t -> 0 < n ->
  k / 2 ^ n + Z.b2z (roundedUp k n) <= t / 2 ^ n + Z.b2z (roundedUp t n).
Proof.
  intros Hkt Hn.
  assert (Hp : 0 < 2 ^ n) by lia.
  pose proof (Z.div_le_mono k t (2 ^ n) Hp (proj2 Hkt)) as Hq.
  destruct (Z.eq_dec (k / 2 ^ n) (t / 2 ^ n)) as [Heq|Hne].
  - pose proof (Z.div_mod k (2 ^ n)) as Hk.
    pose proof (Z.div_mod t (2 ^ n)) as Ht.
    assert (Hr : k mod 2 ^ n <= t mod 2 ^ n) by nia.
    unfold roundedUp. cbn zeta. rewrite Heq.
    destruct (Z.ltb_spec (2 ^ n) (2 * (k mod 2 ^ n)));
      destruct (Z.ltb_spec (2 ^ n) (2 * (t mod 2 ^ n)));
      destruct (Z.eqb_spec (2 * (k mod 2 ^ n)) (2 ^ n));
      destruct (Z.eqb_spec (2 * (t mod 2 ^ n)) (2 ^ n));
      destruct (Z.odd (t / 2 ^ n)); cbn; lia.
  - destruct (roundedUp k n), (roundedUp t n); cbn [Z.b2z]; lia.
Qed.

Lemma normalForm_small (z : Z) :
  0 < z -> Zdigits2 z <= 53 ->
  normalForm z = (z * 2 ^ (53 - Zdigits2 z), Zdigits2 z - 53).
Proof.
  intros Hz Hd. unfold normalForm.
  destruct (Z.leb_spec (Zdigits2 z) 53); [done|lia].
Qed.

Lemma normalForm_large (z : Z) :
  let n := Zdigits2 z - 53 in
  let m := z / 2 ^ n + Z.b2z (roundedUp z n) in
  0 < z -> 53 < Zdigits2 z ->
  normalForm z = if m =? 2 ^ 53 then (2 ^ 52, n + 1) else (m, n).
Proof.
  intros n m Hz Hd. unfold normalForm.
  destruct (Z.leb_spec (Zdigits2 z) 53); [lia|done].
Qed.

(** The normal form has a mantissa of 53 bits and a small exponent. *)
Lemma normalForm_canonical (z : Z) :
  0 < z < 2 ^ 63 ->
  2 ^ 52 <= (normalForm z).1 < 2 ^ 53 /\ - 52 <= (normalForm z).2 <= 11.
Proof.
  intros Hz.
  pose proof (Zdigits2_bounds z) as Hd. pose proof (Zdigits2_pos z) as Hpos.
  assert (Hd63 : Zdigits2 z <= 63).
  { destruct (Z.le_gt_cases (Zdigits2 z) 63) as [|Hgt]; [done|].
    assert (2 ^ 63 <= 2 ^ (Zdigits2 z - 1)) by (apply Z.pow_le_mono_r; lia).
    lia. }
  destruct (Z.le_gt_cases (Zdigits2 z) 53) as [Hle|Hgt].
  - rewrite normalForm_small by lia. cbn [fst snd].
    split; [|lia].
    replace (2 ^ 52) with (2 ^ (Zdigits2 z - 1) * 2 ^ (53 - Zdigits2 z)).
    2:{ rewrite <- Z.pow_add_r by lia. f_equal. lia. }
    replace (2 ^ 53) with (2 ^ Zdigits2 z * 2 ^ (53 - Zdigits2 z)).
    2:{ rewrite <- Z.pow_add_r by lia. f_equal. lia. }
    assert (0 < 2 ^ (53 - Zdigits2 z)) by (apply Z.pow_pos_nonneg; lia).
    nia.
  - rewrite normalForm_large by lia.
    pose proof (rounded_range z) as Hr. cbn zeta in Hr.
    destruct (Z.eqb_spec (z / 2 ^ (Zdigits2 z - 53)
                          + Z.b2z (roundedUp z (Zdigits2 z - 53))) (2 ^ 53));
      cbn [fst snd]; lia.
Qed.

(** The normal form grows with the integer. *)
Lemma normalForm_mono (k t : Z) :
  0 < k <= t -> t < 2 ^ 63 -> lexle (normalForm k) (normalForm t).
Proof.
  intros Hkt Ht. unfold lexle.
  pose proof (Zdigits2_mono k t Hkt) as Hdd.
  pose proof (Zdigits2_pos k) as Hpk. pose proof (Zdigits2_pos t) as Hpt.
  pose proof (normalForm_canonical t) as Hct.
  destruct (Z.le_gt_cases (Zdigits2 k) 53) as [Hk53|Hk53].
  - rewrite (normalForm_small k) by lia. cbn [fst snd].
    destruct (Z.le_gt_cases (Zdigits2 t) 53) as [Ht53|Ht53].
    + rewrite (normalForm_small t) by lia. cbn [fst snd].
      destruct (Z.eq_dec (Zdigits2 k) (Zdigits2 t)) as [Heq|Hne]; [|lia].
      right. split; [lia|]. rewrite Heq.
      apply Z.mul_le_mono_nonneg_r; [apply Z.pow_nonneg|]; lia.
    + rewrite (normalForm_large t) by lia.
      destruct (_ =? _); cbn [fst snd]; lia.
  - rewrite (normalForm_large k), (normalForm_large t) by lia.
    pose proof (rounded_range k) as Hrk. pose proof (rounded_range t) as Hrt.
    cbn zeta in Hrk, Hrt.
    destruct (Z.eq_dec (Zdigits2 k) (Zdigits2 t)) as [Heq|Hne].
    + pose proof (rounded_mono k t (Zdigits2 k - 53)) as Hm.
      rewrite <- Heq.
      set (mk := k / 2 ^ (Zdigits2 k - 53)
                 + Z.b2z (roundedUp k (Zdigits2 k - 53))) in *.
      rewrite <- Heq in Hrt.
      set (mt := t / 2 ^ (Zdigits2 k - 53)
                 + Z.b2z (roundedUp t (Zdigits2 k - 53))) in *.
      destruct (Z.eqb_spec mk (2 ^ 53)), (Z.eqb_spec mt (2 ^ 53));
        cbn [fst snd]; lia.
    + set (mk := k / 2 ^ (Zdigits2 k - 53)
                 + Z.b2z (roundedUp k (Zdigits2 k - 53))) in *.
      set (mt := t / 2 ^ (Zdigits2 t - 53)
                 + Z.b2z (roundedUp t (Zdigits2 t - 53))) in *.
      destruct (Z.eqb_spec mk (2 ^ 53)), (Z.eqb_spec mt (2 ^ 53));
        cbn [fst snd]; lia.
Qed.

(** *** Division of a float by a larger one *)

(** Rounding a quotient of 53 or 54 bits: the exponent grows by the number
    of bits beyond 53, and by one more only for the mantissa [2^52]. *)
Lemma round_aux_le (s : bool) (q e : Z) (l : location) :
  2 ^ 52 <= q < 2 ^ 54 -> - 1074 <= e <= 900 ->
  exists m' e',
    binary_round_aux prec emax s q e l = S754_finite s m' e'
    /\ ((e' = e + (Zdigits2 q - 53) /\ 2 ^ 52 <= Z.pos m' < 2 ^ 53)
        \/ (e' = e + (Zdigits2 q - 53) + 1 /\ Z.pos m' = 2 ^ 52)).
Proof.
  intros Hq He. rewrite binary_round_aux_tail. unfold shr_fexp.
  destruct (Z.lt_ge_cases q (2 ^ 53)) as [Hlt|Hge].
  - rewrite (Zdigits2_unique q 53) by lia.
    rewrite fexp_normal by lia.
    replace (53 + e - 53 - e) with 0 by lia.
    cbn [shr fst snd].
    rewrite shr_record_of_loc_m, loc_of_shr_record_of_loc.
    pose proof (round_nearest_even_cases q l) as Hr.
    set (m1 := round_nearest_even q l) in *.
    rewrite round_tail_spec by lia.
    destruct (Z.eqb_spec m1 (2 ^ 53)).
    + eexists _, _. split; [reflexivity|]. right. split; [lia|done].
    + eexists _, _. split; [reflexivity|]. left.
      rewrite Z2Pos.id by lia. lia.
  - rewrite (Zdigits2_unique q 54) by lia.
    rewrite fexp_normal by lia.
    replace (54 + e - 53 - e) with 1 by lia.
    cbn [shr fst snd SpecFloat.iter_pos].
    assert (Hrec : exists r0 s0,
               shr_record_of_loc q l = Build_shr_record q r0 s0).
    { destruct l as [|[]]; by eexists _, _. }
    destruct Hrec as (r0 & s0 & ->).
    rewrite shr_1_spec by lia. cbn [shr_m].
    assert (Hhalf : 2 ^ 52 <= q / 2 < 2 ^ 53).
    { split; [apply Z.div_le_lower_bound|apply Z.div_lt_upper_bound]; lia. }
    pose proof (round_nearest_even_cases (q / 2)
                  (loc_of_shr_record
                     (Build_shr_record (q / 2) (Z.odd q) (r0 || s0)))) as Hr.
    set (m1 := round_nearest_even (q / 2) _) in *.
    rewrite round_tail_spec by lia.
    destruct (Z.eqb_spec m1 (2 ^ 53)).
    + eexists _, _. split; [reflexivity|]. right. split; [lia|done].
    + eexists _, _. split; [reflexivity|]. left.
      rewrite Z2Pos.id by lia. lia.
Qed.

(** A positive float divided by one at least as large is at most one. *)
Lemma SFdiv_le_one (mx my : positive) (ex ey : Z) :
  2 ^ 52 <= Z.pos mx < 2 ^ 53 -> 2 ^ 52 <= Z.pos my < 2 ^ 53 ->
  - 52 <= ex <= 11 -> - 52 <= ey <= 11 ->
  lexle (Z.pos mx, ex) (Z.pos my, ey) ->
  exists m e,
    SFdiv prec emax (S754_finite false mx ex) (S754_finite false my ey)
    = S754_finite false m e
    /\ lexle (Z.pos m, e) one_nf.
Proof.
  intros Hmx Hmy Hex Hey Hle. unfold lexle, one_nf in *. cbn [fst snd] in *.
  unfold SFdiv, SFdiv_core_binary.
  rewrite (Zdigits2_unique (Z.pos mx) 53), (Zdigits2_unique (Z.pos my) 53)
    by lia.
  rewrite fexp_normal by lia.
  replace (Z.min (53 + ex - (53 + ey) - 53) (ex - ey))
    with (ex - ey - 53) by lia.
  replace (ex - ey - (ex - ey - 53)) with 53 by lia.
  cbn iota. rewrite Z.shiftl_mul_pow2 by lia.
  pose proof (Z_div_mod (Z.pos mx * 2 ^ 53) (Z.pos my) eq_refl) as Hdiv.
  destruct (Z.div_eucl (Z.pos mx * 2 ^ 53) (Z.pos my)) as [q r].
  destruct Hdiv as [Hqr Hr]. cbn [xorb].
  assert (Hq : 2 ^ 52 <= q < 2 ^ 54) by nia.
  destruct Hle as [Hlt|[Heq Hm]].
  - destruct (round_aux_le false q (ex - ey - 53) (new_location (Z.pos my) r))
      as (m' & e' & -> & Hcase); [lia|lia|].
    exists m', e'. split; [done|].
    pose proof (Zdigits2_bounds q) as Hd.
    assert (Hd54 : Zdigits2 q <= 54).
    { destruct (Z.le_gt_cases (Zdigits2 q) 54) as [|Hgt]; [done|].
      assert (2 ^ 54 <= 2 ^ (Zdigits2 q - 1))
        by (apply Z.pow_le_mono_r; lia).
      lia. }
    cbn [fst snd]. destruct Hcase as [[-> Hm']|[-> Hm']]; lia.
  - subst ey. destruct (Z.eq_dec (Z.pos mx) (Z.pos my)) as [Hsame|Hdiff].
    + assert (Hq53 : q = 2 ^ 53) by nia.
      assert (Hr0 : r = 0) by nia.
      subst q r.
      replace (ex - ex - 53) with (- 53) by lia.
      assert (Hloc : new_location (Z.pos my) 0 = loc_Exact).
      { unfold new_location, new_location_even, new_location_odd.
        by destruct (Z.even (Z.pos my)). }
      rewrite Hloc.
      exists (Z.to_pos (2 ^ 52)), (- 52). split; [reflexivity|].
      cbn [fst snd]. right. split; [done|]. rewrite Z2Pos.id; lia.
    + assert (Hq53 : q < 2 ^ 53) by nia.
      destruct (round_aux_le false q (ex - ex - 53)
                  (new_location (Z.pos my) r))
        as (m' & e' & -> & Hcase); [lia|lia|].
      exists m', e'. split; [done|].
      rewrite (Zdigits2_unique q 53) in Hcase by lia.
      cbn [fst snd]. destruct Hcase as [[-> Hm']|[-> Hm']]; lia.
Qed.

(** The comparison of positive floats follows the order of normal forms. *)
Lemma SFleb_lexle (m1 m2 : positive) (e1 e2 : Z) :
  lexle (Z.pos m1, e1) (Z.pos m2, e2) ->
  SFleb (S754_finite false m1 e1) (S754_finite false m2 e2) = true.
Proof.
  unfold lexle, SFleb, SFcompare. cbn [fst snd].
  intros [Hlt|[-> Hm]].
  - apply Z.compare_lt_iff in Hlt. by rewrite Hlt.
  - rewrite Z.compare_refl. fold (Pos.compare m1 m2).
    destruct (Pos.compare_spec m1 m2) as [Heq|Hlt|Hgt]; try done. lia.
Qed.

Lemma lexle_trans (x y z : Z * Z) : lexle x y -> lexle y z -> lexle x z.
Proof. unfold lexle. lia. Qed.

(** *** The conversion of the program *)

Lemma Prim2SF_float64 (z : Z) :
  0 <= z < 2 ^ 63 ->
  Prim2SF (float64 z) = binary_normalize prec emax z 0 false.
Proof.
  intros Hz. unfold float64.
  destruct (Z.eqb_spec z (- 2 ^ 63)); [lia|].
  destruct (Z.ltb_spec z 0); [lia|].
  rewrite FloatAxioms.of_uint63_spec, Uint63.of_Z_spec.
  by rewrite Z.mod_small by (change Uint63Axioms.wB with (2 ^ 63); lia).
Qed.

(** The clamp leaves a positive threshold as it is. *)
Lemma math_Max_positive (y : float) (m : positive) (e : Z) :
  Prim2SF y = S754_finite false m e -> math_Max 0 y = y.
Proof.
  intros Hy. unfold math_Max.
  assert (Hinf : (y =? infinity)%float = false).
  { rewrite FloatAxioms.eqb_spec, Hy. done. }
  assert (Hnan : is_nan y = false) by (by rewrite is_nan_spec, Hy).
  assert (Hzero : (0 =? y)%float = false).
  { rewrite FloatAxioms.eqb_spec, Hy. done. }
  assert (Hneg : (y <? 0)%float = false).
  { rewrite FloatAxioms.ltb_spec, Hy. done. }
  change (0 =? infinity)%float with false. change (is_nan 0) with false.
  change (0 =? 0)%float with true.
  by rewrite Hinf, Hnan, Hzero, Hneg.
Qed.

(** A count over a larger total, as floats, is at most any integer
    threshold of one or more. *)
Lemma ratio_le_integer (k t thr : Z) :
  0 <= k <= t -> 0 < t < 2 ^ 63 -> 1 <= thr < 2 ^ 63 ->
  (float64 k / float64 t <=? math_Max 0 (float64 thr))%float = true.
Proof.
  intros Hk Ht Hthr.
  pose proof (Prim2SF_float64 thr) as Hsthr.
  rewrite normalize_spec in Hsthr by lia.
  rewrite (math_Max_positive _ _ _ (Hsthr ltac:(lia))).
  rewrite FloatAxioms.leb_spec, FloatAxioms.div_spec, Hsthr by lia.
  rewrite (Prim2SF_float64 k), (Prim2SF_float64 t) by lia.
  rewrite (normalize_spec t) by lia.
  pose proof (normalForm_canonical t ltac:(lia)) as [Hmt Het].
  pose proof (normalForm_canonical thr ltac:(lia)) as [Hmthr Hethr].
  destruct (Z.eq_dec k 0) as [->|Hk0].
  - done.
  - rewrite (normalize_spec k) by lia.
    pose proof (normalForm_canonical k ltac:(lia)) as [Hmk Hek].
    destruct (SFdiv_le_one (Z.to_pos (normalForm k).1)
                (Z.to_pos (normalForm t).1)
                (normalForm k).2 (normalForm t).2)
      as (m & e & Hdiv & Hone); try rewrite !Z2Pos.id by lia; try lia.
    { pose proof (normalForm_mono k t ltac:(lia) ltac:(lia)) as Hmono.
      unfold lexle in *. cbn [fst snd]. lia. }
    unfold SF64div. rewrite Hdiv.
    apply SFleb_lexle. eapply lexle_trans; [exact Hone|].
    pose proof (normalForm_mono 1 thr ltac:(lia) ltac:(lia)) as Hmono.
    change (normalForm 1) with one_nf in Hmono.
    unfold lexle in *. cbn [fst snd]. rewrite Z2Pos.id by lia. lia.
Qed.

End float_facts.



(** ** Facts about the loops of package diff *)

Module diff_facts.
Import diff diffspec.

Lemma int_wrap_small z : - 2 ^ 63 <= z < 2 ^ 63 -> int_wrap z = z.
Proof.
  intros Hz. unfold int_wrap.
  rewrite Z.mod_small by lia. lia.
Qed.

Lemma fold_left_flat_map {A B C : Type} (f : A -> C -> A) (g : B -> list C)
    (l : list B) (acc : A) :
  fold_left f (flat_map g l) acc
  = fold_left (fun acc y => fold_left f (g y) acc) l acc.
Proof.
  revert acc. induction l as [|y l IH]; intros acc; simpl; [done|].
  by rewrite fold_left_app, IH.
Qed.

Lemma fold_left_map' {A B C : Type} (f : A -> C -> A) (g : B -> C)
    (l : list B) (acc : A) :
  fold_left f (map g l) acc = fold_left (fun acc x => f acc (g x)) l acc.
Proof.
  revert acc. induction l as [|x l IH]; intros acc; simpl; [done|].
  by rewrite IH.
Qed.

(** The two nested loops are one pass over the positions, row by row. *)
Lemma pixelLoop_positions a b w h d :
  pixelLoop a b w h d = fold_left (stepAt a b) (positions w h) (0, d).
Proof.
  unfold pixelLoop, positions.
  rewrite fold_left_flat_map.
  generalize (0, d). generalize (seqZ 0 h).
  induction l as [|y l IH]; intros acc; simpl; [done|].
  rewrite fold_left_map'. apply IH.
Qed.

Lemma elem_of_positions x y w h :
  In (x, y) (positions w h) <-> (0 <= x < w /\ 0 <= y < h).
Proof.
  unfold positions. rewrite in_flat_map. split.
  - intros (y' & Hy & Hx). apply in_map_iff in Hx as (x' & Heq & Hx).
    inversion Heq; subst.
    apply list_elem_of_In, elem_of_seqZ in Hy.
    apply list_elem_of_In, elem_of_seqZ in Hx. lia.
  - intros [Hx Hy]. exists y. split.
    + apply list_elem_of_In, elem_of_seqZ. lia.
    + apply in_map_iff. exists x. split; [done|].
      apply list_elem_of_In, elem_of_seqZ. lia.
Qed.

Lemma length_positions w h :
  Z.of_nat (length (positions w h)) = Z.max 0 w * Z.max 0 h.
Proof.
  unfold positions.
  assert (Hrow : forall l : list Z,
    length (flat_map (fun y => map (fun x => (x, y)) (seqZ 0 w)) l)
    = (length l * Z.to_nat w)%nat).
  { induction l as [|y l IH]; simpl; [done|].
    rewrite length_app, length_map, length_seqZ, IH. lia. }
  rewrite Hrow, length_seqZ. lia.
Qed.

Lemma length_filter_le {A} (f : A -> bool) (l : list A) :
  (length (List.filter f l) <= length l)%nat.
Proof.
  induction l as [|x l IH]; simpl; [lia|]. destruct (f x); simpl; lia.
Qed.

(** The counter after a pass: the number of mismatches met, as long as the
    counter cannot wrap. *)
Lemma fold_count a b (l : list (Z * Z)) (c : Z) (d : Image) :
  0 <= c -> c + Z.of_nat (length l) < 2 ^ 63 ->
  (fold_left (stepAt a b) l (c, d)).1
  = c + Z.of_nat (length (List.filter (differs a b) l)).
Proof.
  revert c d. induction l as [|p l IH]; intros c d Hc Hlen.
  - simpl. lia.
  - cbn [length] in Hlen. cbn [fold_left List.filter].
    unfold stepAt at 2, pixelStep. fold (differs a b p).
    destruct (differs a b p); cbn [length].
    + unfold int_add. rewrite int_wrap_small by lia.
      rewrite IH by lia. lia.
    + rewrite IH by lia. lia.
Qed.

Lemma fold_bounds a b (l : list (Z * Z)) (c : Z) (d : Image) :
  Bounds (fold_left (stepAt a b) l (c, d)).2 = Bounds d.
Proof.
  revert c d. induction l as [|p l IH]; intros c d; [done|].
  cbn [fold_left]. unfold stepAt at 2, pixelStep.
  destruct (mismatch _ _); rewrite IH; [|done].
  unfold RGBA_Set. by destruct (inside _ _ _).
Qed.

Lemma RGBAModel_magenta : RGBAModel magenta = magenta.
Proof. reflexivity. Qed.

(** The image after a pass: marked where a mismatch was met inside the
    bounds, untouched elsewhere. *)
Lemma fold_image a b (l : list (Z * Z)) (c : Z) (d : Image) (x y : Z) :
  At (fold_left (stepAt a b) l (c, d)).2 x y
  = if inside x y (Bounds d) && differs a b (x, y)
       && bool_decide ((x, y) ∈ l)
    then magenta else At d x y.
Proof.
  revert c d. induction l as [|p l IH]; intros c d.
  - cbn [fold_left snd].
    rewrite bool_decide_eq_false_2 by apply not_elem_of_nil.
    by rewrite andb_false_r.
  - cbn [fold_left]. unfold stepAt at 2, pixelStep.
    fold (differs a b p). destruct p as [px py]. cbn [fst snd].
    assert (Hne : (x, y) ≠ (px, py) ->
                  bool_decide ((x, y) ∈ (px, py) :: l)
                  = bool_decide ((x, y) ∈ l)).
    { intros Hne. apply bool_decide_ext. rewrite elem_of_cons. tauto. }
    destruct (differs a b (px, py)) eqn:Hp.
    + rewrite IH. unfold RGBA_Set.
      destruct (inside px py (Bounds d)) eqn:Hin; cbn [Bounds At].
      * destruct (decide ((x, y) = (px, py))) as [Heq|Hn].
        -- inversion Heq; subst. rewrite Hin, Hp. cbn [andb].
           rewrite !Z.eqb_refl. cbn [andb]. rewrite RGBAModel_magenta.
           rewrite (bool_decide_eq_true_2 (_ ∈ _ :: _)) by (apply elem_of_cons; auto).
           by destruct (bool_decide _).
        -- assert (Hxy : (x =? px) && (y =? py) = false).
           { apply andb_false_iff.
             destruct (Z.eqb_spec x px), (Z.eqb_spec y py); subst; auto.
             congruence. }
           by rewrite Hxy, Hne.
      * destruct (decide ((x, y) = (px, py))) as [Heq|Hn].
        -- inversion Heq; subst. rewrite Hin. by cbn [andb].
        -- by rewrite Hne.
    + rewrite IH.
      destruct (decide ((x, y) = (px, py))) as [Heq|Hn].
      * inversion Heq; subst. rewrite Hp.
        by rewrite andb_false_r.
      * by rewrite Hne.
Qed.

Section WithLibraries.

Variable png_Decode : list Byte.byte -> option Image.
Variable png_Encode : Image -> option (list Byte.byte).
Variable Resize : Z -> Z -> Image -> Interpolation -> Image.
Variable ImageHash : Type.
Variable PerceptionHash : Image -> option ImageHash.
Variable Distance : ImageHash -> ImageHash -> option Z.

Local Abbreviation pixelDiff := (diff.pixelDiff Resize).
Local Abbreviation pHashDistance :=
  (diff.pHashDistance Resize ImageHash PerceptionHash Distance).
Local Abbreviation savePNG := (diff.savePNG png_Encode).
Local Abbreviation CompareFiles :=
  (diff.CompareFiles png_Decode png_Encode Resize ImageHash
     PerceptionHash Distance).

Local Abbreviation ratioOf := (diffspec.ratioOf Resize).

Lemma inside_Rect0 x y w h :
  0 <= w -> 0 <= h ->
  inside x y (Rect 0 0 w h) = true <-> (0 <= x < w /\ 0 <= y < h).
Proof.
  intros Hw Hh. unfold Rect, inside.
  destruct (Z.ltb_spec w 0), (Z.ltb_spec h 0); try lia.
  cbn [Min Max X Y]. rewrite !andb_true_iff.
  rewrite !Z.leb_le, !Z.ltb_lt. lia.
Qed.

(** The image the loop starts from. *)
Local Abbreviation blank a :=
  (draw_Src (NewRGBA (Rect 0 0 (Dx (Bounds a)) (Dy (Bounds a))))
     (Bounds (NewRGBA (Rect 0 0 (Dx (Bounds a)) (Dy (Bounds a)))))
     a (Min (Bounds a))).

(** [pixelDiff] with the rescale and the loops named. *)
Lemma pixelDiff_unfold (a b : Image) (threshold : float) :
  let b' := rescaled Resize a b in
  let w := Dx (Bounds a) in
  let h := Dy (Bounds a) in
  pixelDiff a b threshold
  = if negb (w =? Dx (Bounds b')) || negb (h =? Dy (Bounds b'))
    then (zeroPixelResult, None, Some ErrSizeMismatch)
    else
      let r := fold_left (stepAt a b') (positions w h) (0, blank a) in
      let ratio := (float64 r.1 / float64 (int_mul w h))%float in
      (mkPixelResult (ratio <=? threshold)%float ratio "", Some r.2, None).
Proof.
  intros b' w h. unfold diff.pixelDiff, b', rescaled.
  destruct (negb (Dx (Bounds a) =? Dx (Bounds b))
            || negb (Dy (Bounds a) =? Dy (Bounds b)));
    cbn beta iota zeta; fold w h.
  all: destruct (negb (w =? _) || negb (h =? _)); [done|].
  all: rewrite pixelLoop_positions; by destruct (fold_left _ _ _).
Qed.

(** The diff image is the marked copy of the baseline. *)
Lemma blank_marked (a b' : Image) (x y : Z) :
  let w := Dx (Bounds a) in
  let h := Dy (Bounds a) in
  0 <= w -> 0 <= h ->
  At (fold_left (stepAt a b') (positions w h) (0, blank a)).2 x y
  = markedCopy a b' x y.
Proof.
  intros w h Hw Hh. rewrite fold_image.
  unfold markedCopy. fold w h.
  replace (Bounds (draw_Src (NewRGBA (Rect 0 0 w h))
             (Bounds (NewRGBA (Rect 0 0 w h))) a (Min (Bounds a))))
    with (Rect 0 0 w h) by reflexivity.
  destruct (inside x y (Rect 0 0 w h)) eqn:Hin.
  - apply inside_Rect0 in Hin as Hxy; [|done..].
    rewrite (bool_decide_eq_true_2 ((x, y) ∈ positions w h)).
    2:{ apply list_elem_of_In, elem_of_positions. lia. }
    cbn [andb]. rewrite andb_true_r.
    destruct (differs a b' (x, y)); [done|].
    unfold draw_Src. cbn [At Bounds NewRGBA]. fold w h.
    rewrite Hin. cbn [andb].
    assert (Hmin : Min (Rect 0 0 w h) = mkPoint 0 0).
    { unfold Rect. by destruct (Z.ltb_spec w 0), (Z.ltb_spec h 0); try lia. }
    rewrite Hmin. cbn [X Y]. rewrite !Z.sub_0_r.
    assert (Hsrc : inside (X (Min (Bounds a)) + x) (Y (Min (Bounds a)) + y)
                     (Bounds a) = true).
    { unfold inside. rewrite !andb_true_iff.
      rewrite !Z.leb_le, !Z.ltb_lt. unfold w, h, Dx, Dy in *. lia. }
    by rewrite Hsrc.
  - cbn [andb]. unfold draw_Src. cbn [At Bounds NewRGBA]. fold w h.
    by rewrite Hin.
Qed.

(** [pixelDiff] on images whose sizes agree after the rescale. *)
Lemma pixelDiff_ok (a b : Image) (threshold : float) :
  let b' := rescaled Resize a b in
  let w := Dx (Bounds a) in
  let h := Dy (Bounds a) in
  Dx (Bounds b') = w -> Dy (Bounds b') = h ->
  0 <= w -> 0 <= h -> w * h < 2 ^ 63 ->
  exists diffImg,
    pixelDiff a b threshold
    = (mkPixelResult (ratioOf a b <=? threshold)%float (ratioOf a b) "",
       Some diffImg, None)
    /\ Bounds diffImg = Rect 0 0 w h
    /\ forall x y, At diffImg x y = markedCopy a b' x y.
Proof.
  intros b' w h Hdx Hdy Hw Hh Hwh.
  rewrite pixelDiff_unfold. fold b' w h.
  rewrite Hdx, Hdy, !Z.eqb_refl. cbn [negb orb].
  pose proof (length_positions w h) as Hlen.
  rewrite !Z.max_r in Hlen by lia.
  eexists. split; [|split].
  - cbn zeta. rewrite fold_count by lia.
    unfold int_mul. rewrite int_wrap_small by nia.
    unfold diffspec.ratioOf, countMismatch. fold b' w h.
    by rewrite Z.add_0_l.
  - by rewrite fold_bounds.
  - intros x y. by apply blank_marked.
Qed.

(** The mismatches are at most the pixels. *)
Lemma countMismatch_le (a b : Image) (w h : Z) :
  0 <= w -> 0 <= h -> 0 <= countMismatch a b w h <= w * h.
Proof.
  intros Hw Hh. unfold countMismatch.
  pose proof (length_filter_le (differs a b) (positions w h)) as Hle.
  pose proof (length_positions w h) as Hlen.
  rewrite !Z.max_r in Hlen by lia. lia.
Qed.

(** With an integer threshold of one or more, [pixelDiff] passes. *)
Lemma pixelDiff_integer_threshold (a b : Image) (thr : Z) :
  let b' := rescaled Resize a b in
  let w := Dx (Bounds a) in
  let h := Dy (Bounds a) in
  Dx (Bounds b') = w -> Dy (Bounds b') = h ->
  0 < w -> 0 < h -> w * h < 2 ^ 63 ->
  1 <= thr < 2 ^ 63 ->
  exists diffImg,
    pixelDiff a b (math_Max 0 (float64 thr))
    = (mkPixelResult true (ratioOf a b) "", Some diffImg, None).
Proof.
  intros b' w h Hdx Hdy Hw Hh Hwh Hthr.
  destruct (pixelDiff_ok a b (math_Max 0 (float64 thr)))
    as (diffImg & Hpx & _); try done; try lia.
  exists diffImg. rewrite Hpx. do 2 f_equal.
  unfold diffspec.ratioOf. fold b' w h.
  pose proof (countMismatch_le a b' w h ltac:(lia) ltac:(lia)) as Hc.
  rewrite float_facts.ratio_le_integer by nia. done.
Qed.

(** What a successful [pixelDiff] returned. *)
Lemma pixelDiff_inv (a b : Image) (threshold : float) px diffImg :
  pixelDiff a b threshold = (px, Some diffImg, None) ->
  let b' := rescaled Resize a b in
  let w := Dx (Bounds a) in
  let h := Dy (Bounds a) in
  Dx (Bounds b') = w /\ Dy (Bounds b') = h
  /\ Pass px = (RatioDiff px <=? threshold)%float
  /\ DiffImagePath px = ""
  /\ (0 <= w -> 0 <= h -> forall x y, At diffImg x y = markedCopy a b' x y).
Proof.
  intros Hpx b' w h. rewrite pixelDiff_unfold in Hpx. fold b' w h in Hpx.
  destruct (Z.eqb_spec w (Dx (Bounds b'))) as [Hdx|]; [|done].
  destruct (Z.eqb_spec h (Dy (Bounds b'))) as [Hdy|]; [|done].
  cbn [negb orb] in Hpx. cbn zeta in Hpx. inversion Hpx; subst px diffImg.
  cbn [Pass RatioDiff DiffImagePath].
  repeat split; try done.
  intros Hw Hh x y. by apply blank_marked.
Qed.

(** [CompareFiles] when the files decode and both metrics are computed:
    the diff image is saved exactly when the pixel metric fails. *)
Lemma CompareFiles_ok (fs : os.FileSystem) (baselinePath : string)
    (buf : list Byte.byte) (diffPath : string) (pxThreshold : float)
    (phThreshold : Z) data a b px diffImg ph :
  os.files fs !! baselinePath = Some data ->
  png_Decode data = Some a ->
  png_Decode buf = Some b ->
  pixelDiff a b (math_Max 0 pxThreshold) = (px, Some diffImg, None) ->
  pHashDistance a b phThreshold = (ph, None) ->
  CompareFiles fs baselinePath buf diffPath pxThreshold phThreshold
  = if Pass px then (px, ph, None, fs)
    else (mkPixelResult (Pass px) (RatioDiff px) diffPath, ph, None,
          (savePNG fs diffPath diffImg).1).
Proof.
  intros Hfile Ha Hb Hpx Hph.
  unfold diff.CompareFiles, diff.openPNG, os.Open.
  rewrite Hfile, Ha, Hb, Hpx, Hph.
  destruct (Pass px); cbn [negb]; [done|].
  by destruct (savePNG fs diffPath diffImg).
Qed.

(** Conversely, a comparison that returns no error went through all of
    these steps. *)
Lemma CompareFiles_inv (fs : os.FileSystem) (baselinePath : string)
    (buf : list Byte.byte) (diffPath : string) (pxThreshold : float)
    (phThreshold : Z) px' ph fs' :
  CompareFiles fs baselinePath buf diffPath pxThreshold phThreshold
  = (px', ph, None, fs') ->
  exists data a b px diffImg,
    os.files fs !! baselinePath = Some data
    /\ png_Decode data = Some a
    /\ png_Decode buf = Some b
    /\ pixelDiff a b (math_Max 0 pxThreshold) = (px, Some diffImg, None)
    /\ pHashDistance a b phThreshold = (ph, None).
Proof.
  unfold diff.CompareFiles, diff.openPNG, os.Open.
  destruct (os.files fs !! baselinePath) as [data|] eqn:Hfile; [|done].
  destruct (png_Decode data) as [a|] eqn:Ha; [|done].
  destruct (png_Decode buf) as [b|] eqn:Hb; [|done].
  destruct (pixelDiff a b (math_Max 0 pxThreshold))
    as [[px [diffImg|]] [e|]] eqn:Hpx; try done.
  destruct (pHashDistance a b phThreshold) as [ph0 [e|]] eqn:Hph;
    [done|].
  intros H. exists data, a, b, px, diffImg.
  repeat split; try done.
  destruct (negb (Pass px)); [destruct (savePNG _ _ _)|]; congruence.
Qed.

End WithLibraries.

End diff_facts.
(** ** Facts about the task loop *)

Module main_facts.
Import main mainspec.

(** The counters of [CountStatus], as a count. *)
Lemma CountStatus_acc (cases : list report.CaseResult) (status : string)
    (n : Z) :
  fold_left
    (fun n c => if String.eqb (report.Status c) status then n + 1 else n)
    cases n
  = n + report.CountStatus cases status.
Proof.
  unfold report.CountStatus. revert n.
  induction cases as [|c cases IH] using rev_ind; intros n.
  - simpl. lia.
  - rewrite !fold_left_app. cbn [fold_left]. rewrite (IH n).
    destruct (String.eqb _ _); lia.
Qed.

Lemma CountStatus_cons c (cases : list report.CaseResult) status :
  report.CountStatus (c :: cases) status
  = (if String.eqb (report.Status c) status then 1 else 0)
    + report.CountStatus cases status.
Proof.
  unfold report.CountStatus at 1. cbn [fold_left].
  rewrite CountStatus_acc. by destruct (String.eqb _ _).
Qed.

(** The four counters add up to the number of cases whose status is one of
    the four. *)
Lemma counters_sum (cases : list report.CaseResult) :
  report.CountStatus cases "pass" + report.CountStatus cases "fail"
  + report.CountStatus cases "no-baseline" + report.CountStatus cases "error"
  = Z.of_nat (length (List.filter
                        (fun c => bool_decide (report.Status c ∈ terminal))
                        cases)).
Proof.
  induction cases as [|c cases IH]; [done|].
  rewrite !CountStatus_cons. cbn [List.filter].
  assert (Hin : forall s : string,
            s = "pass" \/ s = "fail" \/ s = "no-baseline" \/ s = "error" ->
            bool_decide (s ∈ terminal) = true).
  { intros s Hs. apply bool_decide_eq_true_2. unfold terminal.
    rewrite !elem_of_cons. tauto. }
  destruct (String.eqb_spec (report.Status c) "pass") as [Hs|H1];
    [rewrite Hs, Hin by auto; cbn [length]|].
  { repeat match goal with
           | |- context [String.eqb ?a ?b] =>
               let v := eval vm_compute in (String.eqb a b) in
               change (String.eqb a b) with v
           end. lia. }
  destruct (String.eqb_spec (report.Status c) "fail") as [Hs|H2];
    [rewrite Hs, Hin by auto; cbn [length]|].
  { repeat match goal with
           | |- context [String.eqb ?a ?b] =>
               let v := eval vm_compute in (String.eqb a b) in
               change (String.eqb a b) with v
           end. lia. }
  destruct (String.eqb_spec (report.Status c) "no-baseline") as [Hs|H3];
    [rewrite Hs, Hin by auto; cbn [length]|].
  { repeat match goal with
           | |- context [String.eqb ?a ?b] =>
               let v := eval vm_compute in (String.eqb a b) in
               change (String.eqb a b) with v
           end. lia. }
  destruct (String.eqb_spec (report.Status c) "error") as [Hs|H4];
    [rewrite Hs, Hin by auto; cbn [length]|].
  { lia. }
  rewrite bool_decide_eq_false_2; [lia|].
  unfold terminal. rewrite !elem_of_cons, elem_of_nil. tauto.
Qed.

Lemma counters_partition (cases : list report.CaseResult) :
  Forall (fun c => report.Status c ∈ terminal) cases ->
  report.CountStatus cases "pass" + report.CountStatus cases "fail"
  + report.CountStatus cases "no-baseline" + report.CountStatus cases "error"
  = Z.of_nat (length cases).
Proof.
  intros Hall. rewrite counters_sum. f_equal. f_equal.
  induction Hall as [|c cases Hc Hall IH]; [done|].
  cbn [List.filter]. rewrite bool_decide_eq_true_2 by done.
  by rewrite IH.
Qed.

(** A base configuration that passes the checks has its threshold between
    0 and 100. *)
Lemma checkBase_threshold (c : config.OsnapBaseConfig) :
  config.checkBase c = None -> 0 <= config.BaseThreshold c <= 100.
Proof.
  unfold config.checkBase.
  destruct (length (config.DefaultSizes c) =? 0)%nat; [done|].
  destruct (existsb _ _); [done|].
  destruct (Z.ltb_spec (config.BaseThreshold c) 0); [done|].
  destruct (Z.ltb_spec 100 (config.BaseThreshold c)); [done|].
  lia.
Qed.

Lemma Pick_nonempty (brs : browser.Instances) (r : nat) :
  brs <> [] -> is_Some (browser.Pick brs r).
Proof.
  intros Hne. unfold browser.Pick.
  destruct (length brs =? 1)%nat eqn:Hlen.
  - apply Nat.eqb_eq in Hlen. apply lookup_lt_is_Some. lia.
  - apply lookup_lt_is_Some. apply Nat.mod_upper_bound.
    destruct brs; [done|]. simpl. lia.
Qed.

Section WithEnvironment.

Variable png_Decode : list Byte.byte -> option Image.
Variable png_Encode : Image -> option (list Byte.byte).
Variable Resize : Z -> Z -> Image -> diff.Interpolation -> Image.
Variable ImageHash : Type.
Variable PerceptionHash : Image -> option ImageHash.
Variable Distance : ImageHash -> ImageHash -> option Z.
Variable filepath_Join : list string -> string.
Variable Capture :
  snapshot.Context -> browser.Instance -> string -> string -> Z -> Z ->
  list string -> list Byte.byte * option error.
Variable rnd : nat -> nat.
Variable flags : main.Flags.
Variable baseDir : string.
Variable cfg : config.OsnapBaseConfig.
Variable brs : browser.Instances.

Local Abbreviation task :=
  (main.task png_Decode png_Encode Resize ImageHash PerceptionHash Distance
     filepath_Join Capture rnd flags baseDir cfg brs).
Local Abbreviation runTasks :=
  (main.runTasks png_Decode png_Encode Resize ImageHash PerceptionHash
     Distance filepath_Join Capture rnd flags baseDir cfg brs).
Local Abbreviation run :=
  (main.run png_Decode png_Encode Resize ImageHash PerceptionHash
     Distance filepath_Join Capture rnd flags baseDir cfg brs).
Local Abbreviation outcome :=
  (mainspec.outcome png_Decode png_Encode Resize ImageHash PerceptionHash
     Distance filepath_Join Capture flags baseDir cfg).

(** A task stores its outcome at its index and touches nothing else of the
    slice. *)
Lemma task_spec (i : nat) (s : config.OsnapConfig) (st : RunState)
    (b : browser.Instance) :
  browser.Pick brs (rnd i) = Some b ->
  (i < length (results st))%nat ->
  exists out,
    task i s st
    = Some (mkRun (<[i := (outcome s b (fs st)).1]> (results st))
                  (outcome s b (fs st)).2 out).
Proof.
  intros Hpick Hi. unfold main.task, mainspec.outcome, captured, compared.
  rewrite Hpick. unfold effectiveThreshold.
  destruct (Capture _ _ _ _ _ _ _) as [buf [e|]].
  - unfold store. apply Nat.ltb_lt in Hi. rewrite Hi. by eexists.
  - destruct (diff.CompareFiles _ _ _ _ _ _ _ _ _ _ _ _)
      as [[[df ph] [e|]] fs'].
    + unfold store. cbn [results]. apply Nat.ltb_lt in Hi. rewrite Hi.
      by eexists.
    + unfold store. cbn [results os_IsNotExist].
      apply Nat.ltb_lt in Hi. rewrite Hi.
      destruct (diff.Pass df); cbn [negb]; by eexists.
Qed.

(** A task never panics on an index of the slice when the pool is not
    empty. *)
Lemma task_total (i : nat) (s : config.OsnapConfig) (st : RunState) :
  brs <> [] -> (i < length (results st))%nat ->
  exists b out,
    browser.Pick brs (rnd i) = Some b
    /\ task i s st
       = Some (mkRun (<[i := (outcome s b (fs st)).1]> (results st))
                     (outcome s b (fs st)).2 out).
Proof.
  intros Hne Hi. destruct (Pick_nonempty brs (rnd i) Hne) as [b Hb].
  destruct (task_spec i s st b Hb Hi) as [out Ht]. by exists b, out.
Qed.

(** The status of an outcome is pass, fail or error. *)
Lemma outcome_status s b fs0 :
  report.Status (outcome s b fs0).1 = "pass"
  \/ report.Status (outcome s b fs0).1 = "fail"
  \/ report.Status (outcome s b fs0).1 = "error".
Proof.
  unfold mainspec.outcome, captured, compared.
  destruct (Capture _ _ _ _ _ _ _) as [buf [e|]]; [auto|].
  destruct (diff.CompareFiles _ _ _ _ _ _ _ _ _ _ _ _)
    as [[[df ph] [e|]] fs']; [auto|].
  destruct (diff.Pass df); auto.
Qed.

Lemma outcome_terminal s b fs0 :
  report.Status (outcome s b fs0).1 ∈ terminal.
Proof.
  unfold terminal. rewrite !elem_of_cons.
  destruct (outcome_status s b fs0) as [-> | [-> | ->]]; auto.
Qed.

(** The fields of an outcome that name the case. *)
Lemma outcome_names s b fs0 :
  report.Name (outcome s b fs0).1 = config.Name s
  /\ report.URL (outcome s b fs0).1 = config.URL s
  /\ report.Baseline (outcome s b fs0).1
     = main.baselinePathOf filepath_Join baseDir s
  /\ report.OutPath (outcome s b fs0).1
     = main.diffPathOf filepath_Join baseDir s.
Proof.
  unfold mainspec.outcome, captured, compared.
  destruct (Capture _ _ _ _ _ _ _) as [buf [e|]]; [done|].
  by destruct (diff.CompareFiles _ _ _ _ _ _ _ _ _ _ _ _)
    as [[[df ph] [e|]] fs'].
Qed.

Local Abbreviation filled :=
  (mainspec.filled png_Decode png_Encode Resize ImageHash PerceptionHash
     Distance filepath_Join Capture flags baseDir cfg).

(** Running tasks: the slice keeps its length, the slots of the tasks that
    ran hold their outcomes, and the other slots are untouched. *)
Lemma runTasks_spec (cases : list config.OsnapConfig) (order : list nat)
    (st : RunState) :
  brs <> [] ->
  Forall (fun i => i < length cases)%nat order ->
  (length cases <= length (results st))%nat ->
  exists st',
    runTasks cases order st = Some st'
    /\ length (results st') = length (results st)
    /\ (forall i, i ∉ order -> results st' !! i = results st !! i)
    /\ (forall i, i ∈ order ->
          exists r, results st' !! i = Some r /\ filled cases i r).
Proof.
  intros Hne. revert st.
  induction order as [|i order IH]; intros st Hall Hlen.
  - exists st. repeat split; try done. intros i Hi. by apply elem_of_nil in Hi.
  - apply Forall_cons in Hall as [Hi Hall]. cbn [main.runTasks].
    destruct (lookup_lt_is_Some_2 cases i Hi) as [s Hs]. rewrite Hs.
    destruct (task_total i s st Hne) as (b & out & Hb & Ht); [lia|].
    rewrite Ht.
    set (st1 := mkRun (<[i := (outcome s b (fs st)).1]> (results st))
                      (outcome s b (fs st)).2 out).
    destruct (IH st1 Hall) as (st' & Hrun & Hlen' & Hout & Hin).
    { unfold st1. cbn [results]. rewrite length_insert. lia. }
    exists st'. split; [done|].
    unfold st1 in Hlen', Hout. cbn [results] in Hlen', Hout.
    rewrite length_insert in Hlen'.
    split; [done|]. split.
    + intros j Hj. apply not_elem_of_cons in Hj as [Hji Hj].
      rewrite (Hout j Hj). by apply list_lookup_insert_ne.
    + intros j Hj. destruct (decide (j ∈ order)) as [Hjo|Hjo].
      * by apply Hin.
      * apply elem_of_cons in Hj as [->|Hj]; [|done].
        rewrite (Hout i Hjo).
        rewrite list_lookup_insert_eq by lia.
        eexists. split; [done|]. by exists s, b, (fs st).
Qed.

(** A case without a baseline file: the comparison returns the error of
    [os.Open], the task reports it as an error, and nothing is written. *)
Lemma outcome_missing_baseline s b fs0 buf :
  captured filepath_Join Capture flags baseDir s b = (buf, None) ->
  os.files fs0 !! main.baselinePathOf filepath_Join baseDir s = None ->
  outcome s b fs0
  = (errorResult filepath_Join baseDir s
       (ErrNotExist (main.baselinePathOf filepath_Join baseDir s)), fs0).
Proof.
  intros Hcap Hfile. unfold mainspec.outcome. rewrite Hcap.
  unfold compared, diff.CompareFiles, diff.openPNG, os.Open.
  by rewrite Hfile.
Qed.

(** No task ever reports the status no-baseline. *)
Lemma outcome_never_no_baseline s b fs0 :
  report.Status (outcome s b fs0).1 <> "no-baseline".
Proof. by destruct (outcome_status s b fs0) as [-> | [-> | ->]]. Qed.

Lemma length_configsToProcess (configs : list config.OsnapConfig) :
  (length (main.configsToProcess flags configs) <= length configs)%nat.
Proof.
  unfold main.configsToProcess. destruct (_ && _); [|done].
  rewrite length_take. lia.
Qed.

(** The report of a run for a schedule of the submitted cases. *)
Lemma run_spec (configs : list config.OsnapConfig) (order : list nat)
    (fs0 : os.FileSystem) (now : string) :
  brs <> [] ->
  main.schedule flags configs order ->
  exists rep st,
    run configs order fs0 now = Some (rep, st)
    /\ report.Cases rep = results st
    /\ report.Total rep = Z.of_nat (length (results st))
    /\ counted rep
       = Z.of_nat (length (List.filter
                    (fun c => bool_decide (report.Status c ∈ terminal))
                    (results st)))
    /\ length (results st) = length configs
    /\ (forall i, (i < length (main.configsToProcess flags configs))%nat ->
          exists r, results st !! i = Some r
                    /\ filled (main.configsToProcess flags configs) i r)
    /\ (forall i, (length (main.configsToProcess flags configs) <= i)%nat ->
          (i < length configs)%nat ->
          results st !! i = Some report.zeroCaseResult).
Proof.
  intros Hne Hsched. unfold main.run, main.schedule in *.
  set (todo := main.configsToProcess flags configs) in *.
  set (st0 := println _ _).
  assert (Hres0 : results st0
                  = replicate (length configs) report.zeroCaseResult).
  { unfold st0. by destruct (_ && _). }
  pose proof (length_configsToProcess configs) as Hle. fold todo in Hle.
  destruct (runTasks_spec todo order st0 Hne) as (st & Hrun & Hlen & Hout & Hin).
  { apply Forall_forall. intros i Hi.
    rewrite Hsched in Hi. apply elem_of_seq in Hi. lia. }
  { rewrite Hres0, length_replicate. lia. }
  rewrite Hrun. eexists _, st. split; [reflexivity|].
  cbn [report.Cases report.Total]. unfold counted.
  cbn [report.Passed report.Failed report.NoBaseline report.Errored].
  rewrite counters_sum.
  rewrite Hres0, length_replicate in Hlen.
  repeat split; try done.
  - intros i Hi. apply Hin. rewrite Hsched. apply elem_of_seq. lia.
  - intros i Hi1 Hi2. rewrite Hout.
    + rewrite Hres0. by apply lookup_replicate_2.
    + rewrite Hsched. rewrite elem_of_seq. lia.
Qed.

(** When every case is submitted, the four counters add up to the total. *)
Lemma run_partition_all_submitted (configs : list config.OsnapConfig)
    (order : list nat) (fs0 : os.FileSystem) (now : string) :
  brs <> [] ->
  main.schedule flags configs order ->
  main.configsToProcess flags configs = configs ->
  exists rep st,
    run configs order fs0 now = Some (rep, st)
    /\ report.Total rep = counted rep
    /\ Forall (fun c => report.Status c ∈ terminal) (report.Cases rep).
Proof.
  intros Hne Hsched Hall.
  destruct (run_spec configs order fs0 now Hne Hsched)
    as (rep & st & Hrun & Hcases & Htotal & Hcount & Hlen & Hin & _).
  exists rep, st. split; [done|].
  assert (Hterm : Forall (fun c => report.Status c ∈ terminal) (results st)).
  { apply Forall_lookup. intros i c Hc.
    destruct (Hin i) as (r & Hr & s & b & fs1 & _ & ->).
    { rewrite Hall, <- Hlen. by eapply lookup_lt_Some. }
    rewrite Hc in Hr. inversion Hr; subst. apply outcome_terminal. }
  split; [|by rewrite Hcases].
  rewrite Htotal, Hcount. f_equal. f_equal.
  clear -Hterm. induction Hterm as [|c l Hc Hl IH]; [done|].
  cbn [List.filter]. rewrite bool_decide_eq_true_2 by done.
  by f_equal.
Qed.

End WithEnvironment.

End main_facts.

(** ** Facts about the selector wait *)

Module snapshot_facts.
Import snapshot.

(** The selectors the task loop waits for. *)
Lemma waitSelList_eq : main.waitSelList = ["#storybook-root"; "#root"].
Proof. reflexivity. Qed.

Lemma ParseSelectors_empty : ParseSelectors " , " = ["body"].
Proof. reflexivity. Qed.

(** While the context of the instance is open, a query returns when its
    selector is ready and not before. *)
Lemma WaitReady_open (pg : Page) (sel : string) (now : N) :
  cancelled pg = None ->
  WaitReady pg sel now
  = match readyAfter pg sel now with
    | Some d => Returns None (now + d)%N
    | None => Blocks
    end.
Proof. intros Hopen. unfold WaitReady. by rewrite Hopen. Qed.

(** Once the context of the instance is cancelled, a query fails at
    once. *)
Lemma WaitReady_closed (pg : Page) (sel : string) (c now : N) :
  cancelled pg = Some c -> (c <= now)%N ->
  WaitReady pg sel now = Returns (Some context_Canceled) now.
Proof.
  intros Hclosed Hc. unfold WaitReady. rewrite Hclosed.
  replace (N.max now c) with now by lia.
  destruct (readyAfter pg sel now) as [d|]; [|done].
  destruct (N.ltb_spec (now + d) c); [lia|done].
Qed.

Lemma trySelectors_closed (pg : Page) (selectors : list string) (c now : N) :
  cancelled pg = Some c -> (c <= now)%N ->
  trySelectors pg selectors now = Returns false now.
Proof.
  intros Hclosed Hc. induction selectors as [|sel rest IH]; [done|].
  cbn [trySelectors]. by rewrite (WaitReady_closed pg sel c now).
Qed.

(** With the context open, the first selector decides a round. *)
Lemma trySelectors_open (pg : Page) (sel : string) (rest : list string)
    (now : N) :
  cancelled pg = None ->
  trySelectors pg (sel :: rest) now
  = match readyAfter pg sel now with
    | Some d => Returns true (now + d)%N
    | None => Blocks
    end.
Proof.
  intros Hopen. cbn [trySelectors]. rewrite WaitReady_open by done.
  by destruct (readyAfter pg sel now).
Qed.

(** A round that reports a ready selector found one. *)
Lemma trySelectors_ready (pg : Page) (selectors : list string) (now t : N) :
  trySelectors pg selectors now = Returns true t ->
  exists sel t', sel ∈ selectors /\ WaitReady pg sel t' = Returns None t.
Proof.
  revert now. induction selectors as [|sel rest IH]; intros now; [done|].
  cbn [trySelectors].
  destruct (WaitReady pg sel now) as [[e|] now'|] eqn:Hw; [| |done].
  - intros H. destruct (IH _ H) as (sel' & t' & Hin & Ht).
    exists sel', t'. split; [apply elem_of_cons; auto|done].
  - intros H. inversion H; subst. exists sel, now.
    split; [apply elem_of_cons; auto|done].
Qed.

(** With the context cancelled and sleeps that do not overshoot, the loop
    returns its error at the first instant, fifty milliseconds after fifty
    milliseconds, that is past the deadline. *)
Lemma waitAnyLoop_closed (m : nat) (pg : Page) (selectors : list string)
    (c deadline : N) :
  cancelled pg = Some c ->
  (forall t, overshoot pg t = 0%N) ->
  forall (rounds : nat) (now : N),
    (c <= now)%N -> (m < rounds)%nat ->
    (deadline < now + N.of_nat m * (50 * Millisecond))%N ->
    (m = 0%nat
     \/ (now + N.of_nat (Nat.pred m) * (50 * Millisecond) <= deadline)%N) ->
    waitAnyLoop rounds pg selectors deadline now
    = Some (Returns (Some ErrSelectorTimeout)
              (now + N.of_nat m * (50 * Millisecond))%N).
Proof.
  intros Hclosed Hexact. unfold Millisecond.
  induction m as [|m IH]; intros rounds now Hc Hrounds Hpast Hlast.
  - destruct rounds as [|rounds]; [lia|]. cbn [waitAnyLoop].
    rewrite (trySelectors_closed pg selectors c now) by done.
    destruct (N.ltb_spec deadline now); [|lia].
    do 3 f_equal. lia.
  - destruct rounds as [|rounds]; [lia|]. cbn [waitAnyLoop].
    rewrite (trySelectors_closed pg selectors c now) by done.
    destruct Hlast as [Hm|Hlast]; [done|]. cbn [Nat.pred] in Hlast.
    destruct (N.ltb_spec deadline now); [lia|].
    unfold Sleep, Millisecond. rewrite Hexact.
    rewrite (IH rounds (now + 50 * 1000000 + 0)%N); try lia.
    do 2 f_equal. lia.
Qed.

(** What the loop returns: no error only after a query found a selector
    ready, and the timeout error only past the deadline. *)
Lemma waitAnyLoop_result (rounds : nat) (pg : Page)
    (selectors : list string) (deadline now : N) err t :
  waitAnyLoop rounds pg selectors deadline now = Some (Returns err t) ->
  match err with
  | None => exists sel t', sel ∈ selectors
                           /\ WaitReady pg sel t' = Returns None t
  | Some e => e = ErrSelectorTimeout /\ (deadline < t)%N
  end.
Proof.
  revert now. induction rounds as [|rounds IH]; intros now; [done|].
  cbn [waitAnyLoop].
  destruct (trySelectors pg selectors now) as [[] now'|] eqn:Htry;
    [| |done].
  - intros Hret. inversion Hret; subst.
    by apply (trySelectors_ready pg selectors now).
  - destruct (N.ltb_spec deadline now').
    + intros Hret. by inversion Hret; subst.
    + apply IH.
Qed.

(** On the page of the fixtures a capture returns the screenshot. *)
Lemma Capture_readyPage (ctx : Context) (inst : browser.Instance)
    (url outPath : string) (vw vh : Z) (sel : string) (rest : list string) :
  exists t,
    Capture enoughRounds fixture.readyPage 0 ctx inst url outPath vw vh
      (sel :: rest)
    = Some (Returns (fixture.Capture ctx inst url outPath vw vh
                       (sel :: rest)) t)
    /\ fixture.Capture ctx inst url outPath vw vh (sel :: rest)
       = (fixture.blackWhite, None).
Proof. eexists. split; vm_compute; reflexivity. Qed.

End snapshot_facts.

(** ** Facts about the browser pool *)

Module browser_facts.
Import browser.

Lemma closeInstance_live (w : World) (it : Instance) :
  live (closeInstance w it) = live w ∖ owned it.
Proof.
  unfold closeInstance, cancelIfSet, callCancel, owned.
  destruct (AllocCancel it), (cancel it); cbn [live from_option];
    set_solver.
Qed.

Lemma closeInstance_next (w : World) (it : Instance) :
  next (closeInstance w it) = next w
  /\ launched (closeInstance w it) = launched w.
Proof.
  unfold closeInstance, cancelIfSet, callCancel.
  by destruct (AllocCancel it), (cancel it).
Qed.

(** Closing a list of instances closes what they own and nothing else. *)
Lemma closeAll_live (is_ : Instances) (w : World) :
  live (fold_left closeInstance is_ w) = live w ∖ ownedAll is_.
Proof.
  revert w. induction is_ as [|it is_ IH]; intros w; cbn [fold_left].
  - unfold ownedAll. cbn. set_solver.
  - rewrite IH, closeInstance_live. unfold ownedAll.
    rewrite fmap_cons, union_list_cons. set_solver.
Qed.

Lemma ownedAll_app (is_ : Instances) (it : Instance) :
  ownedAll (is_ ++ [it]) = ownedAll is_ ∪ owned it.
Proof.
  unfold ownedAll. rewrite fmap_app, union_list_app_L.
  cbn. set_solver.
Qed.

Section WithChrome.

Variable warmup : nat -> option error.

(** One launch: either a new open instance owning two fresh handles, or an
    error with the set of open contexts as before. *)
Lemma launchOne_spec (w : World) :
  fresh w ->
  match launchOne warmup w with
  | (Some inst, None, w') =>
      warmup (launched w) = None
      /\ owned inst = {[next w; S (next w)]}
      /\ Ctx inst = S (next w)
      /\ live w' = live w ∪ owned inst
      /\ next w' = S (S (next w))
      /\ launched w' = S (launched w)
  | (None, Some err, w') =>
      warmup (launched w) = Some err
      /\ live w' = live w
      /\ next w' = S (S (next w))
      /\ launched w' = S (launched w)
  | _ => False
  end.
Proof.
  intros Hfresh. unfold launchOne, newContext. cbn [live next launched].
  destruct (warmup (launched w)) as [err|] eqn:Hw.
  - repeat split; try done. unfold callCancel. cbn [live].
    assert (Hn : next w ∉ live w).
    { intros Hin. apply Hfresh in Hin. lia. }
    assert (Hn' : S (next w) ∉ live w).
    { intros Hin. apply Hfresh in Hin. lia. }
    set_solver.
  - repeat split; try done.
    unfold owned. cbn. set_solver.
Qed.

(** The loop of [LaunchPool]: all or nothing.  [base] is the set of
    contexts open before the call, [first] the first handle of the call. *)
Lemma launchLoop_spec (todo : nat) (i : Z) (instances : Instances)
    (w : World) (base : gset handle) (first : handle) :
  (forall h, h ∈ base -> (h < first)%nat) ->
  (first <= next w)%nat ->
  (forall h, h ∈ ownedAll instances -> (first <= h < next w)%nat) ->
  live w = base ∪ ownedAll instances ->
  Forall (isOpen w) instances ->
  match launchLoop warmup todo i instances w with
  | (is_, None, w') =>
      (forall k, (k < todo)%nat -> warmup (launched w + k)%nat = None)
      /\ length is_ = (length instances + todo)%nat
      /\ live w' = base ∪ ownedAll is_
      /\ Forall (isOpen w') is_
  | (is_, Some err, w') =>
      (exists k, (k < todo)%nat
                 /\ warmup (launched w + k)%nat = Some err
                 /\ forall j, (j < k)%nat ->
                      warmup (launched w + j)%nat = None)
      /\ is_ = []
      /\ live w' = base
  end.
Proof.
  revert i instances w.
  induction todo as [|todo IH];
    intros i instances w Hbase Hfirst Hown Hlive Hopen.
  - cbn [launchLoop]. repeat split; try done; lia.
  - cbn [launchLoop].
    assert (Hfresh : fresh w).
    { intros h Hh. rewrite Hlive in Hh.
      apply elem_of_union in Hh as [Hh|Hh].
      - apply Hbase in Hh. lia.
      - apply Hown in Hh. lia. }
    pose proof (launchOne_spec w Hfresh) as Hone.
    destruct (launchOne warmup w) as [[[inst|] [err|]] w1]; try done.
    + destruct Hone as (Hw & Hinst & Hctx & Hlive1 & Hnext1 & Hlaunched1).
      set (inst' := mkInstance (AllocCancel inst) (Ctx inst) (cancel inst) i).
      assert (Hown1 : owned inst' = owned inst) by done.
      specialize (IH (i + 1) (instances ++ [inst']) w1 Hbase).
      rewrite ownedAll_app, Hown1, Hinst in IH.
      assert (Hpre : match
                 launchLoop warmup todo (i + 1) (instances ++ [inst']) w1
               with
               | (is_, None, w') =>
                   (forall k, (k < todo)%nat ->
                      warmup (launched w1 + k)%nat = None)
                   /\ length is_ = (length (instances ++ [inst']) + todo)%nat
                   /\ live w' = base ∪ ownedAll is_
                   /\ Forall (isOpen w') is_
               | (is_, Some err, w') =>
                   (exists k, (k < todo)%nat
                      /\ warmup (launched w1 + k)%nat = Some err
                      /\ forall j, (j < k)%nat ->
                           warmup (launched w1 + j)%nat = None)
                   /\ is_ = []
                   /\ live w' = base
               end).
      { apply IH.
        - lia.
        - intros h Hh. apply elem_of_union in Hh as [Hh|Hh].
          + apply Hown in Hh. lia.
          + apply elem_of_union in Hh as [Hh|Hh];
              apply elem_of_singleton in Hh; lia.
        - rewrite Hlive1, Hlive, Hinst. set_solver.
        - apply Forall_app. split.
          + eapply Forall_impl; [exact Hopen|].
            intros it [Hc Ho]. split; rewrite Hlive1; set_solver.
          + apply Forall_singleton. split.
            * change (Ctx inst') with (Ctx inst).
              rewrite Hctx, Hlive1, Hinst. set_solver.
            * rewrite Hown1, Hlive1. set_solver. }
      clear IH.
      destruct (launchLoop warmup todo (i + 1) (instances ++ [inst']) w1)
        as [[is_ [err|]] w'].
      * destruct Hpre as ((k & Hk & Hwk & Hbefore) & -> & Hl).
        repeat split; try done.
        exists (S k). split; [lia|]. split.
        -- rewrite <- Hwk. f_equal. lia.
        -- intros j Hj. destruct j as [|j].
           ++ by rewrite Nat.add_0_r.
           ++ rewrite <- (Hbefore j) by lia. f_equal. lia.
      * destruct Hpre as (Hnone & Hlen & Hl & Hop).
        repeat split; try done.
        -- intros k Hk. destruct k as [|k].
           ++ by rewrite Nat.add_0_r.
           ++ rewrite <- (Hnone k) by lia. f_equal. lia.
        -- rewrite Hlen, length_app. cbn. lia.
    + destruct Hone as (Hw & Hlive1 & Hnext1 & Hlaunched1).
      repeat split; try done.
      * exists 0%nat. split; [lia|]. rewrite Nat.add_0_r.
        split; [done|]. intros j Hj. lia.
      * rewrite closeAll_live, Hlive1, Hlive.
        assert (Hdisj : base ## ownedAll instances).
        { intros h Hb Ho. apply Hbase in Hb. apply Hown in Ho. lia. }
        set_solver.
Qed.

(** [LaunchPool]: either every launch succeeded and the pool holds that
    many open instances, or one failed, no pool is returned and the open
    contexts are those from before the call. *)
Lemma LaunchPool_spec (n : Z) (w : World) :
  fresh w ->
  match LaunchPool warmup n w with
  | (is_, None, w') =>
      (forall k, (k < Z.to_nat (Z.max 1 n))%nat ->
         warmup (launched w + k)%nat = None)
      /\ length is_ = Z.to_nat (Z.max 1 n)
      /\ live w' = live w ∪ ownedAll is_
      /\ Forall (isOpen w') is_
  | (is_, Some err, w') =>
      (exists k, (k < Z.to_nat (Z.max 1 n))%nat
                 /\ warmup (launched w + k)%nat = Some err
                 /\ forall j, (j < k)%nat ->
                      warmup (launched w + j)%nat = None)
      /\ is_ = []
      /\ live w' = live w
  end.
Proof.
  intros Hfresh. unfold LaunchPool.
  assert (Hn : (if n <? 1 then 1 else n) = Z.max 1 n).
  { destruct (Z.ltb_spec n 1); lia. }
  rewrite Hn.
  apply (launchLoop_spec (Z.to_nat (Z.max 1 n)) 0 [] w (live w) (next w)).
  - apply Hfresh.
  - lia.
  - unfold ownedAll. cbn. set_solver.
  - unfold ownedAll. cbn. set_solver.
  - constructor.
Qed.

End WithChrome.

(** The pool of the examples is what launching one browser returns. *)
Lemma LaunchPool_one :
  (LaunchPool (fun _ => None) 1 fixture.noBrowser).1
  = ([fixture.instance0], None).
Proof. reflexivity. Qed.

End browser_facts.

(** ** Facts about the scheduler *)

Module pool_facts.
Import pool.

(** Counting the tasks with a property after one task changed. *)
Lemma count_insert (P : task -> bool) (l : list task) (i : nat)
    (t t' : task) :
  l !! i = Some t ->
  Z.of_nat (length (filter (fun x => P x = true) (<[i := t']> l)))
  = Z.of_nat (length (filter (fun x => P x = true) l))
    - Z.b2z (P t) + Z.b2z (P t').
Proof.
  revert i. induction l as [|x l IH]; intros i Hi; [done|].
  destruct i as [|i].
  - cbn in Hi. inversion Hi; subst x. cbn [list_insert insert].
    rewrite !filter_cons.
    destruct (P t), (P t'); repeat case_decide; try done;
      cbn [length Z.b2z]; lia.
  - cbn in Hi. change (<[S i := t']> (x :: l)) with (x :: <[i := t']> l).
    rewrite !filter_cons. specialize (IH i Hi).
    case_decide; cbn [length]; lia.
Qed.

Lemma count_app (P : task -> bool) (l : list task) (t : task) :
  Z.of_nat (length (filter (fun x => P x = true) (l ++ [t])))
  = Z.of_nat (length (filter (fun x => P x = true) l)) + Z.b2z (P t).
Proof.
  rewrite filter_app, length_app, filter_cons, filter_nil.
  destruct (P t); case_decide; try done; cbn [length Z.b2z]; lia.
Qed.

Lemma count_nonneg (P : task -> bool) (l : list task) :
  0 <= Z.of_nat (length (filter (fun x => P x = true) l)).
Proof. lia. Qed.

(** A task that holds a permit is counted among the holders. *)
Lemma holders_pos (s : State) (i : nat) (t : task) :
  tasks s !! i = Some t -> holds t = true -> 0 < holders s.
Proof.
  intros Hi Ht. unfold holders.
  assert (Hin : t ∈ filter (fun x => holds x = true) (tasks s)).
  { apply list_elem_of_filter. split; [done|].
    by eapply list_elem_of_lookup_2. }
  destruct (filter _ (tasks s)); [by apply elem_of_nil in Hin|].
  cbn [length]. lia.
Qed.

Lemma invariant_init (c : Z) : invariant c (init c).
Proof.
  unfold init, New. split; cbn.
  - destruct (Z.ltb_spec c 1); lia.
  - done.
  - unfold holders. cbn. lia.
  - done.
  - constructor.
Qed.

(** Every step keeps the invariant. *)
Lemma invariant_step (c : Z) (s s' : State) (e : event) :
  invariant c s -> step s e = Some s' -> invariant c s'.
Proof.
  intros [Hcap Hheld Hbound Hwg Hacc] Hstep.
  destruct e as [|i|i how|i|i]; cbn [step] in Hstep.
  - inversion Hstep; subst s'; clear Hstep. split; cbn [pool_ tasks sem wg].
    + done.
    + unfold holders. cbn [tasks]. rewrite count_app. cbn. fold (holders s). lia.
    + unfold holders. cbn [tasks]. rewrite count_app. cbn. fold (holders s). lia.
    + unfold pending. cbn [tasks]. rewrite count_app. cbn. fold (pending s). lia.
    + apply Forall_app. split; [done|]. by apply Forall_singleton.
  - destruct (tasks s !! i) as [[[] a r]|] eqn:Hi; try done.
    destruct (Z.ltb_spec (held (sem (pool_ s))) (cap (sem (pool_ s))));
      [|done].
    inversion Hstep; subst s'; clear Hstep.
    pose proof (proj1 (Forall_lookup _ _) Hacc i _ Hi) as [Ha Hr].
    cbn in Ha, Hr. subst a r.
    split; unfold setTask; cbn [pool_ tasks sem wg cap held].
    + done.
    + unfold holders. cbn [tasks]. rewrite (count_insert _ _ _ _ _ Hi).
      cbn. fold (holders s). lia.
    + unfold holders. cbn [tasks]. rewrite (count_insert _ _ _ _ _ Hi).
      cbn. fold (holders s). lia.
    + unfold pending. cbn [tasks]. rewrite (count_insert _ _ _ _ _ Hi).
      cbn. fold (pending s). lia.
    + apply Forall_insert; [done|]. by split.
  - destruct (tasks s !! i) as [[[] a r]|] eqn:Hi; try done.
    inversion Hstep; subst s'; clear Hstep.
    pose proof (proj1 (Forall_lookup _ _) Hacc i _ Hi) as [Ha Hr].
    cbn in Ha, Hr. subst a r.
    split; unfold setTask; cbn [pool_ tasks sem wg cap held].
    + done.
    + unfold holders. cbn [tasks]. rewrite (count_insert _ _ _ _ _ Hi).
      cbn. fold (holders s). lia.
    + unfold holders. cbn [tasks]. rewrite (count_insert _ _ _ _ _ Hi).
      cbn. fold (holders s). lia.
    + unfold pending. cbn [tasks]. rewrite (count_insert _ _ _ _ _ Hi).
      cbn. fold (pending s). lia.
    + apply Forall_insert; [done|]. by split.
  - destruct (tasks s !! i) as [[[] a r]|] eqn:Hi; try done.
    destruct (Z.ltb_spec 0 (held (sem (pool_ s)))); [|done].
    inversion Hstep; subst s'; clear Hstep.
    pose proof (proj1 (Forall_lookup _ _) Hacc i _ Hi) as [Ha Hr].
    cbn in Ha, Hr. subst a r.
    split; unfold setTask; cbn [pool_ tasks sem wg cap held].
    + done.
    + unfold holders. cbn [tasks]. rewrite (count_insert _ _ _ _ _ Hi).
      cbn. fold (holders s). lia.
    + unfold holders. cbn [tasks]. rewrite (count_insert _ _ _ _ _ Hi).
      cbn. fold (holders s). lia.
    + unfold pending. cbn [tasks]. rewrite (count_insert _ _ _ _ _ Hi).
      cbn. fold (pending s). lia.
    + apply Forall_insert; [done|]. by split.
  - destruct (tasks s !! i) as [[[] a r]|] eqn:Hi; try done.
    inversion Hstep; subst s'; clear Hstep.
    pose proof (proj1 (Forall_lookup _ _) Hacc i _ Hi) as [Ha Hr].
    cbn in Ha, Hr. subst a r.
    split; unfold setTask; cbn [pool_ tasks sem wg cap held].
    + done.
    + unfold holders. cbn [tasks]. rewrite (count_insert _ _ _ _ _ Hi).
      cbn. fold (holders s). lia.
    + unfold holders. cbn [tasks]. rewrite (count_insert _ _ _ _ _ Hi).
      cbn. fold (holders s). lia.
    + unfold pending. cbn [tasks]. rewrite (count_insert _ _ _ _ _ Hi).
      cbn. fold (pending s). lia.
    + apply Forall_insert; [done|]. by split.
Qed.

(** The invariant holds at every instant of a run. *)
Lemma invariant_run (c : Z) (es : list event) (s s' : State) :
  invariant c s -> run s es = Some s' -> invariant c s'.
Proof.
  revert s. induction es as [|e es IH]; intros s Hinv Hrun.
  - cbn in Hrun. by inversion Hrun; subst.
  - cbn [run] in Hrun. destruct (step s e) as [s1|] eqn:Hstep; [|done].
    eapply IH; [|exact Hrun]. by eapply invariant_step.
Qed.

(** The deferred receive of a task whose function is over never blocks. *)
Lemma release_enabled (c : Z) (s : State) (i : nat) (how : exit) a r :
  invariant c s ->
  tasks s !! i = Some (mkTask (Exiting how) a r) ->
  is_Some (step s (EvRecv i)).
Proof.
  intros Hinv Hi. cbn [step]. rewrite Hi.
  pose proof (holders_pos s i _ Hi eq_refl) as Hpos.
  rewrite <- (inv_held _ _ Hinv) in Hpos.
  apply Z.ltb_lt in Hpos. rewrite Hpos. by eexists.
Qed.

End pool_facts.

(** ** Facts about the progress of the scheduler *)

Module pool_progress.
Import pool.

(** A positive count has an element. *)
Lemma count_pos_lookup (P : task -> bool) (l : list task) :
  0 < Z.of_nat (length (filter (fun x => P x = true) l)) ->
  exists i t, l !! i = Some t /\ P t = true.
Proof.
  intros Hpos.
  destruct (filter (fun x => P x = true) l) as [|t l'] eqn:Hf;
    [cbn in Hpos; lia|].
  assert (Hin : t ∈ filter (fun x => P x = true) l).
  { rewrite Hf. apply elem_of_cons. by left. }
  apply list_elem_of_filter in Hin as [Ht Hin].
  apply list_elem_of_lookup_1 in Hin as [i Hi]. by exists i, t.
Qed.

Lemma count_zero_none (P : task -> bool) (l : list task) :
  Z.of_nat (length (filter (fun x => P x = true) l)) = 0
  <-> Forall (fun t => P t = false) l.
Proof.
  induction l as [|t l IH].
  - split; [constructor|done].
  - rewrite filter_cons. destruct (P t) eqn:Ht.
    + rewrite decide_True by done. split.
      * cbn [length]. lia.
      * intros Hall. apply Forall_cons in Hall as [Hf _]. congruence.
    + rewrite decide_False by congruence. rewrite IH. split.
      * intros Hall. by constructor.
      * intros Hall. by apply Forall_cons in Hall as [_ Hall].
Qed.

(** The wait group is at zero exactly when every task is finished. *)
Lemma pending_zero (s : State) :
  pending s = 0 <-> Forall (fun t => at_ t = Finished) (tasks s).
Proof.
  unfold pending. rewrite count_zero_none. apply Forall_proper; [|done].
  intros t. unfold unfinished. destruct (at_ t); split; done.
Qed.

(** Some step of a goroutine is enabled while a task is unfinished. *)
Lemma progress (c : Z) (s : State) :
  invariant c s -> 0 < pending s ->
  exists i t e,
    tasks s !! i = Some t
    /\ match at_ t with
       | Waiting => e = EvSend i
       | Running => e = EvExit i Returned
       | Exiting _ => e = EvRecv i
       | Released => e = EvDone i
       | Finished => False
       end
    /\ is_Some (step s e).
Proof.
  intros Hinv Hpos.
  destruct (count_pos_lookup unfinished (tasks s) Hpos) as (i & t & Hi & Hu).
  destruct t as [ph a r]. destruct ph as [| |how| |]; try done.
  - (* waiting: it sends, or a holder of a permit moves on *)
    destruct (Z.ltb_spec (held (sem (pool_ s))) (cap (sem (pool_ s))))
      as [Hlt|Hge].
    + exists i, (mkTask Waiting a r), (EvSend i). split; [done|].
      split; [done|]. cbn [step]. rewrite Hi.
      apply Z.ltb_lt in Hlt. rewrite Hlt. by eexists.
    + assert (Hh : 0 < holders s).
      { rewrite <- (inv_held _ _ Hinv).
        pose proof (inv_cap _ _ Hinv). lia. }
      destruct (count_pos_lookup holds (tasks s) Hh) as (j & t & Hj & Hhold).
      destruct t as [ph' a' r']. destruct ph' as [| |how| |]; try done.
      * exists j, (mkTask Running a' r'), (EvExit j Returned).
        split; [done|]. split; [done|]. cbn [step]. rewrite Hj. by eexists.
      * exists j, (mkTask (Exiting how) a' r'), (EvRecv j).
        split; [done|]. split; [done|].
        by eapply pool_facts.release_enabled.
  - exists i, (mkTask Running a r), (EvExit i Returned).
    split; [done|]. split; [done|]. cbn [step]. rewrite Hi. by eexists.
  - exists i, (mkTask (Exiting how) a r), (EvRecv i).
    split; [done|]. split; [done|].
    by eapply pool_facts.release_enabled.
  - exists i, (mkTask Released a r), (EvDone i).
    split; [done|]. split; [done|]. cbn [step]. rewrite Hi. by eexists.
Qed.

End pool_progress.

(** ** Facts about the instances of a launched pool *)

Module browser_ids.
Import browser browserspec.

Section WithChrome.

Variable warmup : nat -> option error.

(** A loop that succeeds appends exactly these instances. *)
Lemma launchLoop_new (todo : nat) (i : Z) (instances : Instances)
    (w : World) :
  match launchLoop warmup todo i instances w with
  | (is_, None, w') =>
      is_ = instances ++ map (launchedAt w i) (seq 0 todo)
  | _ => True
  end.
Proof.
  revert i instances w. induction todo as [|todo IH]; intros i instances w.
  - cbn. by rewrite app_nil_r.
  - cbn [launchLoop]. unfold launchOne, newContext.
    cbn [live next launched].
    destruct (warmup (launched w)) as [err|]; [done|].
    cbn [AllocCancel Ctx cancel].
    set (w1 := mkWorld _ _ _).
    set (inst := mkInstance _ _ _ i).
    specialize (IH (i + 1) (instances ++ [inst]) w1).
    destruct (launchLoop warmup todo (i + 1) (instances ++ [inst]) w1)
      as [[is_ [err|]] w']; [done|].
    rewrite IH, <- app_assoc. f_equal. cbn [seq map app].
    f_equal.
    + unfold launchedAt, inst. f_equal; try (f_equal; lia); lia.
    + rewrite <- seq_shift, map_map. apply map_ext. intros k.
      unfold launchedAt, w1. cbn [next]. f_equal; try (f_equal; lia); lia.
Qed.

Lemma LaunchPool_new (n : Z) (w : World) :
  match LaunchPool warmup n w with
  | (is_, None, w') =>
      is_ = map (launchedAt w 0) (seq 0 (Z.to_nat (Z.max 1 n)))
  | _ => True
  end.
Proof.
  unfold LaunchPool.
  replace (if n <? 1 then 1 else n) with (Z.max 1 n)
    by (destruct (Z.ltb_spec n 1); lia).
  apply (launchLoop_new (Z.to_nat (Z.max 1 n)) 0 [] w).
Qed.

End WithChrome.

Lemma lookup_launched (w : World) (i : Z) (n k : nat) (it : Instance) :
  map (launchedAt w i) (seq 0 n) !! k = Some it ->
  (k < n)%nat /\ it = launchedAt w i k.
Proof.
  rewrite list_lookup_fmap. intros Hk.
  destruct (seq 0 n !! k) as [j|] eqn:Hj; [|done].
  apply lookup_seq in Hj as [-> Hlt]. cbn in Hk.
  inversion Hk. done.
Qed.

(** What the launched instances own lies at or above the first handle of
    the call. *)
Lemma owned_launched (w : World) (i : Z) (n : nat) (h : handle) :
  h ∈ ownedAll (map (launchedAt w i) (seq 0 n)) -> (next w <= h)%nat.
Proof.
  unfold ownedAll. rewrite elem_of_union_list.
  intros (X & HX & Hh). apply list_elem_of_fmap in HX as (it & -> & Hit).
  apply list_elem_of_fmap in Hit as (k & -> & _).
  unfold owned, launchedAt in Hh. cbn in Hh.
  apply elem_of_union in Hh as [Hh|Hh]; apply elem_of_singleton in Hh; lia.
Qed.

(** A launch that succeeds: the instances, their number, and that they are
    open. *)
Lemma LaunchPool_launched (warmup : nat -> option error) (n : Z)
    (w w' : World) (is_ : Instances) :
  fresh w ->
  LaunchPool warmup n w = (is_, None, w') ->
  is_ = map (launchedAt w 0) (seq 0 (Z.to_nat (Z.max 1 n)))
  /\ length is_ = Z.to_nat (Z.max 1 n)
  /\ Forall (isOpen w') is_
  /\ live w' = live w ∪ ownedAll is_.
Proof.
  intros Hfresh Hlaunch.
  pose proof (browser_facts.LaunchPool_spec warmup n w Hfresh) as Hspec.
  pose proof (LaunchPool_new warmup n w) as Hnew.
  rewrite Hlaunch in Hspec, Hnew.
  by destruct Hspec as (_ & Hlen & Hlive & Hopen).
Qed.

End browser_ids.

(** ** More facts about binary64: the ratio as a fraction *)

Module float_more.
Import float64spec float_facts.

Lemma float64_zero : Prim2SF (float64 0) = S754_zero false.
Proof. reflexivity. Qed.

Lemma float64_positive (z : Z) :
  0 < z < 2 ^ 63 ->
  Prim2SF (float64 z)
  = S754_finite false (Z.to_pos (normalForm z).1) (normalForm z).2.
Proof.
  intros Hz. rewrite Prim2SF_float64 by lia. by apply normalize_spec.
Qed.

Lemma float64_negative (z : Z) :
  - 2 ^ 63 < z < 0 ->
  Prim2SF (float64 z)
  = S754_finite true (Z.to_pos (normalForm (- z)).1) (normalForm (- z)).2.
Proof.
  intros Hz. unfold float64.
  destruct (Z.eqb_spec z (- 2 ^ 63)); [lia|].
  destruct (Z.ltb_spec z 0); [|lia].
  rewrite FloatAxioms.opp_spec, FloatAxioms.of_uint63_spec, Uint63.of_Z_spec.
  rewrite Z.mod_small by (change Uint63Axioms.wB with (2 ^ 63); lia).
  by rewrite normalize_spec by lia.
Qed.

(** The clamp of a threshold of zero or less is zero. *)
Lemma math_Max_nonpositive (z : Z) :
  - 2 ^ 63 < z <= 0 -> math_Max 0 (float64 z) = 0%float.
Proof.
  intros Hz. destruct (Z.eq_dec z 0) as [->|Hnz]; [reflexivity|].
  pose proof (float64_negative z ltac:(lia)) as Hy.
  unfold math_Max.
  assert (Hinf : (float64 z =? infinity)%float = false).
  { rewrite FloatAxioms.eqb_spec, Hy. done. }
  assert (Hnan : is_nan (float64 z) = false) by (by rewrite is_nan_spec, Hy).
  assert (Hzero : (0 =? float64 z)%float = false).
  { rewrite FloatAxioms.eqb_spec, Hy. done. }
  assert (Hneg : (float64 z <? 0)%float = true).
  { rewrite FloatAxioms.ltb_spec, Hy. done. }
  change (0 =? infinity)%float with false. change (is_nan 0) with false.
  change (0 =? 0)%float with true.
  by rewrite Hinf, Hnan, Hzero, Hneg.
Qed.

(** No differing pixel: the ratio is zero. *)
Lemma ratio_zero (t : Z) :
  0 < t < 2 ^ 63 -> (float64 0 / float64 t)%float = 0%float.
Proof.
  intros Ht. apply FloatAxioms.Prim2SF_inj.
  rewrite FloatAxioms.div_spec, float64_zero, float64_positive by lia.
  reflexivity.
Qed.

(** Some differing pixel: the ratio is a positive float. *)
Lemma ratio_positive (k t : Z) :
  0 < k <= t -> t < 2 ^ 63 ->
  exists m e,
    Prim2SF (float64 k / float64 t) = S754_finite false m e
    /\ lexle (Z.pos m, e) one_nf.
Proof.
  intros Hk Ht.
  rewrite FloatAxioms.div_spec, !float64_positive by lia.
  pose proof (normalForm_canonical k ltac:(lia)) as [Hmk Hek].
  pose proof (normalForm_canonical t ltac:(lia)) as [Hmt Het].
  destruct (SFdiv_le_one (Z.to_pos (normalForm k).1)
              (Z.to_pos (normalForm t).1)
              (normalForm k).2 (normalForm t).2)
    as (m & e & Hdiv & Hone); try rewrite !Z2Pos.id by lia; try lia.
  { pose proof (normalForm_mono k t ltac:(lia) ltac:(lia)) as Hmono.
    unfold lexle in *. cbn [fst snd]. lia. }
  exists m, e. unfold SF64div. by rewrite Hdiv.
Qed.

Lemma Prim2SF_one : Prim2SF 1%float = S754_finite false (Z.to_pos (2 ^ 52)) (- 52).
Proof. reflexivity. Qed.

(** The ratio of a count to a total is a fraction: between zero and one,
    and zero only for the count zero. *)
Lemma ratio_range (k t : Z) :
  0 <= k <= t -> 0 < t < 2 ^ 63 ->
  (0 <=? float64 k / float64 t)%float = true
  /\ (float64 k / float64 t <=? 1)%float = true
  /\ ((float64 k / float64 t <=? 0)%float = (k =? 0)).
Proof.
  intros Hk Ht. destruct (Z.eq_dec k 0) as [->|Hk0].
  - rewrite ratio_zero by lia. done.
  - destruct (ratio_positive k t) as (m & e & Hr & Hone); [lia|lia|].
    rewrite !FloatAxioms.leb_spec, Hr, Prim2SF_zero, Prim2SF_one.
    split; [done|]. split.
    + apply SFleb_lexle. unfold one_nf in Hone.
      unfold lexle in *. cbn [fst snd] in *. rewrite Z2Pos.id by lia. lia.
    + destruct (Z.eqb_spec k 0); [lia|done].
Qed.

End float_more.

(** ** More facts about the comparison *)

Module diff_more.
Import diff diffspec diff_facts.

Lemma mismatch_refl (c : Color) : mismatch c c = false.
Proof. unfold mismatch. by rewrite !Z.eqb_refl. Qed.

Lemma mismatch_sym (c d : Color) : mismatch c d = mismatch d c.
Proof.
  unfold mismatch.
  by rewrite (Z.eqb_sym (cR c)), (Z.eqb_sym (cG c)), (Z.eqb_sym (cB c)),
    (Z.eqb_sym (cA c)).
Qed.

Lemma filter_none {A} (f : A -> bool) (l : list A) :
  (forall x, f x = false) -> List.filter f l = [].
Proof.
  intros Hf. induction l as [|x l IH]; [done|].
  cbn [List.filter]. by rewrite Hf.
Qed.

(** An image differs from itself in no pixel. *)
Lemma countMismatch_refl (a : Image) (w h : Z) : countMismatch a a w h = 0.
Proof.
  unfold countMismatch. rewrite filter_none; [done|].
  intros p. apply mismatch_refl.
Qed.

Lemma countMismatch_sym (a b : Image) (w h : Z) :
  countMismatch a b w h = countMismatch b a w h.
Proof.
  unfold countMismatch. f_equal. f_equal. apply filter_ext.
  intros p. apply mismatch_sym.
Qed.

(** No differing pixel: the images agree wherever the loops look. *)
Lemma countMismatch_zero (a b : Image) (w h : Z) :
  countMismatch a b w h = 0
  <-> forall x y, 0 <= x < w -> 0 <= y < h ->
        mismatch (At a x y) (At b x y) = false.
Proof.
  unfold countMismatch. split.
  - intros Hz x y Hx Hy.
    destruct (mismatch (At a x y) (At b x y)) eqn:Hm; [|done].
    assert (Hin : In (x, y) (List.filter (differs a b) (positions w h))).
    { apply filter_In. split; [by apply elem_of_positions|done]. }
    destruct (List.filter (differs a b) (positions w h)); [done|].
    cbn [length] in Hz. lia.
  - intros Hall.
    assert (Hnil : List.filter (differs a b) (positions w h) = []).
    { destruct (List.filter (differs a b) (positions w h)) as [|p l] eqn:Hf;
        [done|].
      assert (Hin : In p (List.filter (differs a b) (positions w h))).
      { rewrite Hf. by left. }
      apply filter_In in Hin as [Hpos Hd]. destruct p as [x y].
      apply elem_of_positions in Hpos as [Hx Hy].
      unfold differs in Hd. cbn [fst snd] in Hd.
      by rewrite (Hall x y Hx Hy) in Hd. }
    by rewrite Hnil.
Qed.

Section WithLibraries.

Variable png_Decode : list Byte.byte -> option Image.
Variable png_Encode : Image -> option (list Byte.byte).
Variable Resize : Z -> Z -> Image -> Interpolation -> Image.
Variable ImageHash : Type.
Variable PerceptionHash : Image -> option ImageHash.
Variable Distance : ImageHash -> ImageHash -> option Z.

Local Abbreviation pixelDiff := (diff.pixelDiff Resize).
Local Abbreviation pHashDistance :=
  (diff.pHashDistance Resize ImageHash PerceptionHash Distance).
Local Abbreviation savePNG := (diff.savePNG png_Encode).
Local Abbreviation openPNG := (diff.openPNG png_Decode).
Local Abbreviation CompareFiles :=
  (diff.CompareFiles png_Decode png_Encode Resize ImageHash
     PerceptionHash Distance).

(** Images of one size are compared as they are. *)
Lemma rescaled_same_size (a b : Image) :
  Dx (Bounds b) = Dx (Bounds a) -> Dy (Bounds b) = Dy (Bounds a) ->
  rescaled Resize a b = b.
Proof.
  intros Hx Hy. unfold rescaled. by rewrite Hx, Hy, !Z.eqb_refl.
Qed.

(** The errors of [pixelDiff] and [pHashDistance]. *)
Lemma pixelDiff_error (a b : Image) (threshold : float) px img e :
  pixelDiff a b threshold = (px, img, Some e) ->
  px = zeroPixelResult /\ e = ErrSizeMismatch.
Proof.
  rewrite pixelDiff_unfold. cbn zeta.
  destruct (negb _ || negb _); intros H; by inversion H.
Qed.

Lemma pHashDistance_error (a b : Image) (allowed : Z) ph e :
  pHashDistance a b allowed = (ph, Some e) -> e = ErrHash.
Proof.
  unfold diff.pHashDistance.
  destruct (PerceptionHash _); [|by intros H; inversion H].
  destruct (PerceptionHash _); [|by intros H; inversion H].
  destruct (Distance _ _); intros H; by inversion H.
Qed.

(** A comparison that fails. *)
Lemma CompareFiles_error (fs : os.FileSystem) (baselinePath : string)
    (buf : list Byte.byte) (diffPath : string) (pxThreshold : float)
    (phThreshold : Z) px ph e fs' :
  CompareFiles fs baselinePath buf diffPath pxThreshold phThreshold
  = (px, ph, Some e, fs') ->
  px = zeroPixelResult /\ ph = zeroPHashResult /\ fs' = fs
  /\ match os.files fs !! baselinePath with
     | None => e = ErrNotExist baselinePath
     | Some data =>
         match png_Decode data, png_Decode buf with
         | Some a, Some b =>
             (e = ErrSizeMismatch
              /\ exists px0 img,
                   pixelDiff a b (math_Max 0 pxThreshold)
                   = (px0, img, Some ErrSizeMismatch))
             \/ (e = ErrHash
                 /\ exists ph0,
                      pHashDistance a b phThreshold = (ph0, Some ErrHash))
         | _, _ => e = ErrDecode
         end
     end.
Proof.
  unfold diff.CompareFiles, diff.openPNG, os.Open.
  destruct (os.files fs !! baselinePath) as [data|] eqn:Hfile;
    [|by intros H; inversion H].
  destruct (png_Decode data) as [a|] eqn:Ha; [|by intros H; inversion H].
  destruct (png_Decode buf) as [b|] eqn:Hb; [|by intros H; inversion H].
  destruct (pixelDiff a b (math_Max 0 pxThreshold))
    as [[px0 img] [e0|]] eqn:Hpx.
  { destruct (pixelDiff_error _ _ _ _ _ _ Hpx) as [_ ->].
    intros H.
    assert (H' : (zeroPixelResult, zeroPHashResult, Some ErrSizeMismatch, fs)
                 = (px, ph, Some e, fs')) by (by destruct img).
    inversion H'; subst. repeat split; try done.
    left. split; [done|]. by exists px0, img. }
  destruct img as [diffImg|].
  2:{ rewrite pixelDiff_unfold in Hpx. cbn zeta in Hpx.
      by destruct (negb _ || negb _). }
  destruct (pHashDistance a b phThreshold) as [ph0 [e0|]] eqn:Hph.
  { pose proof (pHashDistance_error _ _ _ _ _ Hph) as ->.
    intros H. inversion H; subst. repeat split; try done.
    right. split; [done|]. by exists ph0. }
  destruct (negb (Pass px0)); [destruct (diff.savePNG _ _ _ _)|];
    intros H; inversion H.
Qed.

End WithLibraries.

End diff_more.

(** ** The pixel metric and the diff artifact *)

Section DiffClaims.
Import diff diffspec diff_facts.

Variable png_Decode : list Byte.byte -> option Image.
Variable png_Encode : Image -> option (list Byte.byte).
Variable Resize : Z -> Z -> Image -> Interpolation -> Image.
Variable ImageHash : Type.
Variable PerceptionHash : Image -> option ImageHash.
Variable Distance : ImageHash -> ImageHash -> option Z.

Local Abbreviation pixelDiff := (diff.pixelDiff Resize).
Local Abbreviation pHashDistance :=
  (diff.pHashDistance Resize ImageHash PerceptionHash Distance).
Local Abbreviation savePNG := (diff.savePNG png_Encode).
Local Abbreviation CompareFiles :=
  (diff.CompareFiles png_Decode png_Encode Resize ImageHash
     PerceptionHash Distance).


(** C6, as the code has it.  For every comparison that completes: when the
    pixel comparison passes, the file system is left as it was and
    [DiffImagePath] is empty; when it fails, [DiffImagePath] is the diff
    path and the diff image, a copy of the baseline with every mismatched
    pixel in the marker colour, is saved there, the error of the save being
    discarded: the file holds the encoded image when it could be created
    and encoded, and nothing is written when it could not be created. *)
Theorem C6_diff_artifact
    (fs : os.FileSystem) (baselinePath : string) (buf : list Byte.byte)
    (diffPath : string) (pxThreshold : float) (phThreshold : Z)
    (px : PixelResult) (ph : PHashResult) (fs' : os.FileSystem) :
  CompareFiles fs baselinePath buf diffPath pxThreshold phThreshold
  = (px, ph, None, fs') ->
  exists data a b diffImg,
    os.files fs !! baselinePath = Some data
    /\ png_Decode data = Some a
    /\ png_Decode buf = Some b
    /\ (0 <= Dx (Bounds a) -> 0 <= Dy (Bounds a) ->
        forall x y,
          At diffImg x y = markedCopy a (rescaled Resize a b) x y)
    /\ (Pass px = true -> fs' = fs /\ DiffImagePath px = "")
    /\ (Pass px = false ->
        DiffImagePath px = diffPath
        /\ fs' = (savePNG fs diffPath diffImg).1
        /\ (os.creatable fs diffPath = false -> fs' = fs)
        /\ (forall bytes,
              os.creatable fs diffPath = true ->
              png_Encode diffImg = Some bytes ->
              os.files fs' !! diffPath = Some bytes)).
Proof.
  intros Hcmp.
  destruct (CompareFiles_inv png_Decode png_Encode Resize ImageHash
              PerceptionHash Distance _ _ _ _ _ _ _ _ _ Hcmp)
    as (data & a & b & px0 & diffImg & Hfile & Ha & Hb & Hpx & Hph).
  rewrite (CompareFiles_ok png_Decode png_Encode Resize ImageHash
             PerceptionHash Distance fs baselinePath buf diffPath
             pxThreshold phThreshold data a b px0 diffImg ph
             Hfile Ha Hb Hpx Hph) in Hcmp.
  destruct (pixelDiff_inv Resize _ _ _ _ _ Hpx)
    as (_ & _ & _ & Hpath & Himg).
  exists data, a, b, diffImg. repeat split; try done.
  - destruct (Pass px0); inversion Hcmp; subst; done.
  - destruct (Pass px0) eqn:Hp0; inversion Hcmp; subst; [done|].
    cbn [Pass] in H. congruence.
  - destruct (Pass px0) eqn:Hp0; inversion Hcmp; subst; [|done].
    congruence.
  - destruct (Pass px0) eqn:Hp0; inversion Hcmp; subst; [|done].
    congruence.
  - intros Hro. destruct (Pass px0) eqn:Hp0; inversion Hcmp; subst;
      [congruence|].
    unfold diff.savePNG, os.Create. by rewrite Hro.
  - intros bytes Hcr Henc.
    destruct (Pass px0) eqn:Hp0; inversion Hcmp; subst; [congruence|].
    unfold diff.savePNG, os.Create. rewrite Hcr, Henc.
    cbn [fst os.Write_ os.files]. apply lookup_insert_eq.
Qed.

End DiffClaims.


(** C6 as stated fails where the diff file cannot be created: the pixel
    comparison fails, the path is reported, and no artifact exists. *)
Lemma C6_counterexample :
  let fs := fixture.readOnlyDisk [("b", fixture.blackBlack)] in
  let r := fixture.CompareFiles fs "b" fixture.blackWhite "d" 0%float 10 in
  r.1.2 = None
  /\ diff.Pass r.1.1.1 = false
  /\ diff.DiffImagePath r.1.1.1 = "d"
  /\ os.files r.2 !! "d" = None.
Proof. vm_compute. repeat split. Qed.

(** C6 where the pixel comparison fails and the file can be created: the
    artifact is on the disk afterwards. *)
Lemma C6_witness :
  let fs := fixture.disk [("b", fixture.blackBlack)] in
  let px := diff.mkPixelResult false 0.5 "d" in
  let fs' := fixture.disk [("d", fixture.bytes [2; 1; 0; 255]);
                           ("b", fixture.blackBlack)] in
  fixture.CompareFiles fs "b" fixture.blackWhite "d" 0%float 10
  = (px, diff.mkPHashResult true 0, None, fs')
  /\ exists data a b diffImg,
      os.files fs !! "b" = Some data
      /\ fixture.png_Decode data = Some a
      /\ fixture.png_Decode fixture.blackWhite = Some b
      /\ (0 <= Dx (Bounds a) -> 0 <= Dy (Bounds a) ->
          forall x y,
            At diffImg x y
            = diffspec.markedCopy a (diffspec.rescaled fixture.Resize a b)
                x y)
      /\ (diff.Pass px = true -> fs' = fs /\ diff.DiffImagePath px = "")
      /\ (diff.Pass px = false ->
          diff.DiffImagePath px = "d"
          /\ fs' = (diff.savePNG fixture.png_Encode fs "d" diffImg).1
          /\ (os.creatable fs "d" = false -> fs' = fs)
          /\ (forall bytes,
                os.creatable fs "d" = true ->
                fixture.png_Encode diffImg = Some bytes ->
                os.files fs' !! "d" = Some bytes)).
Proof.
  intros fs px fs'.
  assert (Hcmp :
    fixture.CompareFiles fs "b" fixture.blackWhite "d" 0%float 10
    = (px, diff.mkPHashResult true 0, None, fs')).
  { vm_compute. reflexivity. }
  split; [exact Hcmp|].
  exact (C6_diff_artifact fixture.png_Decode fixture.png_Encode
           fixture.Resize fixture.ImageHash fixture.PerceptionHash
           fixture.Distance fs "b" fixture.blackWhite "d" 0%float 10
           px (diff.mkPHashResult true 0) fs' Hcmp).
Defined.
(** ** The task loop and the report *)

Section MainClaims.
Import main mainspec main_facts.

Variable png_Decode : list Byte.byte -> option Image.
Variable png_Encode : Image -> option (list Byte.byte).
Variable Resize : Z -> Z -> Image -> diff.Interpolation -> Image.
Variable ImageHash : Type.
Variable PerceptionHash : Image -> option ImageHash.
Variable Distance : ImageHash -> ImageHash -> option Z.
Variable filepath_Join : list string -> string.
Variable Capture :
  snapshot.Context -> browser.Instance -> string -> string -> Z -> Z ->
  list string -> list Byte.byte * option error.
Variable rnd : nat -> nat.
Variable flags : main.Flags.
Variable baseDir : string.
Variable cfg : config.OsnapBaseConfig.
Variable brs : browser.Instances.

Local Abbreviation task :=
  (main.task png_Decode png_Encode Resize ImageHash PerceptionHash Distance
     filepath_Join Capture rnd flags baseDir cfg brs).
Local Abbreviation run :=
  (main.run png_Decode png_Encode Resize ImageHash PerceptionHash
     Distance filepath_Join Capture rnd flags baseDir cfg brs).
Local Abbreviation outcome :=
  (mainspec.outcome png_Decode png_Encode Resize ImageHash PerceptionHash
     Distance filepath_Join Capture flags baseDir cfg).
Local Abbreviation captured :=
  (mainspec.captured filepath_Join Capture flags baseDir).
Local Abbreviation compared :=
  (mainspec.compared png_Decode png_Encode Resize ImageHash PerceptionHash
     Distance filepath_Join baseDir cfg).

(** C5.  For every list of N cases and every order in which the tasks of
    the submitted cases complete, the run returns a report whose case list
    has length N, and the slot at index [i] holds the result of the case
    submitted at index [i]: each task writes its own slot in place. *)
Theorem C5_results_positional (configs : list config.OsnapConfig)
    (order : list nat) (fs0 : os.FileSystem) (now : string) :
  brs <> [] ->
  main.schedule flags configs order ->
  exists rep st,
    run configs order fs0 now = Some (rep, st)
    /\ length (report.Cases rep) = length configs
    /\ forall i s,
         main.configsToProcess flags configs !! i = Some s ->
         exists b fs1,
           report.Cases rep !! i = Some (outcome s b fs1).1
           /\ report.Name (outcome s b fs1).1 = config.Name s
           /\ report.URL (outcome s b fs1).1 = config.URL s.
Proof.
  intros Hne Hsched.
  destruct (run_spec png_Decode png_Encode Resize ImageHash PerceptionHash
              Distance filepath_Join Capture rnd flags baseDir cfg brs
              configs order fs0 now Hne Hsched)
    as (rep & st & Hrun & Hcases & _ & _ & Hlen & Hin & _).
  exists rep, st. rewrite Hcases. repeat split; try done.
  intros i s Hs.
  destruct (Hin i) as (r & Hr & s' & b & fs1 & Hs' & ->).
  { by eapply lookup_lt_Some. }
  rewrite Hs in Hs'. inversion Hs'; subst s'.
  exists b, fs1. split; [done|].
  pose proof (outcome_names png_Decode png_Encode Resize ImageHash
                PerceptionHash Distance filepath_Join Capture flags baseDir
                cfg s b fs1) as (Hn & Hu & _).
  done.
Qed.

(** C10.  For every case whose capture and comparison both succeed, the
    task stores the pixel result and the perceptual result side by side, and
    the status is pass when the pixel result passes and fail when it does
    not, whatever the perceptual result is. *)
Theorem C10_status_from_pixel_metric (i : nat) (s : config.OsnapConfig)
    (st : RunState) (b : browser.Instance) (buf : list Byte.byte)
    (df : diff.PixelResult) (ph : diff.PHashResult) (fs' : os.FileSystem) :
  browser.Pick brs (rnd i) = Some b ->
  (i < length (results st))%nat ->
  captured s b = (buf, None) ->
  compared s buf (fs st) = (df, ph, None, fs') ->
  exists st' r,
    task i s st = Some st'
    /\ results st' !! i = Some r
    /\ report.Status r = (if diff.Pass df then "pass" else "fail")
    /\ report.PixelDiff r = Some df
    /\ report.PercepDiff r = Some ph.
Proof.
  intros Hpick Hi Hcap Hcmp.
  destruct (task_spec png_Decode png_Encode Resize ImageHash PerceptionHash
              Distance filepath_Join Capture rnd flags baseDir cfg brs
              i s st b Hpick Hi) as [out Ht].
  eexists _, _. split; [exact Ht|]. cbn [results].
  split; [by apply list_lookup_insert_eq|].
  unfold mainspec.outcome. rewrite Hcap, Hcmp. done.
Qed.

(** C3.  The task hands the integer threshold of the case, converted to
    [float64], to the pixel comparison, which compares it with the ratio, a
    fraction of at most one.  So for every case whose threshold in force is
    at least 1, and every candidate image, the pixel comparison passes and
    the status is pass, whatever the number of differing pixels.  The
    threshold of the base configuration is checked to lie between 0 and
    100. *)
Theorem C3_integer_threshold_always_passes (i : nat)
    (s : config.OsnapConfig) (st : RunState) (inst : browser.Instance)
    (buf data : list Byte.byte) (a b : Image) (ph : diff.PHashResult) :
  let thr := mainspec.effectiveThreshold cfg s in
  let b' := diffspec.rescaled Resize a b in
  let w := Dx (Bounds a) in
  let h := Dy (Bounds a) in
  1 <= thr < 2 ^ 63 ->
  browser.Pick brs (rnd i) = Some inst ->
  (i < length (results st))%nat ->
  captured s inst = (buf, None) ->
  os.files (fs st) !! main.baselinePathOf filepath_Join baseDir s
  = Some data ->
  png_Decode data = Some a ->
  png_Decode buf = Some b ->
  Dx (Bounds b') = w -> Dy (Bounds b') = h ->
  0 < w -> 0 < h -> w * h < 2 ^ 63 ->
  diff.pHashDistance Resize ImageHash PerceptionHash Distance a b 10
  = (ph, None) ->
  compared s buf (fs st)
  = (diff.mkPixelResult true (diffspec.ratioOf Resize a b) "", ph, None,
     fs st)
  /\ (exists st' r,
        task i s st = Some st'
        /\ results st' !! i = Some r
        /\ report.Status r = "pass"
        /\ report.PixelDiff r
           = Some (diff.mkPixelResult true (diffspec.ratioOf Resize a b) ""))
  /\ (config.checkBase cfg = None -> 0 <= config.BaseThreshold cfg <= 100).
Proof.
  intros thr b' w h Hthr Hpick Hi Hcap Hfile Ha Hb Hdx Hdy Hw Hh Hwh Hph.
  destruct (diff_facts.pixelDiff_integer_threshold Resize a b thr)
    as (diffImg & Hpx); try done.
  assert (Hcmp : compared s buf (fs st)
                 = (diff.mkPixelResult true (diffspec.ratioOf Resize a b) "",
                    ph, None, fs st)).
  { unfold mainspec.compared. fold thr.
    by rewrite (diff_facts.CompareFiles_ok png_Decode png_Encode Resize
                  ImageHash PerceptionHash Distance (fs st) _ buf _ _ 10
                  data a b _ diffImg ph Hfile Ha Hb Hpx Hph). }
  split; [exact Hcmp|]. split; [|apply checkBase_threshold].
  destruct (task_spec png_Decode png_Encode Resize ImageHash PerceptionHash
              Distance filepath_Join Capture rnd flags baseDir cfg brs
              i s st inst Hpick Hi) as [out Ht].
  eexists _, _. split; [exact Ht|]. cbn [results].
  split; [by apply list_lookup_insert_eq|].
  unfold mainspec.outcome. rewrite Hcap, Hcmp. done.
Qed.

End MainClaims.

(** C3 on a case with the threshold 1 whose candidate differs from the
    baseline in one pixel of two: the status is pass. *)
Lemma C3_witness :
  let s := fixture.storyWithThreshold "a" 1 in
  let st := main.mkRun [report.zeroCaseResult]
              (fixture.disk [(fixture.baselinePathOf s, fixture.blackBlack)])
              [] in
  let a := fixture.imageOf fixture.blackBlack in
  let b := fixture.imageOf fixture.blackWhite in
  mainspec.compared fixture.png_Decode fixture.png_Encode fixture.Resize
    fixture.ImageHash fixture.PerceptionHash fixture.Distance
    fixture.filepath_Join "proj" fixture.base s fixture.blackWhite
    (main.fs st)
  = (diff.mkPixelResult true (diffspec.ratioOf fixture.Resize a b) "",
     diff.mkPHashResult true 0, None, main.fs st)
  /\ (exists st' r,
        fixture.task fixture.noLimit 0%nat s st = Some st'
        /\ main.results st' !! 0%nat = Some r
        /\ report.Status r = "pass"
        /\ report.PixelDiff r
           = Some (diff.mkPixelResult true
                     (diffspec.ratioOf fixture.Resize a b) ""))
  /\ (config.checkBase fixture.base = None ->
      0 <= config.BaseThreshold fixture.base <= 100).
Proof.
  intros s st a b.
  apply (C3_integer_threshold_always_passes fixture.png_Decode
           fixture.png_Encode fixture.Resize fixture.ImageHash
           fixture.PerceptionHash fixture.Distance fixture.filepath_Join
           fixture.Capture (fun _ => 0%nat) fixture.noLimit "proj"
           fixture.base [fixture.instance0] 0%nat s st fixture.instance0
           fixture.blackWhite fixture.blackBlack a b
           (diff.mkPHashResult true 0)).
  - vm_compute. split; [discriminate|reflexivity].
  - reflexivity.
  - vm_compute. lia.
  - reflexivity.
  - vm_compute. reflexivity.
  - vm_compute. reflexivity.
  - vm_compute. reflexivity.
  - vm_compute. reflexivity.
  - vm_compute. reflexivity.
  - vm_compute. reflexivity.
  - vm_compute. reflexivity.
  - vm_compute. reflexivity.
  - vm_compute. reflexivity.
Defined.

(** C5 on two cases whose tasks complete in the reverse order. *)
Lemma C5_witness :
  exists rep st,
    fixture.run fixture.noLimit [fixture.story "a"; fixture.story "b"]
      [1%nat; 0%nat] (fixture.disk []) "now" = Some (rep, st)
    /\ length (report.Cases rep) = 2%nat
    /\ forall i s,
         main.configsToProcess fixture.noLimit
           [fixture.story "a"; fixture.story "b"] !! i = Some s ->
         exists b fs1,
           report.Cases rep !! i
           = Some (mainspec.outcome fixture.png_Decode fixture.png_Encode
                     fixture.Resize fixture.ImageHash fixture.PerceptionHash
                     fixture.Distance fixture.filepath_Join fixture.Capture
                     fixture.noLimit "proj" fixture.base s b fs1).1
           /\ report.Name
                (mainspec.outcome fixture.png_Decode fixture.png_Encode
                   fixture.Resize fixture.ImageHash fixture.PerceptionHash
                   fixture.Distance fixture.filepath_Join fixture.Capture
                   fixture.noLimit "proj" fixture.base s b fs1).1
              = config.Name s
           /\ report.URL
                (mainspec.outcome fixture.png_Decode fixture.png_Encode
                   fixture.Resize fixture.ImageHash fixture.PerceptionHash
                   fixture.Distance fixture.filepath_Join fixture.Capture
                   fixture.noLimit "proj" fixture.base s b fs1).1
              = config.URL s.
Proof.
  apply (C5_results_positional fixture.png_Decode fixture.png_Encode
           fixture.Resize fixture.ImageHash fixture.PerceptionHash
           fixture.Distance fixture.filepath_Join fixture.Capture
           (fun _ => 0%nat) fixture.noLimit "proj" fixture.base
           [fixture.instance0]
           [fixture.story "a"; fixture.story "b"] [1%nat; 0%nat]
           (fixture.disk []) "now").
  - discriminate.
  - unfold main.schedule. vm_compute. apply perm_swap.
Defined.

(** C10 on a case whose pixel comparison fails while its perceptual
    comparison passes: the status is fail. *)
Lemma C10_witness :
  let s := fixture.story "a" in
  let st := main.mkRun [report.zeroCaseResult]
              (fixture.disk [(fixture.baselinePathOf s, fixture.blackBlack)])
              [] in
  exists st' r,
    fixture.task fixture.noLimit 0%nat s st = Some st'
    /\ main.results st' !! 0%nat = Some r
    /\ report.Status r = "fail"
    /\ report.PixelDiff r
       = Some (diff.mkPixelResult false 0.5 (fixture.diffPathOf s))
    /\ report.PercepDiff r = Some (diff.mkPHashResult true 0).
Proof.
  intros s st.
  apply (C10_status_from_pixel_metric fixture.png_Decode fixture.png_Encode
           fixture.Resize fixture.ImageHash fixture.PerceptionHash
           fixture.Distance fixture.filepath_Join fixture.Capture
           (fun _ => 0%nat) fixture.noLimit "proj" fixture.base
           [fixture.instance0] 0%nat s st fixture.instance0
           fixture.blackWhite
           (diff.mkPixelResult false 0.5 (fixture.diffPathOf s))
           (diff.mkPHashResult true 0)
           (fixture.disk [(fixture.diffPathOf s, fixture.bytes [2; 1; 0; 255]);
                          (fixture.baselinePathOf s, fixture.blackBlack)])).
  - reflexivity.
  - vm_compute. lia.
  - reflexivity.
  - vm_compute. reflexivity.
Defined.

(** C1 on a case whose baseline file does not exist while its capture
    succeeds: the task reports the status error, with the error of the
    failed open as text; the status no-baseline is not reached. *)
Lemma C1_missing_baseline_is_error :
  let s := fixture.story "a" in
  let st := main.mkRun [report.zeroCaseResult] (fixture.disk []) [] in
  os.files (main.fs st) !! fixture.baselinePathOf s = None
  /\ exists st',
       fixture.task fixture.noLimit 0%nat s st = Some st'
       /\ report.Status <$> main.results st' !! 0%nat = Some "error"
       /\ report.Error_ <$> main.results st' !! 0%nat
          = Some (Error (ErrNotExist (fixture.baselinePathOf s)))
       /\ main.fs st' = main.fs st.
Proof.
  intros s st. split; [reflexivity|].
  eexists. split; [vm_compute; reflexivity|].
  repeat split.
Qed.

(** C4 on two cases of which the limit lets one be processed: the report
    counts two cases in total, one of them errored, and the slot of the
    other case holds the zero value, whose status is empty. *)
Lemma C4_limit_breaks_partition :
  exists rep st,
    fixture.run fixture.limitOne [fixture.story "a"; fixture.story "b"]
      [0%nat] (fixture.disk []) "now" = Some (rep, st)
    /\ report.Total rep = 2
    /\ mainspec.counted rep = 1
    /\ report.Status <$> report.Cases rep !! 1%nat = Some "".
Proof.
  eexists _, _. split; [vm_compute; reflexivity|].
  repeat split.
Qed.
(** ** The capture *)

(** C9.  The wait for the selectors is not bounded.  [Capture] runs its
    actions in a context derived from that of the instance and does not
    read the context of its caller, and a query of [waitAny] waits until
    its selector is ready or that context is done.  So while the context
    of the instance stays open, [waitAny] on a list that begins with [sel]
    returns when [sel] is ready, however late, and blocks when [sel] never
    is, whatever the other selectors do: it never returns its timeout
    error.  The timeout is reached with the context of the instance
    cancelled: then, with sleeps that do not overshoot, the error comes
    fifty milliseconds after the ten seconds.  On a page whose selectors
    are ready after an hour, [Capture] called with a deadline of thirty
    seconds returns the screenshot and no error, after the hour; on a page
    on which no selector is ever ready it does not return; and on a page
    without [#storybook-root] it does not return although [#root] is
    ready. *)
Theorem C9_selector_wait_is_not_bounded :
  (forall (pg : snapshot.Page) (sel : string) (rest : list string)
          (rounds : nat) (start : N),
     snapshot.cancelled pg = None ->
     snapshot.waitAny (S rounds) pg (sel :: rest) (10 * snapshot.Second)
       start
     = Some match snapshot.readyAfter pg sel start with
            | Some d => snapshot.Returns None (start + d)%N
            | None => snapshot.Blocks
            end)
  /\ (forall (pg : snapshot.Page) (selectors : list string)
             (rounds : nat) (start t : N),
        snapshot.waitAny rounds pg selectors (10 * snapshot.Second) start
        = Some (snapshot.Returns (Some ErrSelectorTimeout) t) ->
        (start + 10 * snapshot.Second < t)%N
        /\ (selectors = [] \/ snapshot.cancelled pg <> None))
  /\ (forall (pg : snapshot.Page) (selectors : list string) (c start : N),
        snapshot.cancelled pg = Some c -> (c <= start)%N ->
        (forall t, snapshot.overshoot pg t = 0%N) ->
        snapshot.waitAny snapshot.enoughRounds pg selectors
          (10 * snapshot.Second) start
        = Some (snapshot.Returns (Some ErrSelectorTimeout)
                  (start + 10 * snapshot.Second
                   + 50 * snapshot.Millisecond)%N))
  /\ snapshot.Capture snapshot.enoughRounds fixture.slowPage 0
       (snapshot.mkContext (Some (30 * snapshot.Second)%N))
       fixture.instance0 "http://127.0.0.1:6006/a" "a_2x1.png" 2 1
       main.waitSelList
     = Some (snapshot.Returns (fixture.blackWhite, None)
               (3600 * snapshot.Second + 50 * snapshot.Millisecond)%N)
  /\ snapshot.Capture snapshot.enoughRounds fixture.blankPage 0
       (snapshot.mkContext (Some (30 * snapshot.Second)%N))
       fixture.instance0 "http://127.0.0.1:6006/a" "a_2x1.png" 2 1
       main.waitSelList
     = Some snapshot.Blocks
  /\ snapshot.Capture snapshot.enoughRounds fixture.rootPage 0
       (snapshot.mkContext (Some (30 * snapshot.Second)%N))
       fixture.instance0 "http://127.0.0.1:6006/a" "a_2x1.png" 2 1
       main.waitSelList
     = Some snapshot.Blocks.
Proof.
  split; [|split; [|split; [|split; [|split]]]].
  - intros pg sel rest rounds start Hopen.
    unfold snapshot.waitAny. cbn [snapshot.waitAnyLoop].
    rewrite snapshot_facts.trySelectors_open by done.
    by destruct (snapshot.readyAfter pg sel start).
  - intros pg selectors rounds start t Hret.
    pose proof Hret as Hres. unfold snapshot.waitAny in Hres.
    apply snapshot_facts.waitAnyLoop_result in Hres as [_ Hpast].
    split; [done|].
    destruct selectors as [|sel rest]; [by left|right].
    intros Hopen. destruct rounds as [|rounds]; [done|].
    unfold snapshot.waitAny in Hret. cbn [snapshot.waitAnyLoop] in Hret.
    rewrite snapshot_facts.trySelectors_open in Hret by done.
    by destruct (snapshot.readyAfter pg sel start).
  - intros pg selectors c start Hclosed Hc Hexact.
    unfold snapshot.waitAny.
    rewrite (snapshot_facts.waitAnyLoop_closed 201 pg selectors c
               (start + 10 * snapshot.Second) Hclosed Hexact
               snapshot.enoughRounds start Hc).
    + do 2 f_equal. unfold snapshot.Second, snapshot.Millisecond.
      change (N.of_nat 201) with 201%N. lia.
    + unfold snapshot.enoughRounds. lia.
    + unfold snapshot.Second, snapshot.Millisecond.
      change (N.of_nat 201) with 201%N. lia.
    + right. unfold snapshot.Second, snapshot.Millisecond.
      change (N.of_nat (Nat.pred 201)) with 200%N. lia.
  - vm_compute. reflexivity.
  - vm_compute. reflexivity.
  - vm_compute. reflexivity.
Qed.

(** ** The browser pool *)

(** C7.  For every n of at least one, if the launch of instance [i] of the
    [n] requested is the first to fail, [LaunchPool] returns the error of
    that launch and no pool, and the contexts open afterwards are those open
    before the call: every instance the call had launched is closed again.
    Starting from no open context, none remains open. *)
Theorem C7_launch_all_or_nothing (warmup : nat -> option error) (n i : Z)
    (w : browser.World) (err : error) :
  1 <= n -> 0 <= i < n ->
  browser.fresh w ->
  (forall j, (j < Z.to_nat i)%nat ->
     warmup (browser.launched w + j)%nat = None) ->
  warmup (browser.launched w + Z.to_nat i)%nat = Some err ->
  exists w',
    browser.LaunchPool warmup n w = ([], Some err, w')
    /\ browser.live w' = browser.live w
    /\ (browser.live w = ∅ -> browser.live w' = ∅).
Proof.
  intros Hn Hi Hfresh Hbefore Hfail.
  pose proof (browser_facts.LaunchPool_spec warmup n w Hfresh) as Hspec.
  destruct (browser.LaunchPool warmup n w) as [[is_ [err'|]] w'].
  - destruct Hspec as ((k & Hk & Hwk & Hnone) & -> & Hlive).
    assert (Hki : k = Z.to_nat i).
    { destruct (Nat.lt_trichotomy k (Z.to_nat i)) as [Hlt|[Heq|Hgt]].
      - rewrite (Hbefore k Hlt) in Hwk. discriminate.
      - done.
      - rewrite (Hnone _ Hgt) in Hfail. discriminate. }
    subst k. rewrite Hfail in Hwk. inversion Hwk; subst err'.
    exists w'. repeat split; try done. intros Hempty. by rewrite Hlive.
  - destruct Hspec as (Hnone & _).
    rewrite Hnone in Hfail by lia. discriminate.
Qed.

(** C7 for three instances of which the third fails to start. *)
Lemma C7_witness :
  exists w',
    browser.LaunchPool fixture.thirdFails 3 fixture.noBrowser
    = ([], Some (ErrBrowser "chrome failed to start"), w')
    /\ browser.live w' = browser.live fixture.noBrowser
    /\ (browser.live fixture.noBrowser = ∅ -> browser.live w' = ∅).
Proof.
  apply (C7_launch_all_or_nothing fixture.thirdFails 3 2 fixture.noBrowser).
  - lia.
  - lia.
  - intros h Hh. by apply elem_of_empty in Hh.
  - intros j Hj. cbn in Hj. unfold fixture.thirdFails. cbn.
    destruct j as [|[|j]]; [done|done|lia].
  - reflexivity.
Defined.
(** ** The scheduler *)

(** C8.  A pool constructed with the limit [c] has a channel of capacity
    [c] clamped to at least one.  At every instant of every run, the tasks
    holding a permit are as many as the channel holds values, and at most
    that capacity.  Every task acquires at most one permit and gives back at
    most what it acquired; once its function is over, by a return or by a
    panic, the deferred receive is enabled, and after it the task has given
    back exactly the one permit it acquired. *)
Theorem C8_permits_bounded (c : Z) (es : list pool.event) (s : pool.State) :
  pool.run (pool.init c) es = Some s ->
  pool.cap (pool.sem (pool.pool_ s)) = Z.max 1 c
  /\ pool.held (pool.sem (pool.pool_ s)) = pool.holders s
  /\ pool.holders s <= Z.max 1 c
  /\ (forall i t,
        pool.tasks s !! i = Some t ->
        (pool.released t <= pool.acquired t <= 1)%nat
        /\ (pool.holds t = true ->
            pool.acquired t = 1%nat /\ pool.released t = 0%nat)
        /\ (pool.at_ t = pool.Released \/ pool.at_ t = pool.Finished ->
            pool.acquired t = 1%nat /\ pool.released t = 1%nat))
  /\ (forall i how a r,
        pool.tasks s !! i = Some (pool.mkTask (pool.Exiting how) a r) ->
        is_Some (pool.step s (pool.EvRecv i))).
Proof.
  intros Hrun.
  destruct (pool_facts.invariant_run c es _ s
              (pool_facts.invariant_init c) Hrun)
    as [Hcap Hheld Hbound Hwg Hacc].
  split; [done|]. split; [done|]. split; [done|]. split.
  - intros i t Hi.
    pose proof (proj1 (Forall_lookup _ _) Hacc i t Hi) as Ht.
    unfold pool.accounted in Ht. unfold pool.holds.
    destruct (pool.at_ t) eqn:Hat; cbn;
      (split; [lia|split];
       [intros Hh; try discriminate Hh; lia
       |intros [Hp|Hp]; try discriminate Hp; lia]).
  - intros i how a r Hi.
    eapply pool_facts.release_enabled; [|exact Hi].
    by split.
Qed.

(** C8 on a run with the limit zero, clamped to one: the second task
    acquires its permit after the first, which panicked, gave its own back. *)
Lemma C8_witness :
  let es := [pool.EvAdd; pool.EvSend 0; pool.EvAdd;
             pool.EvExit 0 pool.Panicked; pool.EvRecv 0; pool.EvSend 1;
             pool.EvDone 0] in
  let s := pool.mkState (pool.mkPool 1 (pool.mkChan 1 1))
             [pool.mkTask pool.Finished 1 1; pool.mkTask pool.Running 1 0] in
  pool.run (pool.init 0) es = Some s
  /\ pool.cap (pool.sem (pool.pool_ s)) = Z.max 1 0
  /\ pool.held (pool.sem (pool.pool_ s)) = pool.holders s
  /\ pool.holders s <= Z.max 1 0
  /\ (forall i t,
        pool.tasks s !! i = Some t ->
        (pool.released t <= pool.acquired t <= 1)%nat
        /\ (pool.holds t = true ->
            pool.acquired t = 1%nat /\ pool.released t = 0%nat)
        /\ (pool.at_ t = pool.Released \/ pool.at_ t = pool.Finished ->
            pool.acquired t = 1%nat /\ pool.released t = 1%nat))
  /\ (forall i how a r,
        pool.tasks s !! i = Some (pool.mkTask (pool.Exiting how) a r) ->
        is_Some (pool.step s (pool.EvRecv i))).
Proof.
  intros es s.
  assert (Hrun : pool.run (pool.init 0) es = Some s) by reflexivity.
  split; [exact Hrun|].
  exact (C8_permits_bounded 0 es s Hrun).
Defined.
(** ** More facts about the task loop *)

Module main_more.
Import main mainspec main_facts.

(** No case with the status: the counter is zero. *)
Lemma CountStatus_none (cases : list report.CaseResult) (status : string) :
  Forall (fun c => report.Status c <> status) cases ->
  report.CountStatus cases status = 0.
Proof.
  induction 1 as [|c cases Hc Hall IH]; [done|].
  rewrite CountStatus_cons, IH.
  by destruct (String.eqb_spec (report.Status c) status).
Qed.

Lemma CountStatus_filter (cases : list report.CaseResult) (status : string) :
  report.CountStatus cases status
  = Z.of_nat (length (filter (fun c => report.Status c = status) cases)).
Proof.
  induction cases as [|c cases IH]; [done|].
  rewrite CountStatus_cons, IH, filter_cons.
  destruct (String.eqb_spec (report.Status c) status).
  - rewrite decide_True by done. cbn [length]. lia.
  - rewrite decide_False by done. lia.
Qed.

Lemma CountStatus_app (cases cases' : list report.CaseResult)
    (status : string) :
  report.CountStatus (cases ++ cases') status
  = report.CountStatus cases status + report.CountStatus cases' status.
Proof.
  rewrite !CountStatus_filter, filter_app, length_app. lia.
Qed.

Lemma length_filter_all {A} (P : A -> Prop) `{forall x, Decision (P x)}
    (l : list A) :
  length (filter P l) = length l <-> Forall P l.
Proof.
  induction l as [|x l IH]; [done|].
  rewrite filter_cons. pose proof (length_filter P l) as Hle.
  destruct (decide (P x)) as [Hx|Hx].
  - cbn [length]. rewrite Forall_cons. split.
    + intros Hlen. split; [done|]. apply IH. lia.
    + intros [_ Hall]. apply IH in Hall. lia.
  - split.
    + cbn [length]. lia.
    + intros Hall. by apply Forall_cons in Hall as [Hx' _].
Qed.

Section WithEnvironment.

Variable png_Decode : list Byte.byte -> option Image.
Variable png_Encode : Image -> option (list Byte.byte).
Variable Resize : Z -> Z -> Image -> diff.Interpolation -> Image.
Variable ImageHash : Type.
Variable PerceptionHash : Image -> option ImageHash.
Variable Distance : ImageHash -> ImageHash -> option Z.
Variable filepath_Join : list string -> string.
Variable Capture :
  snapshot.Context -> browser.Instance -> string -> string -> Z -> Z ->
  list string -> list Byte.byte * option error.
Variable rnd : nat -> nat.
Variable flags : main.Flags.
Variable baseDir : string.
Variable cfg : config.OsnapBaseConfig.
Variable brs : browser.Instances.

Local Abbreviation task :=
  (main.task png_Decode png_Encode Resize ImageHash PerceptionHash Distance
     filepath_Join Capture rnd flags baseDir cfg brs).
Local Abbreviation runTasks :=
  (main.runTasks png_Decode png_Encode Resize ImageHash PerceptionHash
     Distance filepath_Join Capture rnd flags baseDir cfg brs).
Local Abbreviation run :=
  (main.run png_Decode png_Encode Resize ImageHash PerceptionHash
     Distance filepath_Join Capture rnd flags baseDir cfg brs).
Local Abbreviation outcome :=
  (mainspec.outcome png_Decode png_Encode Resize ImageHash PerceptionHash
     Distance filepath_Join Capture flags baseDir cfg).
Local Abbreviation CompareFiles :=
  (diff.CompareFiles png_Decode png_Encode Resize ImageHash
     PerceptionHash Distance).
Local Abbreviation diffPathOf := (main.diffPathOf filepath_Join baseDir).
Local Abbreviation baselinePathOf :=
  (main.baselinePathOf filepath_Join baseDir).

(** [savePNG] touches the one file it is given. *)
Lemma savePNG_frame (fs : os.FileSystem) (path : string) (img : Image) :
  os.creatable (diff.savePNG png_Encode fs path img).1 = os.creatable fs
  /\ forall p, p <> path ->
       os.files (diff.savePNG png_Encode fs path img).1 !! p
       = os.files fs !! p.
Proof.
  unfold diff.savePNG, os.Create, os.Write_.
  destruct (os.creatable fs path); [|done].
  destruct (png_Encode img); cbn [fst os.files os.creatable];
    (split; [done|]); intros p Hp; by rewrite ?lookup_insert_ne.
Qed.

(** A comparison writes nothing but the diff image. *)
Lemma CompareFiles_frame (fs : os.FileSystem) (baselinePath : string)
    (buf : list Byte.byte) (diffPath : string) (pxThreshold : float)
    (phThreshold : Z) :
  let fs' := (CompareFiles fs baselinePath buf diffPath pxThreshold
                phThreshold).2 in
  os.creatable fs' = os.creatable fs
  /\ forall p, p <> diffPath -> os.files fs' !! p = os.files fs !! p.
Proof.
  unfold diff.CompareFiles.
  destruct (diff.openPNG png_Decode fs baselinePath) as [[a|] [e|]];
    try done.
  destruct (png_Decode buf) as [b|]; [|done].
  destruct (diff.pixelDiff Resize a b (math_Max 0 pxThreshold))
    as [[px [diffImg|]] [e|]]; try done.
  destruct (diff.pHashDistance Resize ImageHash PerceptionHash Distance
              a b phThreshold) as [ph [e|]]; [done|].
  destruct (negb (diff.Pass px)); [|done].
  pose proof (savePNG_frame fs diffPath diffImg) as Hsave.
  by destruct (diff.savePNG png_Encode fs diffPath diffImg).
Qed.

(** What a comparison returns depends on the disk through the baseline
    file alone. *)
Lemma CompareFiles_reads_baseline (fs1 fs2 : os.FileSystem)
    (baselinePath : string) (buf : list Byte.byte) (diffPath : string)
    (pxThreshold : float) (phThreshold : Z) :
  os.files fs1 !! baselinePath = os.files fs2 !! baselinePath ->
  (CompareFiles fs1 baselinePath buf diffPath pxThreshold phThreshold).1
  = (CompareFiles fs2 baselinePath buf diffPath pxThreshold phThreshold).1.
Proof.
  intros Hsame. unfold diff.CompareFiles, diff.openPNG, os.Open.
  rewrite Hsame.
  destruct (os.files fs2 !! baselinePath) as [data|]; [|done].
  destruct (png_Decode data) as [a|]; [|done].
  destruct (png_Decode buf) as [b|]; [|done].
  destruct (diff.pixelDiff Resize a b (math_Max 0 pxThreshold))
    as [[px [diffImg|]] [e|]]; try done.
  destruct (diff.pHashDistance Resize ImageHash PerceptionHash Distance
              a b phThreshold) as [ph [e|]]; [done|].
  destruct (negb (diff.Pass px)); [|done].
  by destruct (diff.savePNG png_Encode fs1 diffPath diffImg),
    (diff.savePNG png_Encode fs2 diffPath diffImg).
Qed.

(** The disk after a task: only the diff image of the case may differ. *)
Lemma outcome_frame (s : config.OsnapConfig) (b : browser.Instance)
    (fs0 : os.FileSystem) :
  os.creatable (outcome s b fs0).2 = os.creatable fs0
  /\ forall p, p <> diffPathOf s ->
       os.files (outcome s b fs0).2 !! p = os.files fs0 !! p.
Proof.
  unfold mainspec.outcome, captured, compared.
  destruct (Capture _ _ _ _ _ _ _) as [buf [e|]]; [done|].
  pose proof (CompareFiles_frame fs0 (baselinePathOf s) buf (diffPathOf s)
                (float64 (effectiveThreshold cfg s)) 10) as Hframe.
  cbn zeta in Hframe.
  by destruct (diff.CompareFiles _ _ _ _ _ _ _ _ _ _ _ _)
    as [[[df ph] [e|]] fs'].
Qed.

(** The result of a task depends on the disk through the baseline file of
    its case alone. *)
Lemma outcome_reads_baseline (s : config.OsnapConfig)
    (b : browser.Instance) (fs1 fs2 : os.FileSystem) :
  os.files fs1 !! baselinePathOf s = os.files fs2 !! baselinePathOf s ->
  (outcome s b fs1).1 = (outcome s b fs2).1.
Proof.
  intros Hsame. unfold mainspec.outcome, captured, compared.
  destruct (Capture _ _ _ _ _ _ _) as [buf [e|]]; [done|].
  pose proof (CompareFiles_reads_baseline fs1 fs2 (baselinePathOf s) buf
                (diffPathOf s) (float64 (effectiveThreshold cfg s)) 10
                Hsame) as Heq.
  destruct (diff.CompareFiles _ _ _ _ _ _ fs1 _ _ _ _ _)
    as [[[df1 ph1] e1] fs1'].
  destruct (diff.CompareFiles _ _ _ _ _ _ fs2 _ _ _ _ _)
    as [[[df2 ph2] e2] fs2'].
  cbn [fst] in Heq. inversion Heq; subst. by destruct e2.
Qed.


Local Abbreviation instanceOf := (runspec.instanceOf rnd brs).

(** When no diff image is written over a baseline image, the tasks of an
    order fill their slots with the outcomes of their cases on the disk the
    run started with. *)
Lemma runTasks_results (cases : list config.OsnapConfig) (order : list nat)
    (fs0 : os.FileSystem) (st st' : RunState) :
  brs <> [] ->
  (length cases <= length (results st))%nat ->
  (forall s s', s ∈ cases -> s' ∈ cases ->
     diffPathOf s <> baselinePathOf s') ->
  (forall s, s ∈ cases ->
     os.files (fs st) !! baselinePathOf s
     = os.files fs0 !! baselinePathOf s) ->
  runTasks cases order st = Some st' ->
  forall i,
    results st' !! i
    = if bool_decide (i ∈ order) then
        (fun s => (outcome s (instanceOf i) fs0).1) <$> cases !! i
      else results st !! i.
Proof.
  intros Hne Hlen Hpaths. revert st Hlen.
  induction order as [|j order IH]; intros st Hlen Hbase.
  - cbn. intros H i. inversion H; subst.
    by rewrite bool_decide_eq_false_2 by apply not_elem_of_nil.
  - cbn [main.runTasks].
    destruct (cases !! j) as [s|] eqn:Hs; [|done].
    destruct (task_total png_Decode png_Encode Resize ImageHash
                PerceptionHash Distance filepath_Join Capture rnd flags
                baseDir cfg brs j s st Hne) as (b & out & Hb & Ht).
    { apply lookup_lt_Some in Hs. lia. }
    rewrite Ht. intros Hrun i.
    assert (Hsin : s ∈ cases) by (by eapply list_elem_of_lookup_2).
    assert (Hinst : instanceOf j = b) by (unfold instanceOf; by rewrite Hb).
    assert (Hout : (outcome s b (fs st)).1 = (outcome s b fs0).1).
    { apply outcome_reads_baseline. by apply Hbase. }
    set (st1 := mkRun (<[j := (outcome s b (fs st)).1]> (results st))
                      (outcome s b (fs st)).2 out) in *.
    assert (Hlen1 : (length cases <= length (results st1))%nat).
    { unfold st1. cbn [results]. rewrite length_insert. lia. }
    assert (Hbase1 : forall s', s' ∈ cases ->
              os.files (fs st1) !! baselinePathOf s'
              = os.files fs0 !! baselinePathOf s').
    { intros s' Hs'. unfold st1. cbn [fs].
      destruct (outcome_frame s b (fs st)) as [_ Hfiles].
      rewrite Hfiles; [by apply Hbase|].
      intros Heq. by apply (Hpaths s s' Hsin Hs'). }
    rewrite (IH st1 Hlen1 Hbase1 Hrun i).
    unfold st1. cbn [results].
    destruct (decide (i ∈ order)) as [Hin|Hnin].
    + rewrite !bool_decide_eq_true_2; try done.
      apply elem_of_cons. by right.
    + rewrite (bool_decide_eq_false_2 (i ∈ order)) by done.
      destruct (decide (i = j)) as [->|Hij].
      * rewrite bool_decide_eq_true_2 by (apply elem_of_cons; by left).
        rewrite list_lookup_insert_eq.
        2:{ apply lookup_lt_Some in Hs. lia. }
        by rewrite Hs, Hinst, Hout.
      * rewrite bool_decide_eq_false_2.
        2:{ intros Hc. apply elem_of_cons in Hc as [?|?]; done. }
        by rewrite list_lookup_insert_ne.
Qed.

(** Without a limit in force every case is submitted. *)
Lemma configsToProcess_all (configs : list config.OsnapConfig) :
  limit flags <= 0 \/ Z.of_nat (length configs) <= limit flags ->
  main.configsToProcess flags configs = configs.
Proof.
  intros Hlim. unfold main.configsToProcess.
  destruct (Z.ltb_spec 0 (limit flags)),
    (Z.ltb_spec (limit flags) (Z.of_nat (length configs))); try done.
  lia.
Qed.

(** A run that returns: the state the tasks started from, and the report
    in terms of the result slice. *)
Lemma run_inv (configs : list config.OsnapConfig) (order : list nat)
    (fs0 : os.FileSystem) (now : string) rep st :
  run configs order fs0 now = Some (rep, st) ->
  exists st0,
    fs st0 = fs0
    /\ results st0 = replicate (length configs) report.zeroCaseResult
    /\ runTasks (main.configsToProcess flags configs) order st0 = Some st
    /\ rep = report.mkReport now (Z.of_nat (length (results st)))
               (report.CountStatus (results st) "pass")
               (report.CountStatus (results st) "fail")
               (report.CountStatus (results st) "no-baseline")
               (report.CountStatus (results st) "error")
               (results st).
Proof.
  unfold main.run. set (st0 := println _ _).
  destruct (runTasks _ order st0) as [st1|] eqn:Hrun; [|done].
  intros H. inversion H; subst. exists st0.
  split; [unfold st0; by destruct (_ && _)|].
  split; [unfold st0; by destruct (_ && _)|]. done.
Qed.

(** The shape of a pixel result that [CompareFiles] returns. *)
Lemma CompareFiles_shape (fs0 : os.FileSystem) (baselinePath : string)
    (buf : list Byte.byte) (diffPath : string) (pxThreshold : float)
    (phThreshold : Z) px ph fs' :
  CompareFiles fs0 baselinePath buf diffPath pxThreshold phThreshold
  = (px, ph, None, fs') ->
  diff.DiffImagePath px = (if diff.Pass px then "" else diffPath).
Proof.
  intros Hcmp.
  destruct (diff_facts.CompareFiles_inv png_Decode png_Encode Resize
              ImageHash PerceptionHash Distance _ _ _ _ _ _ _ _ _ Hcmp)
    as (data & a & b & px0 & diffImg & Hfile & Ha & Hb & Hpx & Hph).
  rewrite (diff_facts.CompareFiles_ok png_Decode png_Encode Resize ImageHash
             PerceptionHash Distance fs0 baselinePath buf diffPath
             pxThreshold phThreshold data a b px0 diffImg ph
             Hfile Ha Hb Hpx Hph) in Hcmp.
  destruct (diff_facts.pixelDiff_inv Resize _ _ _ _ _ Hpx)
    as (_ & _ & _ & Hpath & _).
  destruct (diff.Pass px0) eqn:Hp; inversion Hcmp; subst;
    cbn [diff.Pass diff.DiffImagePath]; rewrite ?Hp; done.
Qed.

(** The result a task stores is well formed. *)
Lemma outcome_consistent (s : config.OsnapConfig) (b : browser.Instance)
    (fs0 : os.FileSystem) :
  runspec.consistent (outcome s b fs0).1.
Proof.
  unfold mainspec.outcome, captured, compared, runspec.consistent.
  destruct (Capture _ _ _ _ _ _ _) as [buf [e|]].
  { right. right. left. cbn. repeat split; try done. by exists e. }
  destruct (diff.CompareFiles _ _ _ _ _ _ _ _ _ _ _ _)
    as [[[df ph] [e|]] fs'] eqn:Hcmp.
  { right. right. left. cbn. repeat split; try done. by exists e. }
  pose proof (CompareFiles_shape _ _ _ _ _ _ _ _ _ Hcmp) as Hshape.
  destruct (diff.Pass df) eqn:Hp.
  - left. cbn. repeat split; try done. by exists df, ph.
  - right. left. cbn. repeat split; try done. by exists df, ph.
Qed.

(** Every run returns a report; each slot of its case list holds the
    outcome of the case submitted at its index, or the zero value when no
    case was submitted there. *)
Lemma run_slots (configs : list config.OsnapConfig) (order : list nat)
    (fs0 : os.FileSystem) (now : string) :
  brs <> [] ->
  main.schedule flags configs order ->
  exists rep st,
    run configs order fs0 now = Some (rep, st)
    /\ report.Cases rep = results st
    /\ length (results st) = length configs
    /\ rep = report.mkReport now (Z.of_nat (length (results st)))
               (report.CountStatus (results st) "pass")
               (report.CountStatus (results st) "fail")
               (report.CountStatus (results st) "no-baseline")
               (report.CountStatus (results st) "error")
               (results st)
    /\ (forall i c,
          results st !! i = Some c ->
          (exists s b fs1,
             main.configsToProcess flags configs !! i = Some s
             /\ c = (outcome s b fs1).1)
          \/ ((length (main.configsToProcess flags configs) <= i)%nat
              /\ c = report.zeroCaseResult)).
Proof.
  intros Hne Hsched.
  destruct (run_spec png_Decode png_Encode Resize ImageHash PerceptionHash
              Distance filepath_Join Capture rnd flags baseDir cfg brs
              configs order fs0 now Hne Hsched)
    as (rep & st & Hrun & Hcases & _ & _ & Hlen & Hin & Hzero).
  exists rep, st. split; [done|]. split; [done|]. split; [done|].
  destruct (run_inv _ _ _ _ _ _ Hrun) as (st0 & _ & _ & _ & Hrep).
  split; [done|].
  intros i c Hc.
  destruct (Nat.lt_ge_cases i
              (length (main.configsToProcess flags configs))) as [Hlt|Hge].
  - left. destruct (Hin i Hlt) as (r & Hr & s & b & fs1 & Hs & ->).
    rewrite Hc in Hr. inversion Hr; subst. by exists s, b, fs1.
  - right. split; [done|].
    rewrite Hzero in Hc; [by inversion Hc|done|].
    rewrite <- Hlen. by eapply lookup_lt_Some.
Qed.

End WithEnvironment.

End main_more.

(** ** More facts about the selectors *)

Module snapshot_more.
Import snapshot stringspec.

Lemma trimLeft_head (s : string) :
  match trimLeft s with
  | EmptyString => True
  | String c _ => isSpace c = false
  end.
Proof.
  induction s as [|c s IH]; [done|]. cbn [trimLeft].
  destruct (isSpace c) eqn:Hc; [done|]. cbn. done.
Qed.

Lemma trimLeft_fixed (s : string) :
  match s with
  | EmptyString => True
  | String c _ => isSpace c = false
  end ->
  trimLeft s = s.
Proof. destruct s as [|c s]; [done|]. cbn. by intros ->. Qed.

Lemma trimRight_head (c : ascii) (s : string) :
  isSpace c = false -> exists r, trimRight (String c s) = String c r.
Proof.
  intros Hc. cbn [trimRight]. destruct (trimRight s).
  - rewrite Hc. by eexists.
  - by eexists.
Qed.

Lemma trimRight_idem (s : string) : trimRight (trimRight s) = trimRight s.
Proof.
  induction s as [|c s IH]; [done|]. cbn [trimRight].
  destruct (trimRight s) as [|d r] eqn:Hr.
  - destruct (isSpace c) eqn:Hc; [done|]. cbn [trimRight]. by rewrite Hc.
  - cbn [trimRight]. cbn [trimRight] in IH. by rewrite IH.
Qed.

(** [strings.TrimSpace] leaves nothing to trim. *)
Lemma TrimSpace_idem (s : string) :
  strings_TrimSpace (strings_TrimSpace s) = strings_TrimSpace s.
Proof.
  unfold strings_TrimSpace.
  pose proof (trimLeft_head s) as Hh.
  destruct (trimLeft s) as [|c r]; [done|].
  destruct (trimRight_head c r Hh) as [r' Hr'].
  rewrite trimLeft_fixed.
  - apply trimRight_idem.
  - by rewrite Hr'.
Qed.

Lemma chars_trimLeft (s : string) (c : ascii) :
  In c (chars (trimLeft s)) -> In c (chars s).
Proof.
  induction s as [|d s IH]; [done|]. cbn [trimLeft].
  destruct (isSpace d); [|done]. intros Hin. right. by apply IH.
Qed.

Lemma chars_trimRight (s : string) (c : ascii) :
  In c (chars (trimRight s)) -> In c (chars s).
Proof.
  induction s as [|d s IH]; [done|]. cbn [trimRight].
  destruct (trimRight s) as [|e r].
  - destruct (isSpace d); [done|]. intros [->|[]]. by left.
  - intros [->|Hin]; [by left|]. right. by apply IH.
Qed.

Lemma chars_TrimSpace (s : string) (c : ascii) :
  In c (chars (strings_TrimSpace s)) -> In c (chars s).
Proof.
  unfold strings_TrimSpace. intros H.
  by apply chars_trimLeft, chars_trimRight.
Qed.

(** No part of a split holds the separator. *)
Lemma Split_no_sep (sep : ascii) (s p : string) :
  In p (strings_Split sep s) -> ~ In sep (chars p).
Proof.
  revert p. induction s as [|c s IH]; intros p.
  - cbn. intros [<-|[]]. by intros [].
  - cbn [strings_Split]. destruct (Ascii.eqb_spec c sep) as [->|Hne].
    + intros [<-|Hin]; [by intros []|by apply IH].
    + destruct (strings_Split sep s) as [|q qs] eqn:Hq.
      * intros [<-|[]]. intros [->|[]]. done.
      * intros [<-|Hin].
        -- intros [->|Hin]; [done|]. apply (IH q); [by left|done].
        -- apply IH. by right.
Qed.

(** Splitting a string without the separator gives the string. *)
Lemma Split_none (sep : ascii) (s : string) :
  ~ In sep (chars s) -> strings_Split sep s = [s].
Proof.
  induction s as [|c s IH]; [done|]. intros Hn. cbn [strings_Split].
  destruct (Ascii.eqb_spec c sep) as [->|Hne].
  - destruct Hn. by left.
  - rewrite IH; [done|]. intros Hin. apply Hn. by right.
Qed.

Lemma append_nil_l (s : string) : ("" +:+ s = s)%string.
Proof. reflexivity. Qed.

Lemma append_cons_l (c : ascii) (s t : string) :
  (String c s +:+ t = String c (s +:+ t))%string.
Proof. reflexivity. Qed.

Lemma Split_app (sep : ascii) (s rest : string) :
  ~ In sep (chars s) ->
  strings_Split sep (s +:+ String sep rest) = s :: strings_Split sep rest.
Proof.
  induction s as [|c s IH]; intros Hn.
  - rewrite append_nil_l. cbn [strings_Split]. by rewrite Ascii.eqb_refl.
  - rewrite append_cons_l. cbn [strings_Split].
    destruct (Ascii.eqb_spec c sep) as [->|Hne].
    + destruct Hn. by left.
    + rewrite IH; [done|]. intros Hin. apply Hn. by right.
Qed.

(** Splitting what was joined gives the parts back. *)
Lemma Split_concat (sep : ascii) (l : list string) :
  l <> [] -> Forall (fun p => ~ In sep (chars p)) l ->
  strings_Split sep (String.concat (String sep EmptyString) l) = l.
Proof.
  induction l as [|p l IH]; [done|]. intros _ Hall.
  apply Forall_cons in Hall as [Hp Hall].
  destruct l as [|q l].
  - cbn. by apply Split_none.
  - cbn [String.concat]. rewrite append_cons_l, append_nil_l.
    rewrite Split_app by done. f_equal. by apply IH.
Qed.

(** The loop of [ParseSelectors]: the trimmed parts that are not empty, in
    order. *)
Lemma ParseSelectors_loop (parts out : list string) :
  fold_left
    (fun out p =>
       let p := strings_TrimSpace p in
       if negb (String.eqb p "") then out ++ [p] else out)
    parts out
  = out ++ List.filter (fun p => negb (String.eqb p ""))
             (map strings_TrimSpace parts).
Proof.
  revert out. induction parts as [|p parts IH]; intros out.
  - cbn. by rewrite app_nil_r.
  - cbn [fold_left map List.filter]. rewrite IH.
    destruct (negb (String.eqb (strings_TrimSpace p) "")); [|done].
    by rewrite <- app_assoc.
Qed.

Lemma ParseSelectors_unfold (csv : string) :
  ParseSelectors csv
  = match List.filter (fun p => negb (String.eqb p ""))
            (map strings_TrimSpace (strings_Split "," csv)) with
    | [] => ["body"]
    | out => out
    end.
Proof.
  unfold ParseSelectors. rewrite ParseSelectors_loop. cbn [app].
  by destruct (List.filter _ _).
Qed.

(** What holds of every selector [ParseSelectors] returns. *)
Lemma ParseSelectors_each (csv p : string) :
  In p (ParseSelectors csv) ->
  p <> "" /\ trimmed p /\ ~ In ","%char (chars p).
Proof.
  rewrite ParseSelectors_unfold.
  destruct (List.filter _ _) as [|q out] eqn:Hf.
  - intros [<-|[]]. split; [done|]. split; [reflexivity|].
    cbn. intros Hin. repeat destruct Hin as [Hin|Hin]; try done.
  - rewrite <- Hf. intros Hin. apply filter_In in Hin as [Hin Hne].
    apply in_map_iff in Hin as (part & <- & Hpart).
    split.
    + intros Heq. rewrite Heq in Hne. done.
    + split; [apply TrimSpace_idem|].
      intros Hc. apply chars_TrimSpace in Hc.
      by apply (Split_no_sep _ _ _ Hpart).
Qed.

Lemma ParseSelectors_nonempty (csv : string) : ParseSelectors csv <> [].
Proof.
  rewrite ParseSelectors_unfold. by destruct (List.filter _ _).
Qed.

End snapshot_more.

(** ** Facts about the loader *)

Module config_facts.
Import config configspec.

Lemma fold_append {A B : Type} (f : A -> B) (l : list A) (res : list B) :
  fold_left (fun res s => res ++ [f s]) l res = res ++ map f l.
Proof.
  revert res. induction l as [|x l IH]; intros res; cbn.
  - by rewrite app_nil_r.
  - by rewrite IH, <- app_assoc.
Qed.

(** The loop over the default sizes appends the first size of the name,
    if there is one. *)
Lemma appendNamed_spec (cfg : OsnapBaseConfig) (c : Loaded) (s : string)
    (res : list Loaded) :
  appendNamed c s (DefaultSizes cfg) res
  = res ++ match named cfg s with
           | Some ds => [withSize c (SWidth ds) (SHeight ds)]
           | None => []
           end.
Proof.
  unfold named. induction (DefaultSizes cfg) as [|ds defaults IH]; cbn.
  - by rewrite app_nil_r.
  - by destruct (String.eqb s (SizeName ds)).
Qed.

Lemma fold_appendNamed (cfg : OsnapBaseConfig) (c : Loaded)
    (ss : list string) (res : list Loaded) :
  fold_left (fun res s => appendNamed c s (DefaultSizes cfg) res) ss res
  = res ++ map (fun s => withSize c (SWidth s) (SHeight s))
             (omap (named cfg) ss).
Proof.
  revert res. induction ss as [|s ss IH]; intros res; cbn [fold_left].
  - cbn. by rewrite app_nil_r.
  - rewrite IH, appendNamed_spec, <- app_assoc. f_equal.
    cbn [omap list_omap]. by destruct (named cfg s).
Qed.

(** The body of the loop of [NewOsnapConfig] appends the expansion of the
    case. *)
Lemma expandCase_spec (cfg : OsnapBaseConfig) (res : list Loaded)
    (c : Loaded) :
  expandCase cfg res (Some c) = Some (res ++ expansionOf cfg c).
Proof.
  unfold expandCase, expansionOf, sizesOf, AsStrings, AsSizes.
  destruct (Strings (Sizes_ c)) as [|s ss] eqn:Hss.
  - cbn [length Nat.ltb Nat.leb].
    destruct (One (Sizes_ c)) as [one|] eqn:Hone.
    + cbn [length Nat.ltb Nat.leb fold_left map]. done.
    + destruct (Structs (Sizes_ c)) as [|z zs] eqn:Hzs.
      * cbn [length Nat.ltb Nat.leb]. by rewrite fold_append.
      * cbn [length Nat.ltb Nat.leb]. by rewrite fold_append.
  - cbn [length Nat.ltb Nat.leb]. by rewrite fold_appendNamed.
Qed.

Lemma expandLoop_spec (cfg : OsnapBaseConfig) (cs res : list Loaded) :
  expandLoop cfg (Some <$> cs) res
  = Some (res ++ flat_map (expansionOf cfg) cs).
Proof.
  revert res. induction cs as [|c cs IH]; intros res.
  - cbn. by rewrite app_nil_r.
  - rewrite fmap_cons. cbn [expandLoop flat_map].
    by rewrite expandCase_spec, IH, <- app_assoc.
Qed.

Lemma expandLoop_nil (cfg : OsnapBaseConfig) (configs : list (option Loaded))
    (res : list Loaded) :
  None ∈ configs -> expandLoop cfg configs res = None.
Proof.
  revert res. induction configs as [|c configs IH]; intros res Hin.
  - by apply elem_of_nil in Hin.
  - cbn [expandLoop]. destruct c as [c|]; [|done].
    rewrite expandCase_spec. apply IH.
    apply elem_of_cons in Hin as [?|?]; done.
Qed.

(** The checks of the base configuration accept exactly the valid ones. *)
Lemma checkBase_valid (c : OsnapBaseConfig) :
  checkBase c = None <-> valid c.
Proof.
  unfold checkBase, valid.
  destruct (DefaultSizes c) as [|s0 sizes] eqn:Hsizes.
  { cbn. split; [done|]. by intros [? _]. }
  rewrite <- Hsizes. replace (length (DefaultSizes c) =? 0)%nat with false
    by (by rewrite Hsizes).
  destruct (existsb _ (DefaultSizes c)) eqn:Hex.
  { split; [done|]. intros (_ & Hall & _).
    apply existsb_exists in Hex as (s & Hin & Hs).
    apply list_elem_of_In in Hin.
    pose proof (proj1 (Forall_forall _ _) Hall s Hin) as [Hw Hh].
    apply orb_true_iff in Hs as [Hs|Hs]; apply Z.leb_le in Hs; lia. }
  assert (Hall : Forall (fun s => 0 < SWidth s /\ 0 < SHeight s)
                   (DefaultSizes c)).
  { apply Forall_forall. intros s Hin. apply list_elem_of_In in Hin.
    destruct (Z.leb_spec (SWidth s) 0) as [Hw|Hw].
    - assert (existsb (fun s => (SWidth s <=? 0) || (SHeight s <=? 0))
                (DefaultSizes c) = true); [|congruence].
      apply existsb_exists. exists s. split; [done|].
      apply orb_true_iff. left. by apply Z.leb_le.
    - destruct (Z.leb_spec (SHeight s) 0) as [Hh|Hh]; [|done].
      assert (existsb (fun s => (SWidth s <=? 0) || (SHeight s <=? 0))
                (DefaultSizes c) = true); [|congruence].
      apply existsb_exists. exists s. split; [done|].
      apply orb_true_iff. right. by apply Z.leb_le. }
  assert (Hne : DefaultSizes c <> []) by (by rewrite Hsizes).
  destruct (Z.ltb_spec (BaseThreshold c) 0);
    [split; [done|]; intros (_ & _ & ? & _); lia|].
  destruct (Z.ltb_spec 100 (BaseThreshold c));
    [split; [done|]; intros (_ & _ & ? & _); lia|].
  cbn [orb].
  destruct (Z.ltb_spec (BaseRetry c) 0);
    [split; [done|]; intros (_ & _ & _ & ? & _); lia|].
  destruct (String.eqb_spec (TestPattern c) "");
    [split; [done|]; by intros (_ & _ & _ & _ & ? & _)|].
  destruct (String.eqb_spec (SnapshotDirectory c) "");
    [split; [done|]; by intros (_ & _ & _ & _ & _ & ? & _)|].
  cbn zeta.
  destruct (Z.ltb_spec (R (DiffPixelColor_ c)) 0);
    [split; [done|]; intros (_ & _ & _ & _ & _ & _ & ? & _); lia|].
  destruct (Z.ltb_spec 255 (R (DiffPixelColor_ c)));
    [split; [done|]; intros (_ & _ & _ & _ & _ & _ & ? & _); lia|].
  destruct (Z.ltb_spec (G (DiffPixelColor_ c)) 0);
    [split; [done|]; intros (_ & _ & _ & _ & _ & _ & _ & ? & _); lia|].
  destruct (Z.ltb_spec 255 (G (DiffPixelColor_ c)));
    [split; [done|]; intros (_ & _ & _ & _ & _ & _ & _ & ? & _); lia|].
  destruct (Z.ltb_spec (B (DiffPixelColor_ c)) 0);
    [split; [done|]; intros (_ & _ & _ & _ & _ & _ & _ & _ & ?); lia|].
  destruct (Z.ltb_spec 255 (B (DiffPixelColor_ c)));
    [split; [done|]; intros (_ & _ & _ & _ & _ & _ & _ & _ & ?); lia|].
  cbn [orb]. split; [|done]. intros _. repeat split; try done; lia.
Qed.

(** Induction on a tree with the hypothesis for every entry of a
    directory. *)
Lemma Tree_ind_entries (P : filepath.Tree -> Prop) :
  (forall name, P (filepath.File name)) ->
  (forall name readErr entries,
     Forall P entries -> P (filepath.Dir name readErr entries)) ->
  forall t, P t.
Proof.
  intros Hfile Hdir. fix IH 1. intros [name|name readErr entries].
  - apply Hfile.
  - apply Hdir. induction entries as [|d entries IHe]; constructor.
    + apply IH.
    + apply IHe.
Qed.

Section WithHost.

Variable filepath_Join : list string -> string.
Variable strconv_Quote : string -> string.
Variable Decoder : Type.
Variable NewDecoder : list Byte.byte -> Decoder.
Variable Decode_configs :
  Decoder -> tools.decoded (list (option Loaded)) * Decoder.
Variable Decode_any : Decoder -> tools.decoded unit * Decoder.
Variable cfg : LoadedBase.
Variable fs : os.FileSystem.

Local Abbreviation NewOsnapConfig :=
  (config.NewOsnapConfig Decoder NewDecoder Decode_configs Decode_any cfg
     fs).
Local Abbreviation visit :=
  (config.visit strconv_Quote Decoder NewDecoder Decode_configs Decode_any
     cfg fs).
Local Abbreviation walkDir :=
  (filepath.walkDir filepath_Join walkState visit).
Local Abbreviation events := (configspec.events cfg filepath_Join).

(** What an event does to the state of the walk. *)
Local Abbreviation absorb :=
  (fun (st : walkState) (ev : event) =>
     match ev with
     | ConfigFile p =>
         (visit p (Some (filepath.mkDirEntry ".osnap.yaml" false)) None st).1
     | Unreadable p e => (visit p None (Some e) st).1
     end).

Lemma visit_file (path name : string) (st : walkState) :
  visit path (Some (filepath.mkDirEntry name false)) None st
  = (if strings_HasSuffix name ".osnap.yaml"
     then absorb st (ConfigFile path) else st,
     filepath.Nil).
Proof.
  unfold config.visit. cbn [filepath.IsDir filepath.Name].
  destruct (strings_HasSuffix name ".osnap.yaml") eqn:Hs; [|done].
  cbn [negb].
  replace (strings_HasSuffix ".osnap.yaml" ".osnap.yaml") with true
    by reflexivity.
  cbn [negb]. by destruct (NewOsnapConfig path) as [[configs [err|]]|].
Qed.

Lemma visit_dir (path name : string) (st : walkState) :
  visit path (Some (filepath.mkDirEntry name true)) None st
  = (st, if skipped cfg name then filepath.SkipDir else filepath.Nil).
Proof.
  unfold config.visit, skipped. cbn [filepath.IsDir filepath.Name].
  destruct (existsb _ _); [done|]. cbn [orb].
  by destruct (_ && _).
Qed.

Lemma visit_err (path : string) (d : option filepath.DirEntry) (e : error)
    (st : walkState) :
  visit path d (Some e) st = (absorb st (Unreadable path e), filepath.Nil).
Proof. reflexivity. Qed.

(** The walk of a tree takes in its events, in order, and returns no
    error. *)
Lemma walkDir_events (t : filepath.Tree) :
  forall (path : string) (st : walkState),
    walkDir path t st = (fold_left absorb (events path t) st, filepath.Nil).
Proof.
  induction t as [name|name readErr entries IH] using Tree_ind_entries;
    intros path st.
  - cbn [filepath.walkDir filepath.entryOf configspec.events].
    rewrite visit_file.
    by destruct (strings_HasSuffix name ".osnap.yaml").
  - cbn [filepath.walkDir filepath.entryOf configspec.events].
    rewrite visit_dir. destruct (skipped cfg name); [done|].
    rewrite fold_left_app.
    set (st1 := fold_left absorb
                  match readErr with
                  | Some e => [Unreadable path e]
                  | None => []
                  end st).
    assert (Hfirst :
      match readErr with
      | Some e => visit path (Some (filepath.mkDirEntry name true)) (Some e)
                    st
      | None => (st, filepath.Nil)
      end = (st1, filepath.Nil)).
    { unfold st1. destruct readErr as [e|]; [|done]. by rewrite visit_err. }
    rewrite Hfirst. clear Hfirst. generalize st1. clear st1.
    induction IH as [|d1 dirs Hd1 _ IHdirs]; intros st1; [done|].
    rewrite Hd1. rewrite fold_left_app. apply IHdirs.
Qed.

(** The state after a list of events. *)
Lemma absorb_panicked (evs : list event) (st : walkState) :
  panicked (fold_left absorb evs st)
  = panicked st
    || existsb (fun p => bool_decide (NewOsnapConfig p = None))
         (configFiles evs).
Proof.
  revert st. induction evs as [|ev evs IH]; intros st.
  - cbn. by rewrite orb_false_r.
  - cbn [fold_left]. rewrite IH. destruct ev as [p|p e].
    + cbn [configFiles omap list_omap existsb]. fold (configFiles evs).
      unfold config.visit.
      cbn [filepath.IsDir filepath.Name].
      replace (strings_HasSuffix ".osnap.yaml" ".osnap.yaml") with true
        by reflexivity.
      cbn [negb fst].
      destruct (NewOsnapConfig p) as [[configs [err|]]|] eqn:Hp;
        cbn [fst panicked].
      * rewrite bool_decide_eq_false_2 by done. done.
      * rewrite bool_decide_eq_false_2 by done. done.
      * rewrite bool_decide_eq_true_2 by done. cbn [orb].
        by rewrite orb_true_r.
    + done.
Qed.

(** The cases a config file contributes. *)
Local Abbreviation casesOf :=
  (fun p => match NewOsnapConfig p with
            | Some (configs, None) => configs
            | _ => []
            end).

Lemma absorb_results (evs : list event) (st : walkState) :
  results (fold_left absorb evs st)
  = results st ++ flat_map casesOf (configFiles evs).
Proof.
  revert st. induction evs as [|ev evs IH]; intros st.
  - cbn. by rewrite app_nil_r.
  - cbn [fold_left]. rewrite IH. destruct ev as [p|p e].
    + cbn [configFiles omap list_omap flat_map]. fold (configFiles evs).
      unfold config.visit.
      cbn [filepath.IsDir filepath.Name].
      replace (strings_HasSuffix ".osnap.yaml" ".osnap.yaml") with true
        by reflexivity.
      cbn [negb fst].
      destruct (NewOsnapConfig p) as [[configs [err|]]|] eqn:Hp;
        cbn [fst results app]; try done.
      by rewrite <- app_assoc.
    + done.
Qed.

Lemma errors_Join_None (a b : option error) :
  errors_Join a b = None <-> a = None /\ b = None.
Proof. destruct a, b; cbn; split; try done; by intros [? ?]. Qed.

Lemma absorb_aggErr (evs : list event) (st : walkState) :
  aggErr (fold_left absorb evs st) = None
  <-> aggErr st = None
      /\ (forall p e, Unreadable p e ∉ evs)
      /\ (forall p, p ∈ configFiles evs ->
            forall configs err,
              NewOsnapConfig p = Some (configs, err) -> err = None).
Proof.
  revert st. induction evs as [|ev evs IH]; intros st.
  - cbn. split.
    + intros H. split; [done|]. split.
      * intros p e Hin. by apply elem_of_nil in Hin.
      * intros p Hin. by apply elem_of_nil in Hin.
    + by intros [? _].
  - cbn [fold_left]. rewrite IH. destruct ev as [p|p e].
    + cbn [configFiles omap list_omap]. fold (configFiles evs).
      unfold config.visit.
      cbn [filepath.IsDir filepath.Name].
      replace (strings_HasSuffix ".osnap.yaml" ".osnap.yaml") with true
        by reflexivity.
      cbn [negb fst].
      destruct (NewOsnapConfig p) as [[configs [err|]]|] eqn:Hp;
        cbn [fst aggErr].
      * rewrite errors_Join_None. split.
        -- by intros [[_ ?] _].
        -- intros (_ & _ & Hok).
           specialize (Hok p ltac:(apply elem_of_cons; by left) _ _ Hp).
           done.
      * split.
        -- intros (Ha & Hu & Hok). split; [done|]. split.
           ++ intros q e Hin. apply elem_of_cons in Hin as [?|Hin];
                [done|]. by apply (Hu q e).
           ++ intros q Hin configs' err' Hq.
              apply elem_of_cons in Hin as [->|Hin].
              ** rewrite Hp in Hq. by inversion Hq.
              ** by apply (Hok q Hin configs' err').
        -- intros (Ha & Hu & Hok). split; [done|]. split.
           ++ intros q e Hin. apply (Hu q e). apply elem_of_cons. by right.
           ++ intros q Hin. apply Hok. apply elem_of_cons. by right.
      * split.
        -- intros (Ha & Hu & Hok). split; [done|]. split.
           ++ intros q e Hin. apply elem_of_cons in Hin as [?|Hin];
                [done|]. by apply (Hu q e).
           ++ intros q Hin configs' err' Hq.
              apply elem_of_cons in Hin as [->|Hin].
              ** rewrite Hp in Hq. by inversion Hq.
              ** by apply (Hok q Hin configs' err').
        -- intros (Ha & Hu & Hok). split; [done|]. split.
           ++ intros q e Hin. apply (Hu q e). apply elem_of_cons. by right.
           ++ intros q Hin. apply Hok. apply elem_of_cons. by right.
    + cbn [configFiles omap list_omap]. fold (configFiles evs).
      cbn [config.visit fst aggErr]. rewrite errors_Join_None. split.
      * by intros [[_ ?] _].
      * intros (_ & Hu & _). destruct (Hu p e). apply elem_of_cons.
        by left.
Qed.

End WithHost.

End config_facts.

(** ** Facts about package storybook *)

Module storybook_facts.
Import storybook.

Lemma Fields_blank (s : string) :
  strings_Fields s = [] <-> stringspec.blank s = true.
Proof.
  unfold stringspec.blank, stringspec.chars.
  induction s as [|c rest IH]; [done|].
  cbn [strings_Fields String.list_ascii_of_string forallb].
  destruct (snapshot.isSpace c) eqn:Hc; cbn [andb]; [exact IH|].
  split; [|done].
  destruct rest as [|c' r]; [done|].
  destruct (snapshot.isSpace c'); [done|].
  by destruct (strings_Fields (String c' r)).
Qed.

Lemma Fields_parts (s : string) :
  Forall (fun f => f <> "") (strings_Fields s).
Proof.
  induction s as [|c rest IH]; [by constructor|].
  cbn [strings_Fields].
  destruct (snapshot.isSpace c) eqn:Hc; [exact IH|].
  destruct rest as [|c' r]; [by repeat constructor|].
  destruct (snapshot.isSpace c'); [by constructor|].
  destruct (strings_Fields (String c' r)) as [|f fs];
    [by repeat constructor|].
  inversion IH; subst. by constructor.
Qed.

Lemma splitCmd_empty (s : string) :
  (splitCmd s).1 = "" <-> stringspec.blank s = true.
Proof.
  rewrite <- Fields_blank. unfold splitCmd.
  pose proof (Fields_parts s) as Hparts.
  destruct (strings_Fields s) as [|bin args]; [done|].
  inversion Hparts; subst. cbn. split; [done|discriminate].
Qed.

Section WithHost.

Variable World : Type.
Variable time_Now : World -> Z.
Variable time_Sleep : Z -> World -> World.
Variable client_Get : string -> World -> (Response + error) * World.

Hypothesis Get_monotone :
  forall url w, time_Now w <= time_Now (client_Get url w).2.
Hypothesis Sleep_sleeps :
  forall d w, time_Now w + d <= time_Now (time_Sleep d w).

Lemma waitLoop_returns (fuel : nat) (url : string) (deadline : Z)
    (w : World) :
  deadline - time_Now w <= (Z.of_nat fuel - 1) * (250 * Millisecond) ->
  (0 < fuel)%nat ->
  exists b w',
    waitLoop World time_Now time_Sleep client_Get fuel url deadline w
    = Some (b, w')
    /\ (b = true ->
        exists w0 resp,
          client_Get url w0 = (inl resp, w')
          /\ 200 <= StatusCode resp < 500)
    /\ (b = false -> deadline <= time_Now w')
    /\ (deadline <= time_Now w -> b = false /\ w' = w).
Proof.
  revert w. induction fuel as [|fuel IH]; intros w Hfuel Hpos; [lia|].
  cbn [waitLoop].
  destruct (time_Now w <? deadline) eqn:Hnow.
  - apply Z.ltb_lt in Hnow.
    pose proof (Get_monotone url w) as Hget.
    destruct (client_Get url w) as [resp w1] eqn:Hresp. cbn [snd] in Hget.
    pose proof (Sleep_sleeps (250 * Millisecond) w1) as Hsleep.
    assert (Hnext :
      exists b w',
        waitLoop World time_Now time_Sleep client_Get fuel url deadline
          (time_Sleep (250 * Millisecond) w1) = Some (b, w')
        /\ (b = true ->
            exists w0 resp,
              client_Get url w0 = (inl resp, w')
              /\ 200 <= StatusCode resp < 500)
        /\ (b = false -> deadline <= time_Now w')).
    { unfold Millisecond in *.
      destruct (IH (time_Sleep (250 * 1000000) w1)) as (b & w' & H & Ht & Hf & _);
        [lia|lia|]. by exists b, w'. }
    destruct resp as [resp|e].
    + destruct ((200 <=? StatusCode resp) && (StatusCode resp <? 500))
        eqn:Hok.
      * exists true, w1. split; [done|]. split; [|split; [done|lia]].
        intros _. exists w, resp. split; [done|].
        apply andb_true_iff in Hok as [H1 H2]. lia.
      * destruct Hnext as (b & w' & H & Ht & Hf). exists b, w'.
        repeat split; try done; lia.
    + destruct Hnext as (b & w' & H & Ht & Hf). exists b, w'.
      repeat split; try done; lia.
  - apply Z.ltb_ge in Hnow. exists false, w.
    split; [done|]. split; [done|]. split; [done|]. done.
Qed.

End WithHost.

End storybook_facts.

(** ** Facts about the model of package ui *)

Module ui_facts.
Import ui uispec.

Lemma size_delete_Some (active : gmap string activeItem) (k : string)
    (it : activeItem) :
  active !! k = Some it ->
  Z.of_nat (size (delete k active)) = Z.of_nat (size active) - 1.
Proof.
  intros Hk. rewrite map_size_delete, Hk.
  destruct (size active) as [|n] eqn:Hsize; [|cbn; lia].
  apply map_size_empty_inv in Hsize. subst. by rewrite lookup_empty in Hk.
Qed.

Lemma lastLogs_length (maxLog : Z) (logs : list logItem) (li : logItem) :
  0 <= maxLog ->
  exists logs',
    lastLogs maxLog (logs ++ [li]) = Some logs'
    /\ Z.of_nat (length logs')
       = Z.min (Z.of_nat (length logs) + 1) maxLog.
Proof.
  intros Hmax. unfold lastLogs. rewrite length_app. cbn [length].
  destruct (_ >? maxLog) eqn:Hlen.
  - apply Z.gtb_lt in Hlen.
    destruct (_ >? _) eqn:Hbound; [apply Z.gtb_lt in Hbound; lia|].
    eexists. split; [reflexivity|]. rewrite length_drop, length_app.
    cbn [length]. lia.
  - eexists. split; [reflexivity|]. rewrite length_app. cbn [length].
    assert (~ (maxLog < Z.of_nat (length logs + 1))).
    { intros H. apply Z.gtb_lt in H. congruence. }
    lia.
Qed.

Lemma count_spec (c : Counts) (s : string) :
  - 2 ^ 63 <= completed c + 1 < 2 ^ 63 ->
  0 <= passed c -> 0 <= failed c -> 0 <= nobase c -> 0 <= errored c ->
  passed c + failed c + nobase c + errored c <= completed c ->
  let c' := count c s in
  running c' = running c
  /\ completed c' = completed c + 1
  /\ 0 <= passed c' /\ 0 <= failed c' /\ 0 <= nobase c' /\ 0 <= errored c'
  /\ passed c' + failed c' + nobase c' + errored c' <= completed c'.
Proof.
  intros Hc Hp Hf Hn He Hsum. unfold count, Go.int_add. cbn.
  rewrite (diff_facts.int_wrap_small (completed c + 1)) by lia.
  destruct (String.eqb s "pass");
    [cbn; rewrite diff_facts.int_wrap_small by lia; lia|].
  destruct (String.eqb s "fail");
    [cbn; rewrite diff_facts.int_wrap_small by lia; lia|].
  destruct (String.eqb s "no-baseline");
    [cbn; rewrite diff_facts.int_wrap_small by lia; lia|].
  destruct (String.eqb s "error");
    [cbn; rewrite diff_facts.int_wrap_small by lia; lia|].
  cbn. lia.
Qed.

Lemma Update_inv (msg : Msg) (now : Z) (m : Model) :
  wellCounted m -> 0 <= maxLog m ->
  0 <= completed (counts m) -> completed (counts m) + 1 < 2 ^ 63 ->
  exists m' c,
    Update msg now m = Some (m', c)
    /\ total m' = total m /\ maxLog m' = maxLog m
    /\ wellCounted m'
    /\ completed (counts m) <= completed (counts m')
       <= completed (counts m) + 1
    /\ running (counts m') + completed (counts m')
       <= running (counts m) + completed (counts m)
          + (if isStart (msg, now) then 1 else 0).
Proof.
  intros Hwell Hmax Hc0 Hc.
  assert (Hsame : forall c : option Cmd,
            exists m' c',
              Some (m, c) = Some (m', c')
              /\ total m' = total m /\ maxLog m' = maxLog m
              /\ wellCounted m'
              /\ completed (counts m) <= completed (counts m')
                 <= completed (counts m) + 1
              /\ running (counts m') + completed (counts m')
                 <= running (counts m) + completed (counts m)
                    + (if isStart (msg, now) then 1 else 0)).
  { intros c. exists m, c. split; [done|]. split; [done|]. split; [done|].
    split; [done|]. split; [lia|]. destruct (isStart (msg, now)); lia. }
  destruct msg as [t|e|]; cbn [Update]; [apply Hsame| |apply Hsame].
  destruct (Type_ e =? EvtStart) eqn:Hstart.
  - destruct (active m !! Name e) as [it|] eqn:Hact; [apply Hsame|].
    clear Hsame. eexists _, _. split; [reflexivity|].
    destruct Hwell as (Hrun & Hlogs & Hp & Hf & Hn & He & Hsum).
    unfold wellCounted, isStart. cbn. rewrite Hstart.
    rewrite map_size_insert_None by done.
    repeat split; try done; try lia.
  - destruct (Type_ e =? EvtDone) eqn:Hdone; [|apply Hsame].
    destruct (active m !! Name e) as [it|] eqn:Hact; [|apply Hsame].
    clear Hsame.
    destruct Hwell as (Hrun & Hlogs & Hp & Hf & Hn & He & Hsum).
    destruct (lastLogs_length (maxLog m) (logs m)
                (mkLog (Name e) (instance it) (Status e) (Error_ e)
                   (now - start it)) Hmax) as (logs' & -> & Hlen).
    eexists _, _. split; [reflexivity|].
    pose proof (count_spec
                  (withRunning (counts m)
                     (Z.of_nat (size (delete (Name e) (active m)))))
                  (Status e)) as Hcount.
    cbn in Hcount.
    destruct Hcount as (Hrun' & Hcomp' & Hp' & Hf' & Hn' & He' & Hsum');
      try done; try lia.
    pose proof (size_delete_Some _ _ _ Hact) as Hsize.
    unfold wellCounted, isStart. cbn. rewrite Hstart.
    rewrite Hrun', Hcomp'.
    repeat split; try done; try lia.
Qed.

Lemma updates_inv (msgs : list (Msg * Z)) (m : Model) :
  wellCounted m -> 0 <= maxLog m ->
  0 <= completed (counts m) ->
  completed (counts m) + Z.of_nat (length msgs) < 2 ^ 63 ->
  exists m',
    updates msgs m = Some m'
    /\ total m' = total m /\ maxLog m' = maxLog m
    /\ wellCounted m'
    /\ completed (counts m) <= completed (counts m')
       <= completed (counts m) + Z.of_nat (length msgs)
    /\ running (counts m') + completed (counts m')
       <= running (counts m) + completed (counts m)
          + Z.of_nat (length (filter (fun msg => isStart msg = true) msgs)).
Proof.
  revert m. induction msgs as [|[msg now] msgs IH];
    intros m Hwell Hmax Hc0 Hc.
  - exists m. split; [done|]. split; [done|]. split; [done|].
    split; [done|]. cbn [length]. rewrite filter_nil. cbn [length]. lia.
  - cbn [length] in Hc. cbn [updates].
    destruct (Update_inv msg now m Hwell Hmax Hc0)
      as (m1 & c & -> & Htot & Hml & Hwell1 & Hcomp & Hrun); [lia|].
    destruct (IH m1 Hwell1) as (m' & -> & Htot' & Hml' & Hwell' & Hcomp' & Hrun');
      [lia|lia|lia|].
    exists m'. split; [done|].
    split; [congruence|]. split; [congruence|]. split; [done|].
    cbn [length]. rewrite filter_cons.
    destruct (decide (isStart (msg, now) = true)) as [Hs|Hs].
    + rewrite Hs in Hrun. cbn [length]. lia.
    + destruct (isStart (msg, now)); [done|]. lia.
Qed.

End ui_facts.

(** ** More about the scheduler *)

(** X1.  The pool never deadlocks.  At every instant of every run, as long
    as the counter of the wait group is positive, so that [Wait] blocks,
    some task can take its next step: a waiting task sends its permit, a
    running one ends its function, one whose function is over receives its
    permit back, and one that released calls [Done]. *)
Theorem pool_never_deadlocks (c : Z) (es : list pool.event)
    (s : pool.State) :
  pool.run (pool.init c) es = Some s ->
  0 < pool.wg (pool.pool_ s) ->
  exists i t e,
    pool.tasks s !! i = Some t
    /\ match pool.at_ t with
       | pool.Waiting => e = pool.EvSend i
       | pool.Running => e = pool.EvExit i pool.Returned
       | pool.Exiting _ => e = pool.EvRecv i
       | pool.Released => e = pool.EvDone i
       | pool.Finished => False
       end
    /\ is_Some (pool.step s e).
Proof.
  intros Hrun Hwg.
  pose proof (pool_facts.invariant_run c es _ s
                (pool_facts.invariant_init c) Hrun) as Hinv.
  apply (pool_progress.progress c s Hinv).
  by rewrite <- (pool.inv_wg _ _ Hinv).
Qed.

(** X1 on a pool of one permit with two tasks submitted, the first of
    which runs: the second cannot send, and the first can end. *)
Lemma pool_never_deadlocks_witness :
  let es := [pool.EvAdd; pool.EvSend 0; pool.EvAdd] in
  let s := pool.mkState (pool.mkPool 2 (pool.mkChan 1 1))
             [pool.mkTask pool.Running 1 0; pool.mkTask pool.Waiting 0 0] in
  pool.step s (pool.EvSend 1) = None
  /\ exists i t e,
       pool.tasks s !! i = Some t
       /\ match pool.at_ t with
          | pool.Waiting => e = pool.EvSend i
          | pool.Running => e = pool.EvExit i pool.Returned
          | pool.Exiting _ => e = pool.EvRecv i
          | pool.Released => e = pool.EvDone i
          | pool.Finished => False
          end
       /\ is_Some (pool.step s e).
Proof.
  intros es s. split; [reflexivity|].
  apply (pool_never_deadlocks 1 es s); [reflexivity|].
  vm_compute. reflexivity.
Defined.

(** X2.  [Wait] returns exactly when every submitted task is finished.  At
    every instant of every run the counter of the wait group is not
    negative, so [Done] never panics; [Wait] is enabled if and only if
    every task submitted so far, those blocked in [Go] included, has run
    its function and its deferred calls; and then the channel is empty and
    every task has acquired and given back exactly one permit. *)
Theorem pool_Wait_returns_when_all_finished (c : Z) (es : list pool.event)
    (s : pool.State) :
  pool.run (pool.init c) es = Some s ->
  0 <= pool.wg (pool.pool_ s)
  /\ (is_Some (pool.Wait s)
      <-> Forall (fun t => pool.at_ t = pool.Finished) (pool.tasks s))
  /\ (is_Some (pool.Wait s) ->
      pool.held (pool.sem (pool.pool_ s)) = 0
      /\ Forall (fun t => pool.acquired t = 1%nat
                          /\ pool.released t = 1%nat) (pool.tasks s)).
Proof.
  intros Hrun.
  pose proof (pool_facts.invariant_run c es _ s
                (pool_facts.invariant_init c) Hrun) as Hinv.
  pose proof (pool.inv_wg _ _ Hinv) as Hwg.
  assert (Hwait : is_Some (pool.Wait s)
                  <-> Forall (fun t => pool.at_ t = pool.Finished)
                        (pool.tasks s)).
  { rewrite <- pool_progress.pending_zero, <- Hwg. unfold pool.Wait.
    destruct (Z.eqb_spec (pool.wg (pool.pool_ s)) 0) as [Hz|Hnz].
    - split; [done|by eexists].
    - split; [by intros [x Hx]|done]. }
  split; [rewrite Hwg; unfold pool.pending; lia|].
  split; [exact Hwait|].
  intros Hsome. apply Hwait in Hsome. split.
  - rewrite (pool.inv_held _ _ Hinv). unfold pool.holders.
    apply pool_progress.count_zero_none.
    eapply Forall_impl; [exact Hsome|].
    intros t Ht. unfold pool.holds. by rewrite Ht.
  - pose proof (pool.inv_accounted _ _ Hinv) as Hacc.
    apply Forall_forall. intros t Hin.
    pose proof (proj1 (Forall_forall _ _) Hsome t Hin) as Ht.
    pose proof (proj1 (Forall_forall _ _) Hacc t Hin) as Ha.
    unfold pool.accounted in Ha. by rewrite Ht in Ha.
Qed.

(** X2 on the run of one task from [Go] to [Done]: [Wait] returns. *)
Lemma pool_Wait_returns_when_all_finished_witness :
  let es := [pool.EvAdd; pool.EvSend 0; pool.EvExit 0 pool.Returned;
             pool.EvRecv 0; pool.EvDone 0] in
  let s := pool.mkState (pool.mkPool 0 (pool.mkChan 1 0))
             [pool.mkTask pool.Finished 1 1] in
  pool.Wait s = Some s
  /\ 0 <= pool.wg (pool.pool_ s)
  /\ (is_Some (pool.Wait s)
      <-> Forall (fun t => pool.at_ t = pool.Finished) (pool.tasks s))
  /\ (is_Some (pool.Wait s) ->
      pool.held (pool.sem (pool.pool_ s)) = 0
      /\ Forall (fun t => pool.acquired t = 1%nat
                          /\ pool.released t = 1%nat) (pool.tasks s)).
Proof.
  intros es s. split; [reflexivity|].
  apply (pool_Wait_returns_when_all_finished 1 es s). reflexivity.
Defined.

(** X3.  [Go] blocks only at the limit.  At every instant of every run of
    a pool built with the limit [c], a task that waits to send its permit
    can do so if and only if fewer than [max(1, c)] tasks hold one. *)
Theorem pool_Go_blocks_only_at_capacity (c : Z) (es : list pool.event)
    (s : pool.State) (i a r : nat) :
  pool.run (pool.init c) es = Some s ->
  pool.tasks s !! i = Some (pool.mkTask pool.Waiting a r) ->
  is_Some (pool.step s (pool.EvSend i)) <-> pool.holders s < Z.max 1 c.
Proof.
  intros Hrun Hi.
  pose proof (pool_facts.invariant_run c es _ s
                (pool_facts.invariant_init c) Hrun) as Hinv.
  cbn [pool.step]. rewrite Hi.
  rewrite (pool.inv_held _ _ Hinv), (pool.inv_cap _ _ Hinv).
  destruct (Z.ltb_spec (pool.holders s) (Z.max 1 c)).
  - split; [done|by eexists].
  - split; [by intros [x Hx]|lia].
Qed.

(** X3 on a pool of two permits of which one is taken: the second task
    can send. *)
Lemma pool_Go_blocks_only_at_capacity_witness :
  let es := [pool.EvAdd; pool.EvSend 0; pool.EvAdd] in
  let s := pool.mkState (pool.mkPool 2 (pool.mkChan 2 1))
             [pool.mkTask pool.Running 1 0; pool.mkTask pool.Waiting 0 0] in
  is_Some (pool.step s (pool.EvSend 1)) <-> pool.holders s < Z.max 1 2.
Proof.
  intros es s.
  apply (pool_Go_blocks_only_at_capacity 2 es s 1 0 0); reflexivity.
Defined.

(** ** More about the browser pool *)

(** X4.  A pool that [LaunchPool] returns holds [max(1, n)] instances, all
    of them open; the instance at position [k] has the [ID] [k], and no two
    instances share a browser context. *)
Theorem LaunchPool_numbers_open_instances (warmup : nat -> option error)
    (n : Z) (w w' : browser.World) (is_ : browser.Instances) :
  browser.fresh w ->
  browser.LaunchPool warmup n w = (is_, None, w') ->
  length is_ = Z.to_nat (Z.max 1 n)
  /\ (forall k it,
        is_ !! k = Some it ->
        browser.ID it = Z.of_nat k /\ browser.isOpen w' it)
  /\ (forall k k' it it',
        is_ !! k = Some it -> is_ !! k' = Some it' ->
        browser.Ctx it = browser.Ctx it' -> k = k').
Proof.
  intros Hfresh Hlaunch.
  destruct (browser_ids.LaunchPool_launched warmup n w w' is_ Hfresh Hlaunch)
    as (Hnew & Hlen & Hopen & _).
  split; [done|]. split.
  - intros k it Hk. split.
    + rewrite Hnew in Hk.
      apply browser_ids.lookup_launched in Hk as [_ ->]. cbn. lia.
    + by apply (proj1 (Forall_lookup _ _) Hopen k).
  - intros k k' it it' Hk Hk' Hctx. rewrite Hnew in Hk, Hk'.
    apply browser_ids.lookup_launched in Hk as [_ ->].
    apply browser_ids.lookup_launched in Hk' as [_ ->].
    cbn in Hctx. lia.
Qed.

(** X4 on the launch of three browsers on a machine without any. *)
Lemma LaunchPool_numbers_open_instances_witness :
  exists is_ w',
    browser.LaunchPool (fun _ => None) 3 fixture.noBrowser = (is_, None, w')
    /\ length is_ = Z.to_nat (Z.max 1 3)
    /\ (forall k it,
          is_ !! k = Some it ->
          browser.ID it = Z.of_nat k /\ browser.isOpen w' it)
    /\ (forall k k' it it',
          is_ !! k = Some it -> is_ !! k' = Some it' ->
          browser.Ctx it = browser.Ctx it' -> k = k').
Proof.
  eexists _, _. split; [reflexivity|].
  apply (LaunchPool_numbers_open_instances (fun _ => None) 3
           fixture.noBrowser).
  - intros h Hh. by apply elem_of_empty in Hh.
  - reflexivity.
Defined.

(** X5.  Launching a pool and closing it again leaves the machine as it
    was: after [CloseAll] on the instances [LaunchPool] returned, the open
    contexts are exactly those that were open before the launch. *)
Theorem LaunchPool_then_CloseAll_restores (warmup : nat -> option error)
    (n : Z) (w w' : browser.World) (is_ : browser.Instances) :
  browser.fresh w ->
  browser.LaunchPool warmup n w = (is_, None, w') ->
  browser.live (browser.CloseAll is_ w') = browser.live w.
Proof.
  intros Hfresh Hlaunch.
  destruct (browser_ids.LaunchPool_launched warmup n w w' is_ Hfresh Hlaunch)
    as (Hnew & _ & _ & Hlive).
  unfold browser.CloseAll. rewrite browser_facts.closeAll_live, Hlive.
  assert (Hdisj : browser.live w ## browser.ownedAll is_).
  { intros h Hw Ho. rewrite Hnew in Ho.
    apply browser_ids.owned_launched in Ho. apply Hfresh in Hw. lia. }
  set_solver.
Qed.

(** X5 on two browsers launched beside a context that is already open. *)
Lemma LaunchPool_then_CloseAll_restores_witness :
  let w := browser.mkWorld {[7%nat]} 8%nat 0%nat in
  exists is_ w',
    browser.LaunchPool (fun _ => None) 2 w = (is_, None, w')
    /\ browser.live (browser.CloseAll is_ w') = browser.live w.
Proof.
  intros w. eexists _, _. split; [reflexivity|].
  apply (LaunchPool_then_CloseAll_restores (fun _ => None) 2 w).
  - intros h Hh. cbn in Hh. apply elem_of_singleton in Hh. subst h.
    cbn. lia.
  - reflexivity.
Defined.

(** X6.  On a launched pool [Pick] and [PickIdx] never panic: for the
    random number [r] both return the open instance at position
    [r mod len], whose [ID] is that position.  The index [PickIdx] returns
    beside it is the [ID] of the first instance, zero, whichever instance
    was picked. *)
Theorem PickIdx_index_is_first_ID (warmup : nat -> option error)
    (n : Z) (w w' : browser.World) (is_ : browser.Instances) (r : nat) :
  browser.fresh w ->
  browser.LaunchPool warmup n w = (is_, None, w') ->
  exists it,
    browser.Pick is_ r = Some it
    /\ browser.PickIdx is_ r = Some (it, 0)
    /\ is_ !! (r mod length is_)%nat = Some it
    /\ browser.ID it = Z.of_nat (r mod length is_)
    /\ browser.isOpen w' it.
Proof.
  intros Hfresh Hlaunch.
  destruct (browser_ids.LaunchPool_launched warmup n w w' is_ Hfresh Hlaunch)
    as (Hnew & Hlen & Hop & _).
  assert (Hpos : (0 < length is_)%nat) by lia.
  destruct (lookup_lt_is_Some_2 is_ (r mod length is_)%nat) as [it Hit].
  { apply Nat.mod_upper_bound. lia. }
  destruct (lookup_lt_is_Some_2 is_ 0%nat Hpos) as [it0 Hit0].
  pose proof (proj1 (Forall_lookup _ _) Hop _ _ Hit) as Hopen.
  assert (Hidk : browser.ID it = Z.of_nat (r mod length is_)).
  { pose proof Hit as Hit'. rewrite Hnew in Hit'. rewrite Hnew at 1.
    apply browser_ids.lookup_launched in Hit' as [_ ->]. cbn. lia. }
  assert (Hid0 : browser.ID it0 = 0).
  { pose proof Hit0 as Hit'. rewrite Hnew in Hit'.
    apply browser_ids.lookup_launched in Hit' as [_ ->]. cbn. lia. }
  exists it. unfold browser.Pick, browser.PickIdx, browser.Instances in *.
  destruct (length is_ =? 1)%nat eqn:Hone.
  - apply Nat.eqb_eq in Hone. rewrite Hone in *.
    rewrite Nat.mod_1_r in *. rewrite Hit in Hit0. inversion Hit0; subst it0.
    rewrite Hit. rewrite Hid0. done.
  - rewrite Hit, Hit0, Hid0. done.
Qed.

(** X6 on a pool of three browsers and the random number 5: the instance
    picked is the third, and the index returned is 0. *)
Lemma PickIdx_index_is_first_ID_witness :
  let p := browser.LaunchPool (fun _ => None) 3 fixture.noBrowser in
  exists it,
    browser.Pick p.1.1 5 = Some it
    /\ browser.PickIdx p.1.1 5 = Some (it, 0)
    /\ p.1.1 !! (5 mod length p.1.1)%nat = Some it
    /\ browser.ID it = Z.of_nat (5 mod length p.1.1)
    /\ browser.isOpen p.2 it.
Proof.
  intros p.
  apply (PickIdx_index_is_first_ID (fun _ => None) 3 fixture.noBrowser
           p.2 p.1.1 5%nat).
  - intros h Hh. by apply elem_of_empty in Hh.
  - reflexivity.
Defined.

(** ** More about the comparison *)

Section DiffExtras.
Import diff diffspec diff_facts diff_more.

Variable png_Decode : list Byte.byte -> option Image.
Variable png_Encode : Image -> option (list Byte.byte).
Variable Resize : Z -> Z -> Image -> Interpolation -> Image.
Variable ImageHash : Type.
Variable PerceptionHash : Image -> option ImageHash.
Variable Distance : ImageHash -> ImageHash -> option Z.

Local Abbreviation pixelDiff := (diff.pixelDiff Resize).
Local Abbreviation pHashDistance :=
  (diff.pHashDistance Resize ImageHash PerceptionHash Distance).
Local Abbreviation savePNG := (diff.savePNG png_Encode).
Local Abbreviation openPNG := (diff.openPNG png_Decode).
Local Abbreviation CompareFiles :=
  (diff.CompareFiles png_Decode png_Encode Resize ImageHash
     PerceptionHash Distance).

(** X7.  A comparison that fails leaves no trace.  Whenever [CompareFiles]
    returns an error, both results are zero values and the file system is
    as it was: no diff image is written.  The error is that of the missing
    baseline file, of a PNG that does not decode, of a size mismatch after
    the rescale, or of the perceptual hash. *)
Theorem CompareFiles_failure_leaves_no_trace
    (fs : os.FileSystem) (baselinePath : string) (buf : list Byte.byte)
    (diffPath : string) (pxThreshold : float) (phThreshold : Z)
    (px : PixelResult) (ph : PHashResult) (e : error)
    (fs' : os.FileSystem) :
  CompareFiles fs baselinePath buf diffPath pxThreshold phThreshold
  = (px, ph, Some e, fs') ->
  px = zeroPixelResult /\ ph = zeroPHashResult /\ fs' = fs
  /\ (e = ErrNotExist baselinePath \/ e = ErrDecode
      \/ e = ErrSizeMismatch \/ e = ErrHash).
Proof.
  intros Hcmp.
  destruct (CompareFiles_error png_Decode png_Encode Resize ImageHash
              PerceptionHash Distance _ _ _ _ _ _ _ _ _ _ Hcmp)
    as (Hpx & Hph & Hfs & Hcause).
  repeat split; try done.
  destruct (os.files fs !! baselinePath) as [data|]; [|auto].
  destruct (png_Decode data), (png_Decode buf); auto.
  destruct Hcause as [[-> _]|[-> _]]; auto.
Qed.

(** X8.  A missing baseline is reported as such, and nothing else is.
    When no file exists at the baseline path, [CompareFiles] returns the
    error of the failed open, whatever the screenshot holds; and the error
    it returns satisfies [os.IsNotExist] if and only if the baseline file
    is missing. *)
Theorem CompareFiles_IsNotExist_iff_baseline_missing
    (fs : os.FileSystem) (baselinePath : string) (buf : list Byte.byte)
    (diffPath : string) (pxThreshold : float) (phThreshold : Z) :
  (os.files fs !! baselinePath = None ->
   CompareFiles fs baselinePath buf diffPath pxThreshold phThreshold
   = (zeroPixelResult, zeroPHashResult, Some (ErrNotExist baselinePath), fs))
  /\ (os_IsNotExist
        (CompareFiles fs baselinePath buf diffPath pxThreshold
           phThreshold).1.2 = true
      <-> os.files fs !! baselinePath = None).
Proof.
  assert (Hmiss : os.files fs !! baselinePath = None ->
    CompareFiles fs baselinePath buf diffPath pxThreshold phThreshold
    = (zeroPixelResult, zeroPHashResult, Some (ErrNotExist baselinePath),
       fs)).
  { intros Hnone. unfold diff.CompareFiles, diff.openPNG, os.Open.
    by rewrite Hnone. }
  split; [exact Hmiss|]. split.
  - destruct (CompareFiles fs baselinePath buf diffPath pxThreshold
                phThreshold) as [[[px ph] [e|]] fs'] eqn:Hcmp; [|done].
    destruct (CompareFiles_error png_Decode png_Encode Resize ImageHash
                PerceptionHash Distance _ _ _ _ _ _ _ _ _ _ Hcmp)
      as (_ & _ & _ & Hcause).
    destruct (os.files fs !! baselinePath) as [data|]; [|done].
    cbn [fst snd].
    destruct (png_Decode data), (png_Decode buf);
      try (by rewrite Hcause).
    by destruct Hcause as [[-> _]|[-> _]].
  - intros Hnone. by rewrite (Hmiss Hnone).
Qed.

(** X9.  A screenshot identical to its baseline passes.  When the baseline
    file holds the very bytes of the screenshot, a PNG of positive size,
    the ratio is exactly zero, the pixel result passes for every threshold
    that is a number, negative ones included, no diff path is reported and
    nothing is written. *)
Theorem CompareFiles_identical_images_pass
    (fs : os.FileSystem) (baselinePath : string) (buf : list Byte.byte)
    (diffPath : string) (pxThreshold : float) (phThreshold : Z)
    (a : Image) (ph : PHashResult) :
  os.files fs !! baselinePath = Some buf ->
  png_Decode buf = Some a ->
  0 < Dx (Bounds a) -> 0 < Dy (Bounds a) ->
  Dx (Bounds a) * Dy (Bounds a) < 2 ^ 63 ->
  is_nan pxThreshold = false ->
  pHashDistance a a phThreshold = (ph, None) ->
  CompareFiles fs baselinePath buf diffPath pxThreshold phThreshold
  = (mkPixelResult true 0 "", ph, None, fs).
Proof.
  intros Hfile Ha Hw Hh Hwh Hnan Hph.
  assert (Hsame : rescaled Resize a a = a)
    by (by apply rescaled_same_size).
  destruct (pixelDiff_ok Resize a a (math_Max 0 pxThreshold))
    as (diffImg & Hpx & _); try rewrite Hsame; try done; try lia.
  assert (Hratio : ratioOf Resize a a = 0%float).
  { unfold ratioOf. rewrite Hsame, countMismatch_refl.
    apply float_more.ratio_zero. lia. }
  rewrite Hratio in Hpx.
  rewrite (float_facts.math_Max_nonneg _ Hnan) in Hpx.
  by rewrite (CompareFiles_ok png_Decode png_Encode Resize ImageHash
                PerceptionHash Distance fs baselinePath buf diffPath
                pxThreshold phThreshold buf a a _ diffImg ph
                Hfile Ha Ha Hpx Hph).
Qed.

(** X10.  The pixel metric is symmetric.  For two images of one size,
    [pixelDiff] returns the same ratio and the same verdict whichever of
    the two is taken as the baseline. *)
Theorem pixelDiff_symmetric (a b : Image) (threshold : float) :
  Dx (Bounds b) = Dx (Bounds a) -> Dy (Bounds b) = Dy (Bounds a) ->
  0 <= Dx (Bounds a) -> 0 <= Dy (Bounds a) ->
  Dx (Bounds a) * Dy (Bounds a) < 2 ^ 63 ->
  exists px px' img img',
    pixelDiff a b threshold = (px, Some img, None)
    /\ pixelDiff b a threshold = (px', Some img', None)
    /\ px' = px.
Proof.
  intros Hdx Hdy Hw Hh Hwh.
  assert (Hab : rescaled Resize a b = b) by (by apply rescaled_same_size).
  assert (Hba : rescaled Resize b a = a) by (by apply rescaled_same_size).
  destruct (pixelDiff_ok Resize a b threshold)
    as (img & Hpx & _); try rewrite Hab; try done.
  destruct (pixelDiff_ok Resize b a threshold)
    as (img' & Hpx' & _); try rewrite Hba; try done; try lia.
  eexists _, _, img, img'. split; [exact Hpx|]. split; [exact Hpx'|].
  assert (Hr : ratioOf Resize b a = ratioOf Resize a b).
  { unfold ratioOf. rewrite Hab, Hba, Hdx, Hdy.
    by rewrite countMismatch_sym. }
  by rewrite Hr.
Qed.

(** X11.  A threshold of zero asks for an exact match.  For every integer
    threshold of zero or less, which the clamp turns into zero, the pixel
    result of a comparison that completes passes if and only if the
    screenshot, after the rescale, differs from the baseline in no pixel:
    at every position all four channels are equal. *)
Theorem CompareFiles_zero_threshold_is_exact
    (fs : os.FileSystem) (baselinePath : string) (buf : list Byte.byte)
    (diffPath : string) (thr : Z) (phThreshold : Z)
    (data : list Byte.byte) (a b : Image) (ph : PHashResult) :
  let b' := rescaled Resize a b in
  let w := Dx (Bounds a) in
  let h := Dy (Bounds a) in
  - 2 ^ 63 < thr <= 0 ->
  os.files fs !! baselinePath = Some data ->
  png_Decode data = Some a ->
  png_Decode buf = Some b ->
  Dx (Bounds b') = w -> Dy (Bounds b') = h ->
  0 < w -> 0 < h -> w * h < 2 ^ 63 ->
  pHashDistance a b phThreshold = (ph, None) ->
  exists px fs',
    CompareFiles fs baselinePath buf diffPath (float64 thr) phThreshold
    = (px, ph, None, fs')
    /\ Pass px = (countMismatch a b' w h =? 0)
    /\ (Pass px = true
        <-> forall x y, 0 <= x < w -> 0 <= y < h ->
              mismatch (At a x y) (At b' x y) = false).
Proof.
  intros b' w h Hthr Hfile Ha Hb Hdx Hdy Hw Hh Hwh Hph.
  destruct (pixelDiff_ok Resize a b (math_Max 0 (float64 thr)))
    as (diffImg & Hpx & _); try done; try lia.
  fold b' w h in Hpx.
  rewrite (CompareFiles_ok png_Decode png_Encode Resize ImageHash
             PerceptionHash Distance fs baselinePath buf diffPath
             (float64 thr) phThreshold data a b _ diffImg ph
             Hfile Ha Hb Hpx Hph).
  cbn [Pass RatioDiff].
  pose proof (countMismatch_le a b' w h ltac:(lia) ltac:(lia)) as Hk.
  assert (Hpass : (ratioOf Resize a b <=? math_Max 0 (float64 thr))%float
                  = (countMismatch a b' w h =? 0)).
  { rewrite float_more.math_Max_nonpositive by lia.
    unfold ratioOf. fold b' w h.
    by destruct (float_more.ratio_range (countMismatch a b' w h) (w * h))
      as (_ & _ & ->); try lia. }
  rewrite Hpass.
  assert (Hiff : (countMismatch a b' w h =? 0) = true
                 <-> forall x y, 0 <= x < w -> 0 <= y < h ->
                       mismatch (At a x y) (At b' x y) = false).
  { rewrite Z.eqb_eq. apply countMismatch_zero. }
  destruct (countMismatch a b' w h =? 0) eqn:Hz.
  - eexists _, _. split; [reflexivity|]. done.
  - eexists _, _. split; [reflexivity|]. done.
Qed.

(** X12.  The ratio is a fraction.  For every comparison that completes on
    a baseline of positive size, the ratio the pixel result reports lies
    between zero and one. *)
Theorem RatioDiff_is_a_fraction
    (fs : os.FileSystem) (baselinePath : string) (buf : list Byte.byte)
    (diffPath : string) (pxThreshold : float) (phThreshold : Z)
    (data : list Byte.byte) (a : Image)
    (px : PixelResult) (ph : PHashResult) (fs' : os.FileSystem) :
  os.files fs !! baselinePath = Some data ->
  png_Decode data = Some a ->
  0 < Dx (Bounds a) -> 0 < Dy (Bounds a) ->
  Dx (Bounds a) * Dy (Bounds a) < 2 ^ 63 ->
  CompareFiles fs baselinePath buf diffPath pxThreshold phThreshold
  = (px, ph, None, fs') ->
  (0 <=? RatioDiff px)%float = true /\ (RatioDiff px <=? 1)%float = true.
Proof.
  intros Hfile Ha Hw Hh Hwh Hcmp.
  destruct (CompareFiles_inv png_Decode png_Encode Resize ImageHash
              PerceptionHash Distance _ _ _ _ _ _ _ _ _ Hcmp)
    as (data' & a' & b & px0 & diffImg & Hfile' & Ha' & Hb & Hpx & Hph).
  rewrite Hfile in Hfile'. inversion Hfile'; subst data'.
  rewrite Ha in Ha'. inversion Ha'; subst a'.
  rewrite (CompareFiles_ok png_Decode png_Encode Resize ImageHash
             PerceptionHash Distance fs baselinePath buf diffPath
             pxThreshold phThreshold data a b px0 diffImg ph
             Hfile Ha Hb Hpx Hph) in Hcmp.
  assert (Hratio : RatioDiff px = RatioDiff px0).
  { by destruct (Pass px0); inversion Hcmp; subst. }
  destruct (pixelDiff_inv Resize _ _ _ _ _ Hpx) as (Hdx & Hdy & _).
  destruct (pixelDiff_ok Resize a b (math_Max 0 pxThreshold))
    as (diffImg' & Hpx' & _); try done; try lia.
  rewrite Hpx in Hpx'. inversion Hpx'; subst px0.
  rewrite Hratio. cbn [RatioDiff]. unfold ratioOf.
  pose proof (countMismatch_le a (rescaled Resize a b) (Dx (Bounds a))
                (Dy (Bounds a)) ltac:(lia) ltac:(lia)) as Hk.
  destruct (float_more.ratio_range
              (countMismatch a (rescaled Resize a b) (Dx (Bounds a))
                 (Dy (Bounds a)))
              (Dx (Bounds a) * Dy (Bounds a))) as (Hlo & Hhi & _);
    try lia.
  done.
Qed.

(** X13.  What [savePNG] writes, [openPNG] reads.  When the file can be
    created and the image encodes, [savePNG] returns no error, the file
    holds the encoding, every other file is as it was, and [openPNG] on
    the path returns what the codec decodes from the encoding.  When the
    file cannot be created, [savePNG] returns the error of [os.Create] and
    the file system is as it was. *)
Theorem savePNG_then_openPNG (fs : os.FileSystem) (path : string)
    (img : Image) :
  (forall data,
     os.creatable fs path = true -> png_Encode img = Some data ->
     exists fs',
       savePNG fs path img = (fs', None)
       /\ os.files fs' !! path = Some data
       /\ (forall p, p <> path -> os.files fs' !! p = os.files fs !! p)
       /\ openPNG fs' path
          = match png_Decode data with
            | Some img' => (Some img', None)
            | None => (None, Some ErrDecode)
            end)
  /\ (os.creatable fs path = false ->
      savePNG fs path img = (fs, Some (ErrCreate path))).
Proof.
  split.
  - intros data Hcr Henc. unfold diff.savePNG, os.Create.
    rewrite Hcr, Henc. eexists. split; [reflexivity|].
    cbn [os.Write_ os.files]. split; [apply lookup_insert_eq|]. split.
    + intros p Hp. by rewrite !lookup_insert_ne.
    + unfold diff.openPNG, os.Open, os.Write_. cbn [os.files].
      rewrite lookup_insert_eq. by destruct (png_Decode data).
  - intros Hcr. unfold diff.savePNG, os.Create. by rewrite Hcr.
Qed.

End DiffExtras.

(** X7 on a screenshot that is no PNG: the error of the decoder, and the
    disk as it was. *)
Lemma CompareFiles_failure_leaves_no_trace_witness :
  let fs := fixture.disk [("b", fixture.blackBlack)] in
  fixture.CompareFiles fs "b" (fixture.bytes [9]) "d" 0%float 10
  = (diff.zeroPixelResult, diff.zeroPHashResult, Some ErrDecode, fs)
  /\ diff.zeroPixelResult = diff.zeroPixelResult
  /\ diff.zeroPHashResult = diff.zeroPHashResult
  /\ fs = fs
  /\ (ErrDecode = ErrNotExist "b" \/ ErrDecode = ErrDecode
      \/ ErrDecode = ErrSizeMismatch \/ ErrDecode = ErrHash).
Proof.
  intros fs.
  assert (Hcmp :
    fixture.CompareFiles fs "b" (fixture.bytes [9]) "d" 0%float 10
    = (diff.zeroPixelResult, diff.zeroPHashResult, Some ErrDecode, fs)).
  { vm_compute. reflexivity. }
  split; [exact Hcmp|].
  exact (CompareFiles_failure_leaves_no_trace fixture.png_Decode
           fixture.png_Encode fixture.Resize fixture.ImageHash
           fixture.PerceptionHash fixture.Distance fs "b"
           (fixture.bytes [9]) "d" 0%float 10 _ _ _ _ Hcmp).
Defined.

(** X9 on a baseline that is the screenshot, with a negative threshold. *)
Lemma CompareFiles_identical_images_pass_witness :
  let fs := fixture.disk [("b", fixture.blackWhite)] in
  fixture.CompareFiles fs "b" fixture.blackWhite "d" (- (1))%float 10
  = (diff.mkPixelResult true 0 "", diff.mkPHashResult true 0, None, fs).
Proof.
  intros fs.
  apply (CompareFiles_identical_images_pass fixture.png_Decode
           fixture.png_Encode fixture.Resize fixture.ImageHash
           fixture.PerceptionHash fixture.Distance fs "b"
           fixture.blackWhite "d" (- (1))%float 10
           (fixture.imageOf fixture.blackWhite)
           (diff.mkPHashResult true 0)).
  - vm_compute. reflexivity.
  - vm_compute. reflexivity.
  - vm_compute. reflexivity.
  - vm_compute. reflexivity.
  - vm_compute. reflexivity.
  - vm_compute. reflexivity.
  - vm_compute. reflexivity.
Defined.

(** X10 on the black image and the black and white one. *)
Lemma pixelDiff_symmetric_witness :
  let a := fixture.imageOf fixture.blackBlack in
  let b := fixture.imageOf fixture.blackWhite in
  exists px px' img img',
    diff.pixelDiff fixture.Resize a b 0.25%float = (px, Some img, None)
    /\ diff.pixelDiff fixture.Resize b a 0.25%float = (px', Some img', None)
    /\ px' = px.
Proof.
  intros a b.
  apply (pixelDiff_symmetric fixture.Resize a b 0.25%float).
  - vm_compute. reflexivity.
  - vm_compute. reflexivity.
  - vm_compute. discriminate.
  - vm_compute. discriminate.
  - vm_compute. reflexivity.
Defined.

(** X11 on a screenshot that differs from its baseline in one pixel of
    two, with the threshold zero: the pixel result fails. *)
Lemma CompareFiles_zero_threshold_is_exact_witness :
  let fs := fixture.disk [("b", fixture.blackBlack)] in
  let a := fixture.imageOf fixture.blackBlack in
  let b := fixture.imageOf fixture.blackWhite in
  exists px fs',
    fixture.CompareFiles fs "b" fixture.blackWhite "d" (float64 0) 10
    = (px, diff.mkPHashResult true 0, None, fs')
    /\ diff.Pass px
       = (diffspec.countMismatch a (diffspec.rescaled fixture.Resize a b)
            (Dx (Bounds a)) (Dy (Bounds a)) =? 0)
    /\ (diff.Pass px = true
        <-> forall x y,
              0 <= x < Dx (Bounds a) -> 0 <= y < Dy (Bounds a) ->
              diff.mismatch (At a x y)
                (At (diffspec.rescaled fixture.Resize a b) x y) = false).
Proof.
  intros fs a b.
  apply (CompareFiles_zero_threshold_is_exact fixture.png_Decode
           fixture.png_Encode fixture.Resize fixture.ImageHash
           fixture.PerceptionHash fixture.Distance fs "b"
           fixture.blackWhite "d" 0 10 fixture.blackBlack a b
           (diff.mkPHashResult true 0)).
  - lia.
  - vm_compute. reflexivity.
  - vm_compute. reflexivity.
  - vm_compute. reflexivity.
  - vm_compute. reflexivity.
  - vm_compute. reflexivity.
  - vm_compute. reflexivity.
  - vm_compute. reflexivity.
  - vm_compute. reflexivity.
  - vm_compute. reflexivity.
Defined.

(** X12 on a screenshot that differs from its baseline in one pixel of two:
    the ratio is one half. *)
Lemma RatioDiff_is_a_fraction_witness :
  let fs := fixture.disk [("b", fixture.blackBlack)] in
  let px := diff.mkPixelResult false 0.5 "d" in
  let fs' := fixture.disk [("d", fixture.bytes [2; 1; 0; 255]);
                           ("b", fixture.blackBlack)] in
  fixture.CompareFiles fs "b" fixture.blackWhite "d" 0%float 10
  = (px, diff.mkPHashResult true 0, None, fs')
  /\ (0 <=? diff.RatioDiff px)%float = true
  /\ (diff.RatioDiff px <=? 1)%float = true.
Proof.
  intros fs px fs'.
  assert (Hcmp :
    fixture.CompareFiles fs "b" fixture.blackWhite "d" 0%float 10
    = (px, diff.mkPHashResult true 0, None, fs')).
  { vm_compute. reflexivity. }
  split; [exact Hcmp|].
  apply (RatioDiff_is_a_fraction fixture.png_Decode fixture.png_Encode
           fixture.Resize fixture.ImageHash fixture.PerceptionHash
           fixture.Distance fs "b" fixture.blackWhite "d" 0%float 10
           fixture.blackBlack (fixture.imageOf fixture.blackBlack)
           px (diff.mkPHashResult true 0) fs').
  - vm_compute. reflexivity.
  - vm_compute. reflexivity.
  - vm_compute. reflexivity.
  - vm_compute. reflexivity.
  - vm_compute. reflexivity.
  - exact Hcmp.
Defined.

(** ** More about the task loop and the report *)

Section MainExtras.
Import main mainspec main_facts main_more.

Variable png_Decode : list Byte.byte -> option Image.
Variable png_Encode : Image -> option (list Byte.byte).
Variable Resize : Z -> Z -> Image -> diff.Interpolation -> Image.
Variable ImageHash : Type.
Variable PerceptionHash : Image -> option ImageHash.
Variable Distance : ImageHash -> ImageHash -> option Z.
Variable filepath_Join : list string -> string.
Variable Capture :
  snapshot.Context -> browser.Instance -> string -> string -> Z -> Z ->
  list string -> list Byte.byte * option error.
Variable rnd : nat -> nat.
Variable flags : main.Flags.
Variable baseDir : string.
Variable cfg : config.OsnapBaseConfig.
Variable brs : browser.Instances.

Local Abbreviation run :=
  (main.run png_Decode png_Encode Resize ImageHash PerceptionHash
     Distance filepath_Join Capture rnd flags baseDir cfg brs).
Local Abbreviation outcome :=
  (mainspec.outcome png_Decode png_Encode Resize ImageHash PerceptionHash
     Distance filepath_Join Capture flags baseDir cfg).
Local Abbreviation diffPathOf := (main.diffPathOf filepath_Join baseDir).
Local Abbreviation baselinePathOf :=
  (main.baselinePathOf filepath_Join baseDir).
Local Abbreviation run_slots :=
  (main_more.run_slots png_Decode png_Encode Resize ImageHash
     PerceptionHash Distance filepath_Join Capture rnd flags baseDir cfg
     brs).

(** X14.  No run ever reports a missing baseline as such.  Whatever the
    cases, the disk and the order in which the tasks complete, the counter
    [NoBaseline] of the report is zero and no case of the report has the
    status no-baseline. *)
Theorem run_never_reports_no_baseline (configs : list config.OsnapConfig)
    (order : list nat) (fs0 : os.FileSystem) (now : string) :
  brs <> [] ->
  main.schedule flags configs order ->
  exists rep st,
    run configs order fs0 now = Some (rep, st)
    /\ report.NoBaseline rep = 0
    /\ Forall (fun c => report.Status c <> "no-baseline") (report.Cases rep).
Proof.
  intros Hne Hsched.
  destruct (run_slots configs order fs0 now Hne Hsched)
    as (rep & st & Hrun & Hcases & Hlen & Hrep & Hslots).
  exists rep, st. split; [done|].
  assert (Hall : Forall (fun c => report.Status c <> "no-baseline")
                   (results st)).
  { apply Forall_lookup. intros i c Hc.
    destruct (Hslots i c Hc) as [(s & b & fs1 & _ & ->)|[_ ->]]; [|done].
    apply outcome_never_no_baseline. }
  split; [|by rewrite Hcases].
  rewrite Hrep. cbn [report.NoBaseline]. by apply CountStatus_none.
Qed.

(** X15.  Without a limit in force the counters partition the cases.  When
    the flag [limit] is zero or less, or at least the number of cases,
    every run returns a report whose total is the number of cases and the
    sum of the cases that passed, failed and errored; every case of the
    report has one of these three statuses. *)
Theorem run_without_limit_partitions (configs : list config.OsnapConfig)
    (order : list nat) (fs0 : os.FileSystem) (now : string) :
  brs <> [] ->
  main.schedule flags configs order ->
  limit flags <= 0 \/ Z.of_nat (length configs) <= limit flags ->
  exists rep st,
    run configs order fs0 now = Some (rep, st)
    /\ report.Total rep = Z.of_nat (length configs)
    /\ report.Total rep
       = report.Passed rep + report.Failed rep + report.Errored rep
    /\ Forall (fun c => report.Status c ∈ ["pass"; "fail"; "error"])
         (report.Cases rep).
Proof.
  intros Hne Hsched Hlim.
  pose proof (configsToProcess_all flags configs Hlim) as Hall.
  destruct (run_slots configs order fs0 now Hne Hsched)
    as (rep & st & Hrun & Hcases & Hlen & Hrep & Hslots).
  exists rep, st. split; [done|].
  assert (Hst : Forall (fun c => report.Status c ∈ ["pass"; "fail"; "error"])
                  (results st)).
  { apply Forall_lookup. intros i c Hc.
    destruct (Hslots i c Hc) as [(s & b & fs1 & _ & ->)|[Hge _]].
    - rewrite !elem_of_cons.
      destruct (outcome_status png_Decode png_Encode Resize ImageHash
                  PerceptionHash Distance filepath_Join Capture flags
                  baseDir cfg s b fs1) as [-> | [-> | ->]]; auto.
    - apply lookup_lt_Some in Hc. rewrite Hall in Hge. lia. }
  assert (Hterm : Forall (fun c => report.Status c ∈ terminal) (results st)).
  { eapply Forall_impl; [exact Hst|]. intros c. unfold terminal.
    rewrite !elem_of_cons. tauto. }
  assert (Hnb : report.CountStatus (results st) "no-baseline" = 0).
  { apply CountStatus_none. eapply Forall_impl; [exact Hst|].
    intros c. rewrite !elem_of_cons, elem_of_nil.
    intros [-> | [-> | [-> | Hn]]]; done. }
  pose proof (counters_partition _ Hterm) as Hsum.
  rewrite Hrep. cbn [report.Total report.Passed report.Failed
                     report.Errored report.Cases].
  split; [by rewrite Hlen|]. split; [lia|done].
Qed.

(** X16.  Every entry of a report is well formed.  In the report of every
    run, a case with the status pass carries a pixel result that passes
    and names no diff image; a case with the status fail carries a pixel
    result that fails and names the diff path of the case; both carry the
    perceptual result and an empty error text; a case with the status
    error carries the text of its error and neither result; and the slot
    of every submitted case holds one of these three, never the zero
    value. *)
Theorem report_cases_are_consistent (configs : list config.OsnapConfig)
    (order : list nat) (fs0 : os.FileSystem) (now : string) :
  brs <> [] ->
  main.schedule flags configs order ->
  exists rep st,
    run configs order fs0 now = Some (rep, st)
    /\ Forall runspec.consistent (report.Cases rep)
    /\ forall i s,
         main.configsToProcess flags configs !! i = Some s ->
         exists c,
           report.Cases rep !! i = Some c
           /\ report.Status c ∈ ["pass"; "fail"; "error"]
           /\ report.Name c = config.Name s
           /\ report.OutPath c = diffPathOf s
           /\ report.Baseline c = baselinePathOf s.
Proof.
  intros Hne Hsched.
  destruct (run_slots configs order fs0 now Hne Hsched)
    as (rep & st & Hrun & Hcases & Hlen & Hrep & Hslots).
  exists rep, st. split; [done|]. rewrite Hcases. split.
  - apply Forall_lookup. intros i c Hc.
    destruct (Hslots i c Hc) as [(s & b & fs1 & _ & ->)|[_ ->]].
    + apply outcome_consistent.
    + right. right. by right.
  - intros i s Hs.
    pose proof (length_configsToProcess flags configs) as Hle.
    destruct (lookup_lt_is_Some_2 (results st) i) as [c Hc].
    { apply lookup_lt_Some in Hs. lia. }
    exists c. split; [done|].
    destruct (Hslots i c Hc) as [(s' & b & fs1 & Hs' & ->)|[Hge _]].
    + rewrite Hs in Hs'. inversion Hs'; subst s'.
      pose proof (outcome_names png_Decode png_Encode Resize ImageHash
                    PerceptionHash Distance filepath_Join Capture flags
                    baseDir cfg s b fs1) as (Hn & _ & Hb & Ho).
      repeat split; try done.
      rewrite !elem_of_cons.
      destruct (outcome_status png_Decode png_Encode Resize ImageHash
                  PerceptionHash Distance filepath_Join Capture flags
                  baseDir cfg s b fs1) as [-> | [-> | ->]]; auto.
    + apply lookup_lt_Some in Hs. lia.
Qed.


(** X18.  The report does not depend on the order in which the tasks
    complete.  When no diff path of a submitted case is the baseline path
    of one, any two completion orders give the same report, and the slot
    of each submitted case holds the outcome of that case on the disk the
    run started with, for the instance its task picked. *)
Theorem report_independent_of_completion_order
    (configs : list config.OsnapConfig) (order order' : list nat)
    (fs0 : os.FileSystem) (now : string) :
  brs <> [] ->
  main.schedule flags configs order ->
  main.schedule flags configs order' ->
  (forall s s',
     s ∈ main.configsToProcess flags configs ->
     s' ∈ main.configsToProcess flags configs ->
     diffPathOf s <> baselinePathOf s') ->
  exists rep st st',
    run configs order fs0 now = Some (rep, st)
    /\ run configs order' fs0 now = Some (rep, st')
    /\ forall i s,
         main.configsToProcess flags configs !! i = Some s ->
         report.Cases rep !! i
         = Some (outcome s (runspec.instanceOf rnd brs i) fs0).1.
Proof.
  intros Hne Hsched Hsched' Hpaths.
  destruct (run_slots configs order fs0 now Hne Hsched)
    as (rep & st & Hrun & Hcases & Hlen & Hrep & _).
  destruct (run_slots configs order' fs0 now Hne Hsched')
    as (rep' & st' & Hrun' & Hcases' & Hlen' & Hrep' & _).
  destruct (run_inv png_Decode png_Encode Resize ImageHash PerceptionHash
              Distance filepath_Join Capture rnd flags baseDir cfg brs
              _ _ _ _ _ _ Hrun) as (st0 & Hfs0 & Hres0 & Htasks & _).
  destruct (run_inv png_Decode png_Encode Resize ImageHash PerceptionHash
              Distance filepath_Join Capture rnd flags baseDir cfg brs
              _ _ _ _ _ _ Hrun') as (st0' & Hfs0' & Hres0' & Htasks' & _).
  pose proof (length_configsToProcess flags configs) as Hle.
  pose proof (runTasks_results png_Decode png_Encode Resize ImageHash
                PerceptionHash Distance filepath_Join Capture rnd flags
                baseDir cfg brs (main.configsToProcess flags configs)
                order fs0 st0 st Hne) as Hres.
  pose proof (runTasks_results png_Decode png_Encode Resize ImageHash
                PerceptionHash Distance filepath_Join Capture rnd flags
                baseDir cfg brs (main.configsToProcess flags configs)
                order' fs0 st0' st' Hne) as Hres'.
  rewrite Hres0, length_replicate in Hres.
  rewrite Hres0', length_replicate in Hres'.
  specialize (Hres Hle Hpaths). specialize (Hres' Hle Hpaths).
  rewrite Hfs0 in Hres. rewrite Hfs0' in Hres'.
  specialize (Hres (fun _ _ => eq_refl) Htasks).
  specialize (Hres' (fun _ _ => eq_refl) Htasks').
  assert (Hmem : forall i, i ∈ order <-> i ∈ order').
  { intros i. unfold main.schedule in *. by rewrite Hsched, Hsched'. }
  assert (Heq : results st = results st').
  { apply list_eq. intros i. rewrite Hres, Hres'.
    destruct (decide (i ∈ order)) as [Hin|Hnin].
    - rewrite !bool_decide_eq_true_2; try done. by apply Hmem.
    - rewrite !bool_decide_eq_false_2; try done. by rewrite <- Hmem. }
  exists rep, st, st'. split; [done|]. split.
  - rewrite Hrun'. do 2 f_equal. rewrite Hrep, Hrep'. by rewrite Heq.
  - intros i s Hs. rewrite Hcases, Hres.
    rewrite bool_decide_eq_true_2.
    + by rewrite Hs.
    + unfold main.schedule in Hsched. rewrite Hsched.
      apply elem_of_seq. apply lookup_lt_Some in Hs. lia.
Qed.

End MainExtras.

(** X19.  [CountStatus] counts the cases with the status.  Its result is
    the number of cases of the list whose status is the given one: it lies
    between zero and the length of the list, it is the length exactly when
    every case has the status, and the count of a concatenation is the sum
    of the counts. *)
Theorem CountStatus_counts_the_matching_cases
    (cases cases' : list report.CaseResult) (status : string) :
  report.CountStatus cases status
  = Z.of_nat (length (filter (fun c => report.Status c = status) cases))
  /\ 0 <= report.CountStatus cases status <= Z.of_nat (length cases)
  /\ (report.CountStatus cases status = Z.of_nat (length cases)
      <-> Forall (fun c => report.Status c = status) cases)
  /\ report.CountStatus (cases ++ cases') status
     = report.CountStatus cases status + report.CountStatus cases' status.
Proof.
  pose proof (main_more.CountStatus_filter cases status) as Hf.
  pose proof (length_filter (fun c => report.Status c = status) cases)
    as Hle.
  split; [done|]. split; [lia|]. split.
  - rewrite Hf, <- main_more.length_filter_all. apply Nat2Z.inj_iff.
  - apply main_more.CountStatus_app.
Qed.


(** X14 on two cases without baseline images: both are reported as
    errors. *)
Lemma run_never_reports_no_baseline_witness :
  exists rep st,
    fixture.run fixture.noLimit [fixture.story "a"; fixture.story "b"]
      [1%nat; 0%nat] (fixture.disk []) "now" = Some (rep, st)
    /\ report.NoBaseline rep = 0
    /\ Forall (fun c => report.Status c <> "no-baseline") (report.Cases rep).
Proof.
  apply (run_never_reports_no_baseline fixture.png_Decode fixture.png_Encode
           fixture.Resize fixture.ImageHash fixture.PerceptionHash
           fixture.Distance fixture.filepath_Join fixture.Capture
           (fun _ => 0%nat) fixture.noLimit "proj" fixture.base
           [fixture.instance0]
           [fixture.story "a"; fixture.story "b"] [1%nat; 0%nat]
           (fixture.disk []) "now").
  - discriminate.
  - unfold main.schedule. vm_compute. apply perm_swap.
Defined.

(** X15 on two cases, one with a baseline image that differs from the
    screenshot and one without. *)
Lemma run_without_limit_partitions_witness :
  let configs := [fixture.story "a"; fixture.story "b"] in
  let fs0 := fixture.disk [(fixture.baselinePathOf (fixture.story "a"),
                            fixture.blackBlack)] in
  exists rep st,
    fixture.run fixture.noLimit configs [1%nat; 0%nat] fs0 "now"
    = Some (rep, st)
    /\ report.Total rep = Z.of_nat (length configs)
    /\ report.Total rep
       = report.Passed rep + report.Failed rep + report.Errored rep
    /\ Forall (fun c => report.Status c ∈ ["pass"; "fail"; "error"])
         (report.Cases rep).
Proof.
  intros configs fs0.
  apply (run_without_limit_partitions fixture.png_Decode fixture.png_Encode
           fixture.Resize fixture.ImageHash fixture.PerceptionHash
           fixture.Distance fixture.filepath_Join fixture.Capture
           (fun _ => 0%nat) fixture.noLimit "proj" fixture.base
           [fixture.instance0] configs [1%nat; 0%nat] fs0 "now").
  - discriminate.
  - unfold main.schedule. vm_compute. apply perm_swap.
  - left. vm_compute. discriminate.
Defined.

(** X16 on the same run. *)
Lemma report_cases_are_consistent_witness :
  let configs := [fixture.story "a"; fixture.story "b"] in
  let fs0 := fixture.disk [(fixture.baselinePathOf (fixture.story "a"),
                            fixture.blackBlack)] in
  exists rep st,
    fixture.run fixture.noLimit configs [1%nat; 0%nat] fs0 "now"
    = Some (rep, st)
    /\ Forall runspec.consistent (report.Cases rep)
    /\ forall i s,
         main.configsToProcess fixture.noLimit configs !! i = Some s ->
         exists c,
           report.Cases rep !! i = Some c
           /\ report.Status c ∈ ["pass"; "fail"; "error"]
           /\ report.Name c = config.Name s
           /\ report.OutPath c = fixture.diffPathOf s
           /\ report.Baseline c = fixture.baselinePathOf s.
Proof.
  intros configs fs0.
  apply (report_cases_are_consistent fixture.png_Decode fixture.png_Encode
           fixture.Resize fixture.ImageHash fixture.PerceptionHash
           fixture.Distance fixture.filepath_Join fixture.Capture
           (fun _ => 0%nat) fixture.noLimit "proj" fixture.base
           [fixture.instance0] configs [1%nat; 0%nat] fs0 "now").
  - discriminate.
  - unfold main.schedule. vm_compute. apply perm_swap.
Defined.


(** X18 on the same cases, completing in either order. *)
Lemma report_independent_of_completion_order_witness :
  let configs := [fixture.story "a"; fixture.story "b"] in
  let fs0 := fixture.disk [(fixture.baselinePathOf (fixture.story "a"),
                            fixture.blackBlack)] in
  exists rep st st',
    fixture.run fixture.noLimit configs [0%nat; 1%nat] fs0 "now"
    = Some (rep, st)
    /\ fixture.run fixture.noLimit configs [1%nat; 0%nat] fs0 "now"
       = Some (rep, st')
    /\ forall i s,
         main.configsToProcess fixture.noLimit configs !! i = Some s ->
         report.Cases rep !! i
         = Some (mainspec.outcome fixture.png_Decode fixture.png_Encode
                   fixture.Resize fixture.ImageHash fixture.PerceptionHash
                   fixture.Distance fixture.filepath_Join fixture.Capture
                   fixture.noLimit "proj" fixture.base s
                   (runspec.instanceOf (fun _ => 0%nat) [fixture.instance0]
                      i) fs0).1.
Proof.
  intros configs fs0.
  apply (report_independent_of_completion_order fixture.png_Decode
           fixture.png_Encode fixture.Resize fixture.ImageHash
           fixture.PerceptionHash fixture.Distance fixture.filepath_Join
           fixture.Capture (fun _ => 0%nat) fixture.noLimit "proj"
           fixture.base [fixture.instance0] configs
           [0%nat; 1%nat] [1%nat; 0%nat] fs0 "now").
  - discriminate.
  - unfold main.schedule. vm_compute. reflexivity.
  - unfold main.schedule. vm_compute. apply perm_swap.
  - intros s s' Hs Hs'.
    change (main.configsToProcess fixture.noLimit configs)
      with [fixture.story "a"; fixture.story "b"] in Hs, Hs'.
    apply elem_of_cons in Hs as [->|Hs];
      [|apply elem_of_cons in Hs as [->|Hs];
        [|by apply elem_of_nil in Hs]];
      (apply elem_of_cons in Hs' as [->|Hs'];
       [|apply elem_of_cons in Hs' as [->|Hs'];
         [|by apply elem_of_nil in Hs']]);
      vm_compute; discriminate.
Defined.

(** ** More about the selectors *)

(** X20.  [ParseSelectors] returns clean selectors.  For every list of
    ASCII characters, on which the white space [strings.TrimSpace] trims
    is that of the model, the result is never empty; every selector in it
    is not empty, has no white space at either end and holds no comma; and
    when every field between the commas is blank, the result is the one
    selector body. *)
Theorem ParseSelectors_returns_clean_selectors (csv : string) :
  stringspec.asciiOnly csv = true ->
  snapshot.ParseSelectors csv <> []
  /\ Forall (fun p => p <> ""
                      /\ stringspec.trimmed p
                      /\ ~ In ","%char (stringspec.chars p))
       (snapshot.ParseSelectors csv)
  /\ (Forall (fun part => snapshot.strings_TrimSpace part = "")
        (snapshot.strings_Split "," csv) ->
      snapshot.ParseSelectors csv = ["body"]).
Proof.
  intros _. split; [apply snapshot_more.ParseSelectors_nonempty|]. split.
  - apply Forall_forall. intros p Hp. apply list_elem_of_In in Hp.
    by apply snapshot_more.ParseSelectors_each in Hp.
  - intros Hblank. rewrite snapshot_more.ParseSelectors_unfold.
    assert (Hnil : List.filter (fun p => negb (String.eqb p ""))
                     (map snapshot.strings_TrimSpace
                        (snapshot.strings_Split "," csv)) = []).
    { induction Hblank as [|part parts Hpart Hparts IH]; [done|].
      cbn [map List.filter]. by rewrite Hpart. }
    by rewrite Hnil.
Qed.

(** X20 on the list the task loop passes. *)
Lemma ParseSelectors_returns_clean_selectors_witness :
  let csv := "#storybook-root, #root" in
  snapshot.ParseSelectors csv = ["#storybook-root"; "#root"]
  /\ snapshot.ParseSelectors csv <> []
  /\ Forall (fun p => p <> ""
                      /\ stringspec.trimmed p
                      /\ ~ In ","%char (stringspec.chars p))
       (snapshot.ParseSelectors csv)
  /\ (Forall (fun part => snapshot.strings_TrimSpace part = "")
        (snapshot.strings_Split "," csv) ->
      snapshot.ParseSelectors csv = ["body"]).
Proof.
  intros csv. split; [reflexivity|].
  apply (ParseSelectors_returns_clean_selectors csv). reflexivity.
Defined.

(** X21.  Parsing is stable.  For every list of ASCII characters, joining
    the selectors [ParseSelectors] returns with commas and parsing the
    result gives the same selectors again. *)
Theorem ParseSelectors_round_trip (csv : string) :
  stringspec.asciiOnly csv = true ->
  snapshot.ParseSelectors (String.concat "," (snapshot.ParseSelectors csv))
  = snapshot.ParseSelectors csv.
Proof.
  intros _.
  pose proof (snapshot_more.ParseSelectors_nonempty csv) as Hne.
  assert (Hall : forall p, In p (snapshot.ParseSelectors csv) ->
            p <> "" /\ stringspec.trimmed p
            /\ ~ In ","%char (stringspec.chars p))
    by (intros p; apply snapshot_more.ParseSelectors_each).
  set (out := snapshot.ParseSelectors csv) in *.
  rewrite snapshot_more.ParseSelectors_unfold.
  rewrite snapshot_more.Split_concat; [|done|].
  2:{ apply Forall_forall. intros p Hp. apply list_elem_of_In in Hp.
      by apply Hall in Hp as (_ & _ & Hc). }
  assert (Hsame : List.filter (fun p => negb (String.eqb p ""))
                    (map snapshot.strings_TrimSpace out) = out).
  { clear Hne. induction out as [|p out IH]; [done|].
    cbn [map List.filter].
    destruct (Hall p ltac:(by left)) as (Hp & Ht & _).
    unfold stringspec.trimmed in Ht. rewrite Ht.
    destruct (String.eqb_spec p ""); [done|]. cbn [negb].
    f_equal. apply IH. intros q Hq. apply Hall. by right. }
  rewrite Hsame. by destruct out.
Qed.

(** X21 on a list with blank fields and white space around the
    selectors. *)
Lemma ParseSelectors_round_trip_witness :
  let csv := " #a ,, .b c ,  " in
  snapshot.ParseSelectors csv = ["#a"; ".b c"]
  /\ snapshot.ParseSelectors
       (String.concat "," (snapshot.ParseSelectors csv))
     = snapshot.ParseSelectors csv.
Proof.
  intros csv. split; [reflexivity|].
  apply (ParseSelectors_round_trip csv). reflexivity.
Defined.

(** ** The loader of the configuration *)

Section ConfigExtras.
Import config configspec config_facts.

Variable UserHomeDir : string * option error.
Variable filepath_Join : list string -> string.
Variable filepath_Abs : string -> string * option error.
Variable filepath_Clean : string -> string.
Variable strconv_Quote : string -> string.
Variable Decoder : Type.
Variable NewDecoder : list Byte.byte -> Decoder.
Variable Decode_base : Decoder -> tools.decoded LoadedBase * Decoder.
Variable Decode_configs :
  Decoder -> tools.decoded (list (option Loaded)) * Decoder.
Variable Decode_any : Decoder -> tools.decoded unit * Decoder.

Local Abbreviation ExpandPath :=
  (tools.ExpandPath UserHomeDir filepath_Join filepath_Abs filepath_Clean).
Local Abbreviation EnsureEOF := (tools.EnsureEOF Decoder Decode_any).
Local Abbreviation NewOsnapBaseConfig :=
  (config.NewOsnapBaseConfig UserHomeDir filepath_Join filepath_Abs
     filepath_Clean Decoder NewDecoder Decode_base Decode_any).
Local Abbreviation NewOsnapConfig :=
  (config.NewOsnapConfig Decoder NewDecoder Decode_configs Decode_any).
Local Abbreviation FindAndParseConfigs :=
  (config.FindAndParseConfigs UserHomeDir filepath_Join filepath_Abs
     filepath_Clean strconv_Quote Decoder NewDecoder Decode_configs
     Decode_any).

(** X22.  [NewOsnapBaseConfig] returns a checked configuration, or that of
    an empty file.  It returns either a configuration and no error, or an
    error and no configuration.  A configuration it returns is the zero
    value, or it passed every check: at least one default size, all of
    positive width and height, a threshold between 0 and 100, a retry
    count that is not negative, a test pattern, a snapshot directory, and
    colour channels between 0 and 255.  The zero value, which does not pass
    the checks, is what a file without a document gives: the checks are
    not run on it. *)
Theorem NewOsnapBaseConfig_returns_checked_or_empty (fs : os.FileSystem)
    (baseConfigPath : string) :
  ((exists c, NewOsnapBaseConfig fs baseConfigPath = (Some c, None))
   \/ (exists e, NewOsnapBaseConfig fs baseConfigPath = (None, Some e)))
  /\ (forall c,
        NewOsnapBaseConfig fs baseConfigPath = (Some c, None) ->
        c = zeroLoadedBase \/ valid (Base c))
  /\ (forall path f,
        ExpandPath baseConfigPath = (path, None) ->
        os.files fs !! path = Some f ->
        (Decode_base (NewDecoder f)).1 = tools.EOF ->
        NewOsnapBaseConfig fs baseConfigPath = (Some zeroLoadedBase, None))
  /\ ~ valid (Base zeroLoadedBase).
Proof.
  split; [|split; [|split]].
  - unfold config.NewOsnapBaseConfig.
    destruct (ExpandPath baseConfigPath) as [path [e|]]; [right; by eexists|].
    destruct (negb (tools.FileExists fs path)); [right; by eexists|].
    destruct (os.Open fs path) as [f [e|]]; [right; by eexists|].
    destruct (Decode_base (NewDecoder f)) as [[|e|c] dec];
      [left; by eexists|right; by eexists|].
    destruct (EnsureEOF dec); [right; by eexists|].
    destruct (ExpandPath (SnapshotDirectory (Base c))) as [dir [e|]];
      [right; by eexists|].
    destruct (checkBase _); [right; by eexists|left; by eexists].
  - intros c. unfold config.NewOsnapBaseConfig.
    destruct (ExpandPath baseConfigPath) as [path [e|]]; [done|].
    destruct (negb (tools.FileExists fs path)); [done|].
    destruct (os.Open fs path) as [f [e|]]; [done|].
    destruct (Decode_base (NewDecoder f)) as [[|e|c0] dec]; [| done |].
    { intros H. inversion H. by left. }
    destruct (EnsureEOF dec); [done|].
    destruct (ExpandPath (SnapshotDirectory (Base c0))) as [dir [e|]];
      [done|].
    destruct (checkBase _) eqn:Hcheck; [done|].
    intros H. inversion H; subst. right. by apply checkBase_valid.
  - intros path f Hpath Hfile Heof. unfold config.NewOsnapBaseConfig.
    rewrite Hpath. unfold tools.FileExists, os.Stat, os.Open.
    rewrite Hfile. cbn [negb].
    by destruct (Decode_base (NewDecoder f)) as [[|e|c] dec].
  - intros (Hne & _). by apply Hne.
Qed.

(** X23.  [NewOsnapConfig] expands each case into one case per size.  For
    a config file that decodes to a list of cases and holds nothing more,
    the result lists, in the order of the file, the copies of each case in
    its sizes: the default sizes its size names select, else its own size
    or sizes, else every default size; each copy is the case with the
    width and the height of the size.  A nil entry in the list makes the
    function panic. *)
Theorem NewOsnapConfig_expands_each_case (cfg : LoadedBase)
    (fs : os.FileSystem) (configPath : string) (f : list Byte.byte)
    (configs : list (option Loaded)) (dec : Decoder) :
  os.files fs !! configPath = Some f ->
  Decode_configs (NewDecoder f) = (tools.Value configs, dec) ->
  EnsureEOF dec = None ->
  (forall cs,
     configs = Some <$> cs ->
     NewOsnapConfig cfg fs configPath
     = Some (flat_map (expansionOf (Base cfg)) cs, None))
  /\ (None ∈ configs -> NewOsnapConfig cfg fs configPath = None).
Proof.
  intros Hfile Hdec Heof.
  assert (Hunfold : NewOsnapConfig cfg fs configPath
                    = match expandLoop (Base cfg) configs [] with
                      | None => None
                      | Some res => Some (res, None)
                      end).
  { unfold config.NewOsnapConfig, tools.FileExists, os.Stat, os.Open.
    rewrite Hfile. cbn [negb]. by rewrite Hdec, Heof. }
  rewrite Hunfold. split.
  - intros cs ->. by rewrite expandLoop_spec.
  - intros Hnil. by rewrite expandLoop_nil.
Qed.

(** X24.  Size names select default sizes, and unknown names are dropped.
    For a case that names sizes, the loop of [NewOsnapConfig] appends, for
    each name in order, the copy of the case in the first default size of
    that name, and nothing for a name no default size has; the sizes the
    case gives itself are not read.  So the case yields as many cases as
    it has names of default sizes, and none at all, without an error, when
    no name is known. *)
Theorem named_sizes_select_default_sizes (cfg : OsnapBaseConfig)
    (res : list Loaded) (c : Loaded) :
  Strings (Sizes_ c) <> [] ->
  exists new,
    expandCase cfg res (Some c) = Some (res ++ new)
    /\ new = map (fun ds => withSize c (SWidth ds) (SHeight ds))
               (omap (named cfg) (Strings (Sizes_ c)))
    /\ length new
       = length (filter (fun s => s ∈ SizeName <$> DefaultSizes cfg)
                   (Strings (Sizes_ c)))
    /\ ((forall s, s ∈ Strings (Sizes_ c) ->
           s ∉ SizeName <$> DefaultSizes cfg) ->
        new = []).
Proof.
  intros Hne. rewrite expandCase_spec. eexists. split; [reflexivity|].
  unfold expansionOf, sizesOf.
  destruct (Strings (Sizes_ c)) as [|s0 ss] eqn:Hss; [done|].
  rewrite <- Hss. clear Hss Hne s0 ss.
  assert (Hnamed : forall s,
            is_Some (named cfg s) <-> s ∈ SizeName <$> DefaultSizes cfg).
  { intros s. unfold named. split.
    - intros [ds Hds]. apply find_some in Hds as [Hin Heq].
      apply String.eqb_eq in Heq. subst s.
      apply list_elem_of_fmap. exists ds. split; [done|].
      by apply list_elem_of_In.
    - intros Hin. apply list_elem_of_fmap in Hin as (ds & -> & Hin).
      destruct (List.find _ _) eqn:Hf; [by eexists|].
      apply list_elem_of_In in Hin.
      pose proof (find_none _ _ Hf ds Hin) as Hno. cbn in Hno.
      by rewrite String.eqb_refl in Hno. }
  split; [done|]. split.
  - rewrite length_map.
    induction (Strings (Sizes_ c)) as [|s ss IH]; [done|].
    cbn [omap list_omap]. rewrite filter_cons.
    destruct (named cfg s) as [ds|] eqn:Hs.
    + rewrite decide_True by (apply Hnamed; by eexists).
      cbn [length]. by rewrite <- IH.
    + rewrite decide_False; [done|].
      intros Hin. apply Hnamed in Hin as [ds Hds]. congruence.
  - intros Hnone.
    induction (Strings (Sizes_ c)) as [|s ss IH]; [done|].
    cbn [omap list_omap].
    destruct (named cfg s) as [ds|] eqn:Hs.
    + destruct (Hnone s); [apply elem_of_cons; by left|].
      apply Hnamed. by eexists.
    + apply IH. intros s' Hs'. apply Hnone. apply elem_of_cons. by right.
Qed.

(** X25.  With a checked base configuration, the cases that name their
    sizes or give none have positive sizes.  When the base configuration
    passed its checks and the case gives no size of its own, every case
    the loop of [NewOsnapConfig] appends for it has a positive width and a
    positive height, and the name, the URL and the threshold of the case;
    a case that names no size either yields one case per default size, at
    least one. *)
Theorem checked_base_gives_positive_sizes (cfg : OsnapBaseConfig)
    (res : list Loaded) (c : Loaded) :
  checkBase cfg = None ->
  Structs (Sizes_ c) = [] -> One (Sizes_ c) = None ->
  exists new,
    expandCase cfg res (Some c) = Some (res ++ new)
    /\ Forall (fun n => 0 < Width (Case n) /\ 0 < Height (Case n)
                        /\ Name (Case n) = Name (Case c)
                        /\ URL (Case n) = URL (Case c)
                        /\ Threshold (Case n) = Threshold (Case c)) new
    /\ (Strings (Sizes_ c) = [] ->
        length new = length (DefaultSizes cfg) /\ new <> []).
Proof.
  intros Hcheck Hstructs Hone. apply checkBase_valid in Hcheck.
  destruct Hcheck as (Hne & Hpos & _).
  rewrite expandCase_spec. eexists. split; [reflexivity|].
  assert (Hsizes : Forall (fun s => 0 < SWidth s /\ 0 < SHeight s)
                     (sizesOf cfg c)).
  { unfold sizesOf. rewrite Hstructs, Hone.
    destruct (Strings (Sizes_ c)) as [|s0 ss] eqn:Hss; [done|].
    rewrite <- Hss. apply Forall_forall. intros ds Hin.
    apply list_elem_of_omap in Hin as (s & _ & Hs).
    unfold named in Hs. apply find_some in Hs as [Hin _].
    apply list_elem_of_In in Hin.
    by apply (proj1 (Forall_forall _ _) Hpos). }
  split.
  - unfold expansionOf. apply Forall_forall. intros n Hn.
    apply list_elem_of_In, in_map_iff in Hn as (s & <- & Hs).
    apply list_elem_of_In in Hs.
    pose proof (proj1 (Forall_forall _ _) Hsizes s Hs) as [Hw Hh].
    cbn. done.
  - intros Hss. unfold expansionOf, sizesOf.
    rewrite Hss, Hone, Hstructs, length_map. split; [done|].
    by destruct (DefaultSizes cfg).
Qed.

(** X26.  [FindAndParseConfigs] collects the config files the walk
    reaches.  On the tree found at the expanded root, the walk enters
    every directory that is neither named in [IgnorePatterns] nor hidden
    (a name that begins with a dot), the root included, and reads every
    file named [*.osnap.yaml] it comes across.  The function panics if and
    only if [NewOsnapConfig] does on one of these files.  Otherwise it
    returns, in the order of the walk, the cases of the files that
    [NewOsnapConfig] read without an error, those read after a file that
    failed included; and the error it returns beside them is nil if and
    only if every directory entered could be read and every file was read
    without an error. *)
Theorem FindAndParseConfigs_collects_reached_configs (cfg : LoadedBase)
    (fs : os.FileSystem) (tree : string -> filepath.Tree + error)
    (root path : string) (t : filepath.Tree) :
  let evs := events cfg filepath_Join path t in
  let files := configFiles evs in
  ExpandPath root = (path, None) ->
  tree path = inl t ->
  (FindAndParseConfigs cfg fs tree root = None
   <-> exists p, p ∈ files /\ NewOsnapConfig cfg fs p = None)
  /\ forall res err,
       FindAndParseConfigs cfg fs tree root = Some (res, err) ->
       res = flat_map
               (fun p => match NewOsnapConfig cfg fs p with
                         | Some (configs, None) => configs
                         | _ => []
                         end) files
       /\ (err = None
           <-> (forall p e, Unreadable p e ∉ evs)
               /\ forall p, p ∈ files ->
                    exists configs,
                      NewOsnapConfig cfg fs p = Some (configs, None)).
Proof.
  intros evs files Hpath Htree.
  assert (Hunfold :
    FindAndParseConfigs cfg fs tree root
    = let st := fold_left
                  (fun (st : walkState) (ev : event) =>
                     match ev with
                     | ConfigFile p =>
                         (config.visit strconv_Quote Decoder NewDecoder
                            Decode_configs Decode_any cfg fs p
                            (Some (filepath.mkDirEntry ".osnap.yaml" false))
                            None st).1
                     | Unreadable p e =>
                         (config.visit strconv_Quote Decoder NewDecoder
                            Decode_configs Decode_any cfg fs p None
                            (Some e) st).1
                     end) evs (mkWalk [] None false) in
      if panicked st then None
      else Some (results st, errors_Join (aggErr st) None)).
  { unfold config.FindAndParseConfigs, filepath.WalkDir.
    rewrite Hpath, Htree.
    by rewrite (walkDir_events filepath_Join strconv_Quote Decoder
                  NewDecoder Decode_configs Decode_any cfg fs t path). }
  rewrite Hunfold. cbn zeta.
  pose proof (absorb_panicked strconv_Quote Decoder NewDecoder
                Decode_configs Decode_any cfg fs evs (mkWalk [] None false))
    as Hpanic.
  pose proof (absorb_results strconv_Quote Decoder NewDecoder
                Decode_configs Decode_any cfg fs evs (mkWalk [] None false))
    as Hres.
  pose proof (absorb_aggErr strconv_Quote Decoder NewDecoder
                Decode_configs Decode_any cfg fs evs (mkWalk [] None false))
    as Herr.
  cbn [panicked results aggErr orb app] in Hpanic, Hres, Herr.
  fold files in Hpanic, Hres, Herr.
  set (st := fold_left _ evs _) in *.
  assert (Hex : panicked st = true
                <-> exists p, p ∈ files /\ NewOsnapConfig cfg fs p = None).
  { rewrite Hpanic. rewrite existsb_exists. split.
    - intros (p & Hin & Hp). exists p.
      split; [by apply list_elem_of_In|].
      by apply bool_decide_eq_true_1 in Hp.
    - intros (p & Hin & Hp). exists p.
      split; [by apply list_elem_of_In|].
      by apply bool_decide_eq_true_2. }
  split.
  - destruct (panicked st) eqn:Hp.
    + split; [intros _; by apply Hex|done].
    + split; [done|]. intros Hsome. apply Hex in Hsome. done.
  - intros res err. destruct (panicked st) eqn:Hp; [done|].
    intros H. inversion H; subst res err. split; [done|].
    rewrite errors_Join_None, Herr. split.
    + intros [(_ & Hu & Hok) _]. split; [done|].
      intros p Hin.
      destruct (NewOsnapConfig cfg fs p) as [[configs err]|] eqn:Hq.
      * rewrite (Hok p Hin configs err Hq). by exists configs.
      * assert (Hpan : false = true); [|done].
        apply Hex. by exists p.
    + intros [Hu Hok]. split; [|done]. split; [done|]. split; [done|].
      intros p Hin configs err Hq.
      destruct (Hok p Hin) as [configs' Hq']. congruence.
Qed.

End ConfigExtras.

(** X23 on the config file of one case of the project: without sizes of
    its own, the case is copied once, in the default size. *)
Lemma NewOsnapConfig_expands_each_case_witness :
  let c := fixture.loaded "7" config.zeroSizes in
  fixture.NewOsnapConfig fixture.loadedBase fixture.projectDisk
    "proj/a.osnap.yaml"
  = Some (flat_map (configspec.expansionOf fixture.base) [c], None)
  /\ flat_map (configspec.expansionOf fixture.base) [c]
     = [config.withSize c 2 1].
Proof.
  intros c. split; [|reflexivity].
  refine (proj1 (NewOsnapConfig_expands_each_case fixture.Decoder
                   fixture.NewDecoder fixture.Decode_configs
                   fixture.Decode_any fixture.loadedBase fixture.projectDisk
                   "proj/a.osnap.yaml" (fixture.bytes [7]) [Some c] []
                   _ _ _) [c] _);
    vm_compute; reflexivity.
Defined.

(** X24 on a case that names the default size twice, and a size the base
    configuration does not have in between. *)
Lemma named_sizes_select_default_sizes_witness :
  let c := fixture.loaded "a" (config.mkSizes ["s"; "xl"; "s"]
                                 [config.mkSize "own" 9 9] None) in
  exists new,
    config.expandCase fixture.base [] (Some c) = Some ([] ++ new)
    /\ new = map (fun ds => config.withSize c (config.SWidth ds)
                              (config.SHeight ds))
               (omap (configspec.named fixture.base)
                  (config.Strings (config.Sizes_ c)))
    /\ length new
       = length (filter
                   (fun s => s ∈ config.SizeName
                                   <$> config.DefaultSizes fixture.base)
                   (config.Strings (config.Sizes_ c)))
    /\ ((forall s, s ∈ config.Strings (config.Sizes_ c) ->
           s ∉ config.SizeName <$> config.DefaultSizes fixture.base) ->
        new = []).
Proof.
  intros c. apply (named_sizes_select_default_sizes fixture.base [] c).
  discriminate.
Defined.

(** X25 on a case without sizes under the checked base configuration. *)
Lemma checked_base_gives_positive_sizes_witness :
  let c := fixture.loaded "a" config.zeroSizes in
  exists new,
    config.expandCase fixture.base [] (Some c) = Some ([] ++ new)
    /\ Forall (fun n => 0 < config.Width (config.Case n)
                        /\ 0 < config.Height (config.Case n)
                        /\ config.Name (config.Case n)
                           = config.Name (config.Case c)
                        /\ config.URL (config.Case n)
                           = config.URL (config.Case c)
                        /\ config.Threshold (config.Case n)
                           = config.Threshold (config.Case c)) new
    /\ (config.Strings (config.Sizes_ c) = [] ->
        length new = length (config.DefaultSizes fixture.base)
        /\ new <> []).
Proof.
  intros c. apply (checked_base_gives_positive_sizes fixture.base [] c);
    reflexivity.
Defined.

(** X26 on the project: the walk reads the two config files of the root
    and neither the one below [.git] nor the one below [node_modules]. *)
Lemma FindAndParseConfigs_collects_reached_configs_witness :
  let tree := fun _ : string => inl fixture.project in
  let evs := configspec.events fixture.loadedBase fixture.filepath_Join
               "proj" fixture.project in
  let files := configspec.configFiles evs in
  files = ["proj/a.osnap.yaml"; "proj/b.osnap.yaml"]
  /\ (fixture.FindAndParseConfigs fixture.loadedBase fixture.projectDisk
        tree "proj" = None
      <-> exists p, p ∈ files
                    /\ fixture.NewOsnapConfig fixture.loadedBase
                         fixture.projectDisk p = None)
  /\ forall res err,
       fixture.FindAndParseConfigs fixture.loadedBase fixture.projectDisk
         tree "proj" = Some (res, err) ->
       res = flat_map
               (fun p => match fixture.NewOsnapConfig fixture.loadedBase
                                 fixture.projectDisk p with
                         | Some (configs, None) => configs
                         | _ => []
                         end) files
       /\ (err = None
           <-> (forall p e, configspec.Unreadable p e ∉ evs)
               /\ forall p, p ∈ files ->
                    exists configs,
                      fixture.NewOsnapConfig fixture.loadedBase
                        fixture.projectDisk p = Some (configs, None)).
Proof.
  intros tree evs files. split; [reflexivity|].
  apply (FindAndParseConfigs_collects_reached_configs fixture.UserHomeDir
           fixture.filepath_Join fixture.filepath_Abs fixture.filepath_Clean
           fixture.strconv_Quote fixture.Decoder fixture.NewDecoder
           fixture.Decode_configs fixture.Decode_any fixture.loadedBase
           fixture.projectDisk tree "proj" "proj" fixture.project);
    reflexivity.
Defined.

(** ** The build and the server of the stories *)

Section StorybookExtras.
Import storybook.

Variable World : Type.
Variable isDir : World -> string -> bool.
Variable cmd_Run :
  string -> list string -> string -> World -> World * option error.
Variable time_Now : World -> Z.
Variable time_Sleep : Z -> World -> World.
Variable client_Get : string -> World -> (Response + error) * World.

Local Abbreviation BuildIfNeeded := (storybook.BuildIfNeeded World isDir cmd_Run).
Local Abbreviation WaitHTTP :=
  (storybook.WaitHTTP World time_Now time_Sleep client_Get).

(** X27.  [BuildIfNeeded] succeeds only with the build directory in place.
    When it returns no error, [buildDir] is a directory afterwards.
    Without [force] and with the directory already there it runs nothing
    and succeeds, whatever the build command is.  Otherwise a build
    command of white space only is refused before anything is run, and
    this is the only way to get the error of the empty command; and an
    error of the build command is the error of running, in [workDir], the
    first field of the command on the other fields. *)
Theorem BuildIfNeeded_succeeds_only_with_build_dir
    (buildCmd buildDir workDir : string) (force : bool) (w : World) :
  stringspec.asciiOnly buildCmd = true ->
  let r := BuildIfNeeded buildCmd buildDir workDir force w in
  (r.2 = None -> isDir r.1 buildDir = true)
  /\ (force = false -> isDir w buildDir = true -> r = (w, None))
  /\ (r.2 = Some BuildCommandEmpty
      <-> (force = true \/ isDir w buildDir = false)
          /\ stringspec.blank buildCmd = true)
  /\ (r.2 = Some BuildCommandEmpty -> r.1 = w)
  /\ (forall e,
        r.2 = Some (BuildCommandFailed e) ->
        exists bin args,
          strings_Fields buildCmd = bin :: args
          /\ cmd_Run bin args workDir w = (r.1, Some e)).
Proof.
  intros _ r. subst r. unfold storybook.BuildIfNeeded.
  pose proof (storybook_facts.splitCmd_empty buildCmd) as Hblank.
  pose proof (storybook_facts.Fields_parts buildCmd) as Hparts.
  unfold splitCmd in *.
  destruct (negb force && isDir w buildDir) eqn:Hskip.
  { apply andb_true_iff in Hskip as [Hforce Hdir].
    apply negb_true_iff in Hforce. cbn [fst snd].
    split; [done|]. split; [done|]. split; [|split; [done|done]].
    split; [done|]. intros [[Hf|Hd] _]; congruence. }
  assert (Hneed : force = true \/ isDir w buildDir = false).
  { destruct force; [by left|]. right. by destruct (isDir w buildDir). }
  destruct (strings_Fields buildCmd) as [|bin args] eqn:Hfields.
  { cbn [fst snd String.eqb]. split; [done|]. split.
    - intros Hf Hd. destruct Hneed; congruence.
    - split; [|split; [done|done]].
      split; [|done]. intros _. split; [done|]. by apply Hblank. }
  cbn [fst] in Hblank.
  assert (Hbin : String.eqb bin "" = false).
  { apply String.eqb_neq. by inversion Hparts. }
  rewrite Hbin.
  assert (Hnot : stringspec.blank buildCmd <> true).
  { intros H. apply Hblank in H. apply String.eqb_neq in Hbin. done. }
  destruct (cmd_Run bin args workDir w) as [w1 [e|]] eqn:Hrun.
  - cbn [fst snd]. split; [done|]. split.
    + intros Hf Hd. destruct Hneed; congruence.
    + split; [split; [done|by intros [_ H]]|]. split; [done|].
      intros e' He'. inversion He'; subst. by exists bin, args.
  - destruct (isDir w1 buildDir) eqn:Hdir; cbn [negb fst snd].
    + split; [done|]. split.
      * intros Hf Hd. destruct Hneed; congruence.
      * split; [split; [done|by intros [_ H]]|]. split; done.
    + split; [done|]. split.
      * intros Hf Hd. destruct Hneed; congruence.
      * split; [split; [done|by intros [_ H]]|]. split; done.
Qed.

(** X28.  [WaitHTTP] gives up at the deadline.  On a host whose clock does
    not go back during a request and moves on by the time asked for during
    a sleep, the loop tests its condition at most once more than there are
    quarters of a second in the timeout, so it makes at most that many
    requests and then returns.  It returns true only after a request that
    was answered with a status from 200 to 499, false only when the clock
    has reached the deadline, and with a timeout that is not positive it
    returns false without a request. *)
Theorem WaitHTTP_gives_up_at_the_deadline (port : Z) (path : string)
    (timeout : Z) (w : World) (fuel : nat) :
  (forall url w, time_Now w <= time_Now (client_Get url w).2) ->
  (forall d w, time_Now w + d <= time_Now (time_Sleep d w)) ->
  (Z.to_nat ((timeout + 250 * Millisecond - 1) / (250 * Millisecond))
   < fuel)%nat ->
  exists b w',
    WaitHTTP fuel port path timeout w = Some (b, w')
    /\ (b = true ->
        exists w0 resp,
          client_Get (healthURL port path) w0 = (inl resp, w')
          /\ 200 <= StatusCode resp < 500)
    /\ (b = false -> time_Now w + timeout <= time_Now w')
    /\ (timeout <= 0 -> b = false /\ w' = w).
Proof.
  intros Hget Hsleep Hfuel. unfold storybook.WaitHTTP.
  destruct (storybook_facts.waitLoop_returns World time_Now time_Sleep
              client_Get Hget Hsleep fuel (healthURL port path)
              (time_Now w + timeout) w)
    as (b & w' & Hloop & Htrue & Hfalse & Hpast).
  - unfold Millisecond in *.
    pose proof (Z.div_mod (timeout + 250 * 1000000 - 1) (250 * 1000000))
      as Hdiv.
    pose proof (Z.mod_pos_bound (timeout + 250 * 1000000 - 1)
                  (250 * 1000000)) as Hmod.
    set (k := (timeout + 250 * 1000000 - 1) / (250 * 1000000)) in *.
    lia.
  - lia.
  - exists b, w'. split; [done|]. split; [done|]. split; [done|].
    intros Htimeout. apply Hpast. lia.
Qed.

End StorybookExtras.

(** X27 on a host without the build directory, where the build command
    creates it. *)
Lemma BuildIfNeeded_succeeds_only_with_build_dir_witness :
  let r := storybook.BuildIfNeeded fixture.Host fixture.isDir fixture.cmd_Run
             "npm run  build-storybook" "storybook-static" "" false
             fixture.host0 in
  r = (fixture.mkHost 0 true 0, None)
  /\ (r.2 = None -> fixture.isDir r.1 "storybook-static" = true).
Proof.
  split; [reflexivity|].
  apply (BuildIfNeeded_succeeds_only_with_build_dir fixture.Host
           fixture.isDir fixture.cmd_Run "npm run  build-storybook"
           "storybook-static" "" false fixture.host0).
  reflexivity.
Defined.

(** X28 with a timeout of two seconds, on a server that answers from its
    third request on. *)
Lemma WaitHTTP_gives_up_at_the_deadline_witness :
  exists b w',
    storybook.WaitHTTP fixture.Host fixture.time_Now fixture.time_Sleep
      fixture.client_Get 9 6006 "iframe.html" 2000000000 fixture.host0
    = Some (b, w')
    /\ (b = true ->
        exists w0 resp,
          fixture.client_Get (storybook.healthURL 6006 "iframe.html") w0
          = (inl resp, w')
          /\ 200 <= storybook.StatusCode resp < 500)
    /\ (b = false ->
        fixture.time_Now fixture.host0 + 2000000000 <= fixture.time_Now w')
    /\ (2000000000 <= 0 -> b = false /\ w' = fixture.host0).
Proof.
  apply (WaitHTTP_gives_up_at_the_deadline fixture.Host fixture.time_Now
           fixture.time_Sleep fixture.client_Get 6006 "iframe.html"
           2000000000 fixture.host0 9).
  - intros url w. unfold fixture.time_Now, fixture.client_Get. simpl. lia.
  - intros d w. unfold fixture.time_Now, fixture.time_Sleep. simpl. lia.
  - vm_compute. lia.
Defined.

(** ** The model of the progress view *)

(** X29.  [Update] keeps the counters of the view consistent.  From the
    model of [New] with a [maxLog] that is not negative, no list of
    messages makes [Update] panic, and after it [total] and [maxLog] are
    as given, [running] is the number of active cases, the log holds
    [completed] entries or [maxLog] if that is less, the counters of the
    four statuses are not negative and together at most [completed],
    [completed] is at most the number of messages, and [running] and
    [completed] together are at most the number of start events. *)
Theorem Update_keeps_counters_consistent (total maxLog : Z)
    (msgs : list (ui.Msg * Z)) :
  0 <= maxLog ->
  Z.of_nat (length msgs) < 2 ^ 63 ->
  exists m,
    ui.updates msgs (ui.New total maxLog) = Some m
    /\ ui.total m = total /\ ui.maxLog m = maxLog
    /\ uispec.wellCounted m
    /\ 0 <= ui.completed (ui.counts m) <= Z.of_nat (length msgs)
    /\ ui.running (ui.counts m) + ui.completed (ui.counts m)
       <= Z.of_nat
            (length (filter (fun msg => uispec.isStart msg = true) msgs)).
Proof.
  intros Hmax Hlen.
  destruct (ui_facts.updates_inv msgs (ui.New total maxLog))
    as (m & Hm & Htot & Hml & Hwell & Hcomp & Hrun).
  - unfold uispec.wellCounted, ui.New. cbn.
    rewrite map_size_empty. lia.
  - done.
  - cbn. lia.
  - cbn. lia.
  - exists m. cbn in Hcomp, Hrun, Htot, Hml.
    split; [done|]. split; [done|]. split; [done|]. split; [done|].
    split; lia.
Qed.

(** X29 on two cases that overlap, with a tick in between. *)
Lemma Update_keeps_counters_consistent_witness :
  let msgs := [(fixture.started "a" 0, 10); (fixture.started "b" 1, 20);
               (fixture.done "a" 0 "pass", 30); (ui.tickMsg 40, 40);
               (fixture.done "b" 1 "fail", 50)] in
  exists m,
    ui.updates msgs (ui.New 2 12) = Some m
    /\ ui.total m = 2 /\ ui.maxLog m = 12
    /\ uispec.wellCounted m
    /\ 0 <= ui.completed (ui.counts m) <= Z.of_nat (length msgs)
    /\ ui.running (ui.counts m) + ui.completed (ui.counts m)
       <= Z.of_nat
            (length (filter (fun msg => uispec.isStart msg = true) msgs)).
Proof.
  intros msgs.
  apply (Update_keeps_counters_consistent 2 12 msgs); [lia|].
  vm_compute. reflexivity.
Defined.

(** X30.  [Update] counts a name once.  Of two events in a row of the same
    type and for the same name, the second one changes nothing, whatever
    its other fields are: a case that starts while a case of its name is
    active is not added, and a case that is done after a case of its name
    was done is not counted. *)
Theorem Update_counts_a_name_once (m m1 : ui.Model) (e1 e2 : ui.Event)
    (t1 t2 : Z) (c : option ui.Cmd) :
  ui.Name e2 = ui.Name e1 ->
  ui.Type_ e2 = ui.Type_ e1 ->
  ui.Update (ui.eventMsg e1) t1 m = Some (m1, c) ->
  ui.Update (ui.eventMsg e2) t2 m1 = Some (m1, None).
Proof.
  intros Hname Htype. cbn [ui.Update]. rewrite Hname, Htype.
  destruct (ui.Type_ e1 =? ui.EvtStart) eqn:Hstart.
  - destruct (ui.active m !! ui.Name e1) as [it|] eqn:Hact.
    + intros H. inversion H; subst. by rewrite Hact.
    + intros H. inversion H; subst. cbn [ui.active].
      by rewrite lookup_insert_eq.
  - destruct (ui.Type_ e1 =? ui.EvtDone) eqn:Hdone.
    + destruct (ui.active m !! ui.Name e1) as [it|] eqn:Hact.
      * destruct (ui.lastLogs _ _); [|done].
        intros H. inversion H; subst. cbn [ui.active].
        by rewrite lookup_delete_eq.
      * intros H. inversion H; subst. by rewrite Hact.
    + intros H. by inversion H.
Qed.

(** X30 on two cases of one name, as the sizes of one case give: the
    second start and the second end are not counted. *)
Lemma Update_counts_a_name_once_witness :
  let m := ui.New 2 12 in
  let start1 := ui.mkEvent ui.EvtStart "a" "/a" 0 "" "" in
  let start2 := ui.mkEvent ui.EvtStart "a" "/a" 1 "" "" in
  exists m1,
    ui.Update (ui.eventMsg start1) 10 m = Some (m1, None)
    /\ ui.running (ui.counts m1) = 1
    /\ ui.Update (ui.eventMsg start2) 20 m1 = Some (m1, None).
Proof.
  intros m start1 start2. eexists. split; [reflexivity|].
  split; [reflexivity|].
  apply (Update_counts_a_name_once m _ start1 start2 10 20 None);
    reflexivity.
Defined.

